(** * gasClassifier: a shallow embedding of [gas_classifier.ipynb]

    The notebook is a straight-line pipeline of pandas / scikit-learn
    calls:

      read_csv -> fillna(mean) -> oversample minority classes -> shuffle
      -> stratified train/test split -> StandardScaler -> corr() filter
      -> GridSearchCV.

    Every cell of the notebook is embedded below as a function with the
    notebook's variable name ([data_cleaned], [balanced_data],
    [relevant_features], ...).  The library calls are embedded by the
    documented behaviour of the called function, under the library's own
    name ([resample], [train_test_split], [_approximate_mode], ...).

    Numbers.  Feature values are float64 in the notebook.  They are
    embedded as real numbers ([R]) with exact arithmetic: the rounding
    of float64 operations is left out, so a statement such as "the
    standard deviation is 1" is about the exact value.  A constant that
    the code itself takes from the float format is kept as the number
    it is (the machine epsilon [eps] of [_is_constant_feature]).  A
    float that is NaN or infinite is [None] in an [option R].  Row counts and indices
    are [nat].

    Row labels.  Every row selection of the notebook is positional
    ([iloc]-style) and the notebook ends the balancing stage with
    [reset_index(drop=True)], so a frame is embedded without its row
    index. *)

From Stdlib Require Import String List Bool Arith Lia Permutation Sorted.
From Stdlib Require Import Reals Lra.
Import ListNotations.


(** ** Python exceptions *)

Inductive exn : Type :=
| KeyError
| ValueError
| IndexError
| TypeError.

Inductive result (A : Type) : Type :=
| Ok (a : A)
| Raise (e : exn).

Arguments Ok {A} a.
Arguments Raise {A} e.

Definition result_bind {A B : Type} (c : result A) (k : A -> result B) : result B :=
  match c with
  | Ok a => k a
  | Raise e => Raise e
  end.

Definition result_map {A B : Type} (f : A -> B) (c : result A) : result B :=
  result_bind c (fun a => Ok (f a)).

(** [mapM] of the error monad: the first exception wins. *)
Fixpoint result_all {A : Type} (l : list (result A)) : result (list A) :=
  match l with
  | [] => Ok []
  | c :: rest =>
      result_bind c (fun a => result_bind (result_all rest) (fun r => Ok (a :: r)))
  end.

(** ** numpy's [RandomState]

    The generator is a black box (Mersenne Twister).  It is embedded as
    an abstract state type with the three draws the pipeline uses; what
    the proofs know about a draw is its documented range
    ([RandomStateLaws] below), never its value. *)

Class RandomStateOps (rng : Type) : Type := {
  (** [np.random.RandomState(seed)] *)
  RandomState : nat -> rng;
  (** [rs.randint(0, high, size)], for [0 < high] *)
  randint : nat -> nat -> rng -> list nat * rng;
  (** [rs.permutation(x)]: a shuffled copy of the index array [x] *)
  permutation : list nat -> rng -> list nat * rng;
  (** [rs.choice(a, size, replace=False)], for [size <= len(a)] *)
  choice : list nat -> nat -> rng -> list nat * rng
}.

(** Code that draws random numbers and may raise: the generator state is
    threaded, and survives an exception. *)
Definition M (rng A : Type) : Type := rng -> result A * rng.

Definition ret {rng A : Type} (a : A) : M rng A := fun r => (Ok a, r).

Definition raise {rng A : Type} (e : exn) : M rng A := fun r => (Raise e, r).

Definition lift {rng A : Type} (c : result A) : M rng A := fun r => (c, r).

Definition bind {rng A B : Type} (c : M rng A) (k : A -> M rng B) : M rng B :=
  fun r => match c r with
           | (Ok a, r') => k a r'
           | (Raise e, r') => (Raise e, r')
           end.

Notation "x <- c ;; k" := (bind c (fun x => k))
  (at level 61, c at next level, right associativity).

(** A draw of the generator, as a computation. *)
Definition draw {rng A : Type} (f : rng -> A * rng) : M rng A :=
  fun r => let (a, r') := f r in (Ok a, r').

(** [check_random_state(seed)]: an integer seed makes a fresh private
    generator and leaves the process-wide one alone; [None] uses (and
    advances) the process-wide generator [np.random.mtrand._rand]. *)
Definition with_random_state {rng A : Type} `{RandomStateOps rng}
    (random_state : option nat) (body : M rng A) : M rng A :=
  fun global =>
    match random_state with
    | Some seed => (fst (body (RandomState seed)), global)
    | None => body global
    end.

(** ** Series and frames *)

(** A Python value held by a non-numeric column, or a class label. *)
Inductive scalar : Type :=
| Flt (x : R)
| Str (s : string).

(** [a == b] on two non-missing values. *)
Definition scalar_eqb (a b : scalar) : bool :=
  match a, b with
  | Str s, Str t => String.eqb s t
  | Flt x, Flt y => if Req_EM_T x y then true else false
  | _, _ => false
  end.

(** A pandas column.  [Float64] is a numeric column, [None] is NaN;
    [Object] is a non-numeric column, [None] is a missing entry. *)
Inductive Series : Type :=
| Float64 (values : list (option R))
| Object (values : list (option scalar)).

(** A frame: the number of rows (the length of its index) and the
    ordered list of its named columns. *)
Record DataFrame : Type := {
  shape0 : nat;
  cols : list (string * Series)
}.

Definition columns (df : DataFrame) : list string := map fst (cols df).

Fixpoint lookup {A : Type} (name : string) (l : list (string * A)) : option A :=
  match l with
  | [] => None
  | (n, a) :: rest => if String.eqb n name then Some a else lookup name rest
  end.

(** [df[name]]: the column of that name, [KeyError] when there is none. *)
Definition getitem (name : string) (df : DataFrame) : result Series :=
  match lookup name (cols df) with
  | Some s => Ok s
  | None => Raise KeyError
  end.

(** The entries of a column as Python values. *)
Definition items (s : Series) : list (option scalar) :=
  match s with
  | Float64 v => map (option_map Flt) v
  | Object v => v
  end.

Definition Series_len (s : Series) : nat :=
  match s with
  | Float64 v => length v
  | Object v => length v
  end.

(** Every column of a frame has one entry per row. *)
Definition rectangular (df : DataFrame) : Prop :=
  Forall (fun c => Series_len (snd c) = shape0 df) (cols df).

(** [v[mask]] with a boolean mask. *)
Fixpoint compress {A : Type} (mask : list bool) (v : list A) : list A :=
  match mask, v with
  | b :: mask', x :: v' => if b then x :: compress mask' v' else compress mask' v'
  | _, _ => []
  end.

(** [v.take(indices)]: positional selection; a position past the end
    raises [IndexError]. *)
Fixpoint take {A : Type} (indices : list nat) (v : list A) : result (list A) :=
  match indices with
  | [] => Ok []
  | i :: rest =>
      match nth_error v i with
      | Some x => result_map (cons x) (take rest v)
      | None => Raise IndexError
      end
  end.

Definition Series_compress (mask : list bool) (s : Series) : Series :=
  match s with
  | Float64 v => Float64 (compress mask v)
  | Object v => Object (compress mask v)
  end.

Definition Series_take (indices : list nat) (s : Series) : result Series :=
  match s with
  | Float64 v => result_map Float64 (take indices v)
  | Object v => result_map Object (take indices v)
  end.

(** Appending two columns; a numeric column appended to a non-numeric
    one is upcast to [Object]. *)
Definition Series_append (s t : Series) : Series :=
  match s, t with
  | Float64 v, Float64 w => Float64 (v ++ w)
  | _, _ => Object (items s ++ items t)
  end.

(** [df[mask]] with a boolean mask over the rows. *)
Definition DataFrame_compress (mask : list bool) (df : DataFrame) : DataFrame :=
  {| shape0 := length (compress mask (seq 0 (shape0 df)));
     cols := map (fun c => (fst c, Series_compress mask (snd c))) (cols df) |}.

(** [df.iloc[indices]] *)
Definition DataFrame_take (indices : list nat) (df : DataFrame) : result DataFrame :=
  if forallb (fun i => i <? shape0 df) indices then
    result_map (Build_DataFrame (length indices))
      (result_all
         (map (fun c => result_map (pair (fst c)) (Series_take indices (snd c)))
            (cols df)))
  else Raise IndexError.

(** [df.drop(columns=[name])] *)
Definition drop (name : string) (df : DataFrame) : result DataFrame :=
  if existsb (String.eqb name) (columns df)
  then Ok {| shape0 := shape0 df;
             cols := filter (fun c => negb (String.eqb (fst c) name)) (cols df) |}
  else Raise KeyError.

Definition nan_like (s : Series) (n : nat) : Series :=
  match s with
  | Float64 _ => Float64 (repeat None n)
  | Object _ => Object (repeat None n)
  end.

(** [pd.concat([a, b])]: rows of [a] then rows of [b]; columns are
    matched by name, a column missing on one side is NaN there. *)
Definition concat2 (a b : DataFrame) : DataFrame :=
  {| shape0 := shape0 a + shape0 b;
     cols :=
       map (fun c =>
              (fst c,
               Series_append (snd c)
                 (match lookup (fst c) (cols b) with
                  | Some t => t
                  | None => nan_like (snd c) (shape0 b)
                  end))) (cols a)
       ++ map (fun c => (fst c, Series_append (nan_like (snd c) (shape0 a)) (snd c)))
            (filter (fun c => negb (existsb (String.eqb (fst c)) (columns a)))
               (cols b)) |}.

(** [pd.concat(frames)] of a non-empty list of frames. *)
Definition concat (frames : list DataFrame) : result DataFrame :=
  match frames with
  | [] => Raise ValueError
  | first :: rest => Ok (fold_left concat2 rest first)
  end.

Definition dropna {A : Type} (v : list (option A)) : list A :=
  flat_map (fun c => match c with Some x => [x] | None => [] end) v.

Definition hasnans {A : Type} (v : list (option A)) : bool :=
  existsb (fun c => match c with Some _ => false | None => true end) v.

Definition Rsum (xs : list R) : R := fold_right Rplus 0%R xs.

(** ** Imputer: [data.fillna(data.mean(numeric_only=True))] *)

(** [Series.mean()] skips NaN; the mean of no value at all is NaN. *)
Definition nanmean (v : list (option R)) : option R :=
  match dropna v with
  | [] => None
  | xs => Some (Rsum xs / INR (length xs))%R
  end.

(** [DataFrame.mean(numeric_only=True)]: one entry per numeric column,
    in column order. *)
Definition mean_numeric_only (df : DataFrame) : list (string * option R) :=
  flat_map (fun c => match snd c with
                     | Float64 v => [(fst c, nanmean v)]
                     | Object _ => []
                     end) (cols df).

(** [Series.fillna(m)]: a NaN fill value leaves the column as it is. *)
Definition fillna_values {A : Type} (m : option A) (v : list (option A))
  : list (option A) :=
  match m with
  | Some x => map (fun c => match c with Some y => Some y | None => Some x end) v
  | None => v
  end.

Definition Series_fillna (m : option R) (s : Series) : Series :=
  match s with
  | Float64 v => Float64 (fillna_values m v)
  | Object v => Object (fillna_values (option_map Flt m) v)
  end.

(** [DataFrame.fillna(value)] with a Series [value]: a column is filled
    when its name is in the index of [value], and left alone otherwise. *)
Definition fillna (value : list (string * option R)) (df : DataFrame) : DataFrame :=
  {| shape0 := shape0 df;
     cols := map (fun c => match lookup (fst c) value with
                           | Some m => (fst c, Series_fillna m (snd c))
                           | None => c
                           end) (cols df) |}.

Definition data_cleaned (data : DataFrame) : DataFrame :=
  fillna (mean_numeric_only data) data.

(** ** Balancer: oversampling the minority classes *)

Definition class_column : string := "gas_label".

Fixpoint count_scalar (x : scalar) (l : list scalar) : nat :=
  match l with
  | [] => 0
  | y :: rest => (if scalar_eqb y x then 1 else 0) + count_scalar x rest
  end.

(** Distinct values, in order of first occurrence. *)
Fixpoint unique (l : list scalar) : list scalar :=
  match l with
  | [] => []
  | x :: rest => x :: filter (fun y => negb (scalar_eqb x y)) (unique rest)
  end.

Fixpoint insert_desc (p : scalar * nat) (l : list (scalar * nat)) : list (scalar * nat) :=
  match l with
  | [] => [p]
  | q :: rest => if snd p <? snd q then q :: insert_desc p rest else p :: q :: rest
  end.

(** [sort_values(ascending=False)]; equal counts keep their order. *)
Definition sort_values_desc (l : list (scalar * nat)) : list (scalar * nat) :=
  fold_right insert_desc [] l.

(** [Series.value_counts()]: NaN is dropped, one entry per distinct
    value, most frequent first. *)
Definition value_counts (s : Series) : list (scalar * nat) :=
  let present := dropna (items s) in
  sort_values_desc (map (fun x => (x, count_scalar x present)) (unique present)).

(** [Series.max()] of a series of counts. *)
Definition Series_max (counts : list (scalar * nat)) : nat :=
  fold_right Nat.max 0 (map snd counts).

(** [Series.idxmax()]: the label of the first maximal entry; an empty
    series raises [ValueError]. *)
Definition idxmax (counts : list (scalar * nat)) : result scalar :=
  match find (fun p => snd p =? Series_max counts) counts with
  | Some p => Ok (fst p)
  | None => Raise ValueError
  end.

(** [counts[label]] *)
Definition loc (label : scalar) (counts : list (scalar * nat)) : result nat :=
  match find (fun p => scalar_eqb (fst p) label) counts with
  | Some p => Ok (snd p)
  | None => Raise KeyError
  end.

(** [series == label]; NaN equals nothing. *)
Definition eq_mask (s : Series) (label : scalar) : list bool :=
  map (fun o => match o with
                | Some x => scalar_eqb x label
                | None => false
                end) (items s).

Section Sampling.

Context {rng : Type} `{RandomStateOps rng}.

Fixpoint mapM {A B : Type} (f : A -> M rng B) (l : list A) : M rng (list B) :=
  match l with
  | [] => ret []
  | a :: rest => b <- f a ;; bs <- mapM f rest ;; ret (b :: bs)
  end.

(** [sklearn.utils.resample(df, replace=True, n_samples=.., random_state=..)]:
    [randint(0, len(df), size=n_samples)] and a positional take. *)
Definition resample (df : DataFrame) (n_samples : nat) (random_state : option nat)
  : M rng DataFrame :=
  with_random_state random_state
    (indices <- (if shape0 df =? 0 then raise ValueError
                 else draw (randint (shape0 df) n_samples)) ;;
     lift (DataFrame_take indices df)).

(** [df.sample(frac=1, random_state=..)]: all [len(df)] positions drawn
    without replacement, and a positional take. *)
Definition sample (df : DataFrame) (random_state : option nat) : M rng DataFrame :=
  with_random_state random_state
    (indices <- draw (choice (seq 0 (shape0 df)) (shape0 df)) ;;
     lift (DataFrame_take indices df)).

(** Notebook cell 4.  [reset_index(drop=True)] only renumbers the row
    labels, which the embedding does not carry. *)
Definition balanced_data (data_cleaned : DataFrame) : M rng DataFrame :=
  labels <- lift (getitem class_column data_cleaned) ;;
  let class_distribution := value_counts labels in
  majority_class <- lift (idxmax class_distribution) ;;
  let minority_classes :=
    map fst (filter (fun p => negb (snd p =? Series_max class_distribution))
               class_distribution) in
  let majority_data :=
    DataFrame_compress (eq_mask labels majority_class) data_cleaned in
  resampled <- mapM (fun minority_class =>
                 let minority_data :=
                   DataFrame_compress (eq_mask labels minority_class) data_cleaned in
                 n_samples <- lift (loc majority_class class_distribution) ;;
                 resample minority_data n_samples (Some 42))
               minority_classes ;;
  combined <- lift (concat (majority_data :: resampled)) ;;
  sample combined (Some 42).

End Sampling.

(** ** Splitter: [train_test_split(X, y, test_size=0.2, random_state=42, stratify=y)] *)

(** The positions of [l] that satisfy [p], ascending ([np.flatnonzero]). *)
Definition flatnonzero {A : Type} (p : A -> bool) (l : list A) : list nat :=
  map fst (filter (fun ix => p (snd ix)) (combine (seq 0 (length l)) l)).

(** [a < b] between two labels of one Python type. *)
Definition scalar_ltb (a b : scalar) : bool :=
  match a, b with
  | Str s, Str t => String.ltb s t
  | Flt x, Flt y => if Rlt_dec x y then true else false
  | _, _ => false
  end.

Definition same_type (a b : scalar) : bool :=
  match a, b with
  | Str _, Str _ => true
  | Flt _, Flt _ => true
  | _, _ => false
  end.

Fixpoint insert_scalar (x : scalar) (l : list scalar) : list scalar :=
  match l with
  | [] => [x]
  | y :: rest => if scalar_ltb y x then y :: insert_scalar x rest else x :: y :: rest
  end.

(** [np.unique(y)]: the distinct labels, sorted; strings and numbers in
    one array cannot be compared. *)
Definition np_unique (y : list scalar) : result (list scalar) :=
  match y with
  | [] => Ok []
  | first :: _ =>
      if forallb (same_type first) y
      then Ok (fold_right insert_scalar [] (unique y))
      else Raise TypeError
  end.

(** [check_array(y)]: a missing label is rejected. *)
Definition check_array_y (y : Series) : result (list scalar) :=
  if hasnans (items y) then Raise ValueError else Ok (dropna (items y)).

(** The test fraction 0.2 as the exact ratio 1/5.  (For a row count
    below 2^50 the float product [0.2 * n] has the same ceiling as the
    exact one, so nothing is lost.) *)
Definition test_size : nat * nat := (1, 5).

Definition ceil_div (a b : nat) : nat := (a + (b - 1)) / b.

(** [_validate_shuffle_split] with a float [test_size] and
    [train_size=None]. *)
Definition _validate_shuffle_split (n_samples : nat) (test_size : nat * nat)
  : result (nat * nat) :=
  let (num, den) := test_size in
  if (num =? 0) || (den <=? num) then Raise ValueError
  else
    let n_test := ceil_div (num * n_samples) den in
    let n_train := n_samples - n_test in
    if n_train =? 0 then Raise ValueError else Ok (n_train, n_test).

(** [_validate_shuffle_split] with integer sizes, as
    [StratifiedShuffleSplit] receives them from [train_test_split]. *)
Definition _validate_shuffle_split_int (n_samples n_test n_train : nat)
  : result (nat * nat) :=
  if (n_samples <=? n_test) || (n_test =? 0) then Raise ValueError
  else if (n_samples <=? n_train) || (n_train =? 0) then Raise ValueError
  else if n_samples <? n_train + n_test then Raise ValueError
  else Ok (n_train, n_test).

Fixpoint insert_nat_desc (x : nat) (l : list nat) : list nat :=
  match l with
  | [] => [x]
  | y :: rest =>
      if x <? y then y :: insert_nat_desc x rest
      else if x =? y then y :: rest
      else x :: y :: rest
  end.

(** [np.sort(np.unique(a))[::-1]] *)
Definition unique_desc (a : list nat) : list nat :=
  fold_right insert_nat_desc [] a.

(** [a[inds] += 1] *)
Definition increment (inds : list nat) (a : list nat) : list nat :=
  map (fun ix => if existsb (Nat.eqb (fst ix)) inds then S (snd ix) else snd ix)
    (combine (seq 0 (length a)) a).

(** [np.min] of the class counts; the minimum of nothing raises. *)
Definition np_min (a : list nat) : result nat :=
  match a with
  | [] => Raise ValueError
  | x :: rest => Ok (fold_right Nat.min x rest)
  end.

(** [a.take(indices, mode="clip")] *)
Definition take_clip (indices : list nat) (a : list nat) : list nat :=
  map (fun i => nth (Nat.min i (length a - 1)) a 0) indices.

Section Splitting.

Context {rng : Type} `{RandomStateOps rng}.

(** The loop of [_approximate_mode] over the distinct remainders,
    largest first; ties inside one remainder are broken by the
    generator. *)
Fixpoint add_by_remainder (remainder values floored : list nat) (need_to_add : nat)
  : M rng (list nat) :=
  match values with
  | [] => ret floored
  | value :: rest =>
      let inds := flatnonzero (Nat.eqb value) remainder in
      let add_now := Nat.min (length inds) need_to_add in
      chosen <- draw (choice inds add_now) ;;
      let floored' := increment chosen floored in
      let need_to_add' := need_to_add - add_now in
      if need_to_add' =? 0 then ret floored'
      else add_by_remainder remainder rest floored' need_to_add'
  end.

(** [_approximate_mode(class_counts, n_draws, rng)], in exact
    arithmetic: the share [c * n_draws / total] of a class is the
    fraction with numerator [c * n_draws]; its floor is the quotient and
    its fractional part is compared through the remainder. *)
Definition _approximate_mode (class_counts : list nat) (n_draws : nat)
  : M rng (list nat) :=
  let total := list_sum class_counts in
  let continuous := map (fun c => c * n_draws) class_counts in
  let floored := map (fun x => x / total) continuous in
  let need_to_add := n_draws - list_sum floored in
  if 0 <? need_to_add then
    let remainder := map (fun x => x mod total) continuous in
    add_by_remainder remainder (unique_desc remainder) floored need_to_add
  else ret floored.

(** The per-class loop of [StratifiedShuffleSplit._iter_indices]. *)
Fixpoint split_classes (class_indices : list (list nat)) (n_i t_i : list nat)
  : M rng (list nat * list nat) :=
  match class_indices, n_i, t_i with
  | idx :: class_indices', n :: n_i', t :: t_i' =>
      perm <- draw (permutation (seq 0 (length idx))) ;;
      let perm_indices_class_i := take_clip perm idx in
      rest <- split_classes class_indices' n_i' t_i' ;;
      ret (firstn n perm_indices_class_i ++ fst rest,
           firstn t (skipn n perm_indices_class_i) ++ snd rest)
  | _, _, _ => ret ([], [])
  end.

(** [next(StratifiedShuffleSplit(test_size=n_test, train_size=n_train,
    random_state=..).split(X, y))] *)
Definition StratifiedShuffleSplit (y : list scalar) (n_test n_train : nat)
    (random_state : option nat) : M rng (list nat * list nat) :=
  sizes <- lift (_validate_shuffle_split_int (length y) n_test n_train) ;;
  let n_train := fst sizes in
  let n_test := snd sizes in
  classes <- lift (np_unique y) ;;
  let n_classes := length classes in
  let class_counts := map (fun c => count_scalar c y) classes in
  least <- lift (np_min class_counts) ;;
  if least <? 2 then raise ValueError
  else if n_train <? n_classes then raise ValueError
  else if n_test <? n_classes then raise ValueError
  else
    let class_indices :=
      map (fun c => flatnonzero (fun v => scalar_eqb v c) y) classes in
    with_random_state random_state
      (n_i <- _approximate_mode class_counts n_train ;;
       let class_counts_remaining :=
         map (fun p => fst p - snd p) (combine class_counts n_i) in
       t_i <- _approximate_mode class_counts_remaining n_test ;;
       parts <- split_classes class_indices n_i t_i ;;
       train <- draw (permutation (fst parts)) ;;
       test <- draw (permutation (snd parts)) ;;
       ret (train, test)).

Record Split : Type := {
  X_train : DataFrame;
  X_test : DataFrame;
  y_train : list scalar;
  y_test : list scalar
}.

Definition train_test_split (X : DataFrame) (y : Series) (test_size : nat * nat)
    (random_state : option nat) : M rng Split :=
  if negb (shape0 X =? Series_len y) then raise ValueError
  else
    sizes <- lift (_validate_shuffle_split (shape0 X) test_size) ;;
    labels <- lift (check_array_y y) ;;
    parts <- StratifiedShuffleSplit labels (snd sizes) (fst sizes) random_state ;;
    Xtr <- lift (DataFrame_take (fst parts) X) ;;
    Xte <- lift (DataFrame_take (snd parts) X) ;;
    ytr <- lift (take (fst parts) labels) ;;
    yte <- lift (take (snd parts) labels) ;;
    ret {| X_train := Xtr; X_test := Xte; y_train := ytr; y_test := yte |}.

(** Notebook cell 5, the split. *)
Definition split (balanced_data : DataFrame) : M rng Split :=
  X <- lift (drop class_column balanced_data) ;;
  y <- lift (getitem class_column balanced_data) ;;
  train_test_split X y test_size (Some 42).

End Splitting.

(** ** Standardizer: [StandardScaler] *)

(** Float arithmetic on finite-or-not values: NaN propagates, and a
    division by zero gives an infinity or NaN. *)
Definition float_sub (a b : option R) : option R :=
  match a, b with
  | Some x, Some y => Some (x - y)%R
  | _, _ => None
  end.

Definition float_div (a b : option R) : option R :=
  match a, b with
  | Some x, Some y => if Req_EM_T y 0 then None else Some (x / y)%R
  | _, _ => None
  end.

(** A 2-D float array, stored by column. *)
Record ndarray : Type := {
  n_rows : nat;
  array_columns : list (list (option R))
}.

Fixpoint to_float (v : list (option scalar)) : result (list (option R)) :=
  match v with
  | [] => Ok []
  | None :: rest => result_map (cons None) (to_float rest)
  | Some (Flt x) :: rest => result_map (cons (Some x)) (to_float rest)
  | Some (Str _) :: rest => Raise ValueError
  end.

(** [check_array(X, dtype=float, force_all_finite="allow-nan")]: NaN
    passes; a string that is not a number is a [ValueError]. *)
Definition check_array (X : DataFrame) : result ndarray :=
  result_map (Build_ndarray (shape0 X))
    (result_all (map (fun c => match snd c with
                               | Float64 v => Ok v
                               | Object v => to_float v
                               end) (cols X))).

(** [np.nanvar]: the mean squared deviation of the values present. *)
Definition nanvar (v : list (option R)) : option R :=
  match nanmean v with
  | None => None
  | Some m =>
      let xs := dropna v in
      Some (Rsum (map (fun x => (x - m) * (x - m)) xs) / INR (length xs))%R
  end.

(** [np.nanstd] *)
Definition nanstd (v : list (option R)) : option R :=
  option_map sqrt (nanvar v).

(** [np.finfo(np.float64).eps], the machine epsilon [2^-52]. *)
Definition eps : R := (/ 2 ^ 52)%R.

(** [_is_constant_feature(var, mean, n_samples)]: the feature is taken
    for constant when its variance is within the error bound of the
    variance computation,
    [var <= n_samples * eps * var + (n_samples * mean * eps) ** 2].
    A comparison with NaN is false. *)
Definition _is_constant_feature (var mean : option R) (n_samples : nat) : bool :=
  match var, mean with
  | Some v, Some m =>
      let upper_bound :=
        (INR n_samples * eps * v + (INR n_samples * m * eps) ^ 2)%R in
      if Rle_dec v upper_bound then true else false
  | _, _ => false
  end.

(** [_handle_zeros_in_scale(scale, copy=False, constant_mask)], with
    [mask] for the argument [constant_mask]:
    [scale[constant_mask] = 1.0]. *)
Definition _handle_zeros_in_scale (scale : option R) (mask : bool) : option R :=
  if mask then Some 1%R else scale.

(** [partial_fit] on one column of the training matrix.
    [n_samples_seen_] counts the values present, and
    [constant_mask = _is_constant_feature(var_, mean_, n_samples_seen_)]. *)
Definition constant_mask (v : list (option R)) : bool :=
  _is_constant_feature (nanvar v) (nanmean v) (length (dropna v)).

(** [scale_ = _handle_zeros_in_scale(np.sqrt(var_), constant_mask)] *)
Definition column_scale (v : list (option R)) : option R :=
  _handle_zeros_in_scale (nanstd v) (constant_mask v).

Record StandardScaler : Type := {
  n_features_in_ : nat;
  mean_ : list (option R);
  var_ : list (option R);
  scale_ : list (option R)
}.

(** [scaler.fit(X)] *)
Definition fit (X : DataFrame) : result StandardScaler :=
  result_map
    (fun a =>
       {| n_features_in_ := length (array_columns a);
          mean_ := map nanmean (array_columns a);
          var_ := map nanvar (array_columns a);
          scale_ := map column_scale (array_columns a) |})
    (check_array X).

(** One column of [transform]: [(x - mean) / scale]. *)
Definition standardize (mean scale : option R) (v : list (option R)) : list (option R) :=
  map (fun x => float_div (float_sub x mean) scale) v.

(** [scaler.transform(X)]: [X -= mean_; X /= scale_], column by column;
    a matrix with another number of features is rejected. *)
Definition transform (scaler : StandardScaler) (X : DataFrame) : result ndarray :=
  result_bind (check_array X) (fun a =>
    if length (array_columns a) =? n_features_in_ scaler then
      Ok {| n_rows := n_rows a;
            array_columns :=
              map (fun cms => standardize (fst (snd cms)) (snd (snd cms)) (fst cms))
                (combine (array_columns a) (combine (mean_ scaler) (scale_ scaler))) |}
    else Raise ValueError).

(** Notebook cell 5, the scaling:
    [X_train_scaled = scaler.fit_transform(X_train)],
    [X_test_scaled = scaler.transform(X_test)]. *)
Definition scaled (X_train X_test : DataFrame) : result (StandardScaler * ndarray * ndarray) :=
  result_bind (fit X_train) (fun scaler =>
  result_bind (transform scaler X_train) (fun X_train_scaled =>
  result_bind (transform scaler X_test) (fun X_test_scaled =>
  Ok (scaler, X_train_scaled, X_test_scaled)))).

(** ** Feature selector: [corr()] and the 0.5 filter *)

(** The rows in which both columns are present. *)
Definition pairwise_complete (x y : list (option R)) : list (R * R) :=
  flat_map (fun p => match p with
                     | (Some a, Some b) => [(a, b)]
                     | _ => []
                     end) (combine x y).

(** One entry of [DataFrame.corr()] (Pearson, [min_periods=1]): NaN
    when no row is complete or when the divisor is zero.  The final
    clip to [-1, 1] of pandas only absorbs float rounding and is the
    identity on exact values. *)
Definition pearson (x y : list (option R)) : option R :=
  let obs := pairwise_complete x y in
  match obs with
  | [] => None
  | _ =>
      let nobs := INR (length obs) in
      let meanx := (Rsum (map fst obs) / nobs)%R in
      let meany := (Rsum (map snd obs) / nobs)%R in
      let ssqdm_x := Rsum (map (fun p => (fst p - meanx) * (fst p - meanx))%R obs) in
      let ssqdm_y := Rsum (map (fun p => (snd p - meany) * (snd p - meany))%R obs) in
      let covxy := Rsum (map (fun p => (fst p - meanx) * (snd p - meany))%R obs) in
      let divisor := sqrt (ssqdm_x * ssqdm_y) in
      if Req_EM_T divisor 0 then None else Some (covxy / divisor)%R
  end.

(** [pd.DataFrame(array, columns=names)] *)
Definition DataFrame_of (a : ndarray) (names : list string) : result DataFrame :=
  if length names =? length (array_columns a) then
    Ok {| shape0 := n_rows a;
          cols := combine names (map Float64 (array_columns a)) |}
  else Raise ValueError.

Definition numeric_columns (df : DataFrame) : list (string * list (option R)) :=
  flat_map (fun c => match snd c with
                     | Float64 v => [(fst c, v)]
                     | Object _ => []
                     end) (cols df).

(** [df.corr()]: column [j] of the matrix holds the correlation of
    every numeric column with column [j]. *)
Definition corr (df : DataFrame) : list (string * list (option R)) :=
  let num := numeric_columns df in
  map (fun cj => (fst cj, map (fun ci => pearson (snd ci) (snd cj)) num)) num.

(** [Series.max()]: NaN is skipped; the maximum of nothing is NaN. *)
Definition nanmax (v : list (option R)) : option R :=
  match dropna v with
  | [] => None
  | x :: xs => Some (fold_right Rmax x xs)
  end.

(** [value > threshold]; NaN compares false. *)
Definition float_gt (a : option R) (threshold : R) : bool :=
  match a with
  | Some x => if Rlt_dec threshold x then true else false
  | None => false
  end.

(** [df[keys]] with a list of column names. *)
Definition getitems (keys : list string) (df : DataFrame) : result DataFrame :=
  result_map (Build_DataFrame (shape0 df))
    (result_all (map (fun k => result_map (pair k) (getitem k df)) keys)).

(** [correlation_matrix.columns[correlation_matrix.abs().max() > 0.5]] *)
Definition relevant_features (correlation_matrix : list (string * list (option R)))
  : list string :=
  compress
    (map (fun c => float_gt (nanmax (map (option_map Rabs) (snd c))) (1 / 2)%R)
       correlation_matrix)
    (map fst correlation_matrix).

Record Selection : Type := {
  selected : list string;
  X_train_relevant : DataFrame;
  X_test_relevant : DataFrame
}.

(** Notebook cell 6. *)
Definition select_features (X_columns : list string) (X_train_scaled X_test_scaled : ndarray)
  : result Selection :=
  result_bind (DataFrame_of X_train_scaled X_columns) (fun train_frame =>
  let correlation_matrix := corr train_frame in
  let relevant := relevant_features correlation_matrix in
  result_bind (getitems relevant train_frame) (fun train_relevant =>
  result_bind (DataFrame_of X_test_scaled X_columns) (fun test_frame =>
  result_bind (getitems relevant test_frame) (fun test_relevant =>
  Ok {| selected := relevant;
        X_train_relevant := train_relevant;
        X_test_relevant := test_relevant |})))).

(** ** Model search: [GridSearchCV(SVC(..), param_grid, cv=5)] *)

(** One combination of hyperparameters, as [ParameterGrid] yields it. *)
Definition params : Type := list (string * R).

Fixpoint insert_item (p : string * list R) (l : list (string * list R))
  : list (string * list R) :=
  match l with
  | [] => [p]
  | q :: rest => if String.ltb (fst q) (fst p) then q :: insert_item p rest
                 else p :: q :: rest
  end.

(** [sorted(param_grid.items())] *)
Definition sorted_items (param_grid : list (string * list R)) : list (string * list R) :=
  fold_right insert_item [] param_grid.

(** [itertools.product] over the value lists: the first key varies
    slowest. *)
Fixpoint product (items : list (string * list R)) : list params :=
  match items with
  | [] => [[]]
  | kv :: rest => flat_map (fun v => map (cons (fst kv, v)) (product rest)) (snd kv)
  end.

(** [list(ParameterGrid(param_grid))]; a parameter without candidate
    values is a [ValueError]. *)
Definition ParameterGrid (param_grid : list (string * list R)) : result (list params) :=
  if existsb (fun kv => match snd kv with [] => true | _ => false end) param_grid
  then Raise ValueError
  else Ok (product (sorted_items param_grid)).

Definition isnan {A : Type} (a : option A) : bool :=
  match a with
  | Some _ => false
  | None => true
  end.

(** [np.mean] of the fold scores: NaN as soon as one fold is NaN. *)
Definition np_mean (v : list (option R)) : option R :=
  if existsb isnan v then None
  else match v with
       | [] => None
       | _ => Some (Rsum (dropna v) / INR (length v))%R
       end.

Definition nanmin (v : list (option R)) : option R :=
  match dropna v with
  | [] => None
  | x :: xs => Some (fold_right Rmin x xs)
  end.

(** [rankdata(-a, method="min")]: one plus the number of larger
    entries. *)
Definition greater_than (x y : R) : bool := if Rlt_dec x y then true else false.

Definition rankdata_desc (a : list R) : list nat :=
  map (fun x => S (length (filter (greater_than x) a))) a.

(** The [rank_test_score] column: NaN means are ranked last (they are
    replaced by the smallest mean minus one); when every mean is NaN all
    ranks are 1. *)
Definition rank_test_score (means : list (option R)) : list nat :=
  match nanmin means with
  | None => map (fun _ => 1) means
  | Some least =>
      rankdata_desc (map (fun m => match m with
                                   | Some x => x
                                   | None => (least - 1)%R
                                   end) means)
  end.

(** [np.argmin]: the first position of the minimum. *)
Fixpoint argmin (l : list nat) : nat :=
  match l with
  | [] => 0
  | x :: rest =>
      match rest with
      | [] => 0
      | _ => if x <=? nth (argmin rest) rest 0 then 0 else S (argmin rest)
      end
  end.

Definition n_splits : nat := 5.

Record SearchResult : Type := {
  best_index_ : nat;
  best_params_ : params;
  best_score_ : option R
}.

Section ModelSearch.

(** The estimator and the scorer are external: [fit_and_score p k] is
    the validation accuracy of the estimator fitted with [p] on fold
    [k], or [None] when the fit raised ([error_score=np.nan]). *)
Variable fit_and_score : params -> nat -> option R.

(** The [mean_test_score] of one combination. *)
Definition cv_mean (p : params) : option R :=
  np_mean (map (fit_and_score p) (seq 0 n_splits)).

Definition GridSearchCV_fit (param_grid : list (string * list R)) : result SearchResult :=
  result_bind (ParameterGrid param_grid) (fun candidate_params =>
  let out := map (fun p => map (fit_and_score p) (seq 0 n_splits)) candidate_params in
  if forallb (forallb isnan) out then Raise ValueError
  else
    let mean_test_score := map np_mean out in
    let best := argmin (rank_test_score mean_test_score) in
    match nth_error candidate_params best, nth_error mean_test_score best with
    | Some p, Some s => Ok {| best_index_ := best; best_params_ := p; best_score_ := s |}
    | _, _ => Raise IndexError
    end).

End ModelSearch.

Definition param_grid_linear : list (string * list R) :=
  [("C"%string, [1 / 10; 1; 10; 100]%R)].

Definition param_grid_rbf : list (string * list R) :=
  [("C"%string, [1 / 10; 1; 10; 100]%R);
   ("gamma"%string, [1; 1 / 10; 1 / 100; 1 / 1000]%R)].

(** Notebook cell 7; the two SVC estimators are the black boxes. *)
Definition grid_search_linear (svc_linear : params -> nat -> option R) : result SearchResult :=
  GridSearchCV_fit svc_linear param_grid_linear.

Definition grid_search_rbf (svc_rbf : params -> nat -> option R) : result SearchResult :=
  GridSearchCV_fit svc_rbf param_grid_rbf.

(** ** The data-preparation pipeline, cells 3 to 5 *)

Definition prepare {rng : Type} `{RandomStateOps rng} (data : DataFrame)
  : M rng (DataFrame * Split) :=
  balanced <- balanced_data (data_cleaned data) ;;
  parts <- split balanced ;;
  ret (balanced, parts).

(** ** The summaries the notebook prints, cells 3 and 4 *)

(** [Series.isnull().sum()]: the number of missing entries. *)
Definition isnull_sum {A : Type} (v : list (option A)) : nat :=
  length (filter isnan v).

(** Notebook cell 3, [missing_values = data.isnull().sum()]: one count
    per column, in column order. *)
Definition missing_values (data : DataFrame) : list (string * nat) :=
  map (fun c => (fst c, match snd c with
                        | Float64 v => isnull_sum v
                        | Object v => isnull_sum v
                        end)) (cols data).

(** Notebook cell 4, [balanced_class_distribution =
    balanced_data[class_column].value_counts()]. *)
Definition balanced_class_distribution (balanced_data : DataFrame)
  : result (list (scalar * nat)) :=
  result_map value_counts (getitem class_column balanced_data).

(** ** Evaluation, cell 8: [accuracy_score] and [confusion_matrix]

    The predictions come out of the fitted estimator, which is a black
    box; the two metrics are functions of the label arrays [y_true] and
    [y_pred].  An array that holds only numbers is a numeric array, any
    other array is an object array. *)

(** What [type_of_target] tells apart on a 1-d array of labels. *)
Inductive target_type : Type :=
| binary
| multiclass
| continuous
| unknown.

Definition target_type_eqb (a b : target_type) : bool :=
  match a, b with
  | binary, binary | multiclass, multiclass
  | continuous, continuous | unknown, unknown => true
  | _, _ => false
  end.

Definition is_number (a : scalar) : bool :=
  match a with
  | Flt _ => true
  | Str _ => false
  end.

(** [x == x.astype(int)] *)
Definition is_integral (a : scalar) : bool :=
  match a with
  | Flt x => if Req_EM_T (IZR (Int_part x)) x then true else false
  | Str _ => false
  end.

Definition class_count_type (classes : list scalar) : target_type :=
  if 2 <? length classes then multiclass else binary.

(** [type_of_target(y)]: an empty array is binary; an object array
    whose first entry is not a string is unknown; a numeric array with
    a value that is not a whole number is continuous; otherwise the
    number of distinct values decides ([np.unique] raises on an array
    that mixes strings and numbers). *)
Definition type_of_target (y : list scalar) : result target_type :=
  match y with
  | [] => Ok binary
  | first :: _ =>
      if forallb is_number y then
        if forallb is_integral y then result_map class_count_type (np_unique y)
        else Ok continuous
      else if is_number first then Ok unknown
      else result_map class_count_type (np_unique y)
  end.

(** [_check_targets(y_true, y_pred)] *)
Definition _check_targets (y_true y_pred : list scalar) : result target_type :=
  if negb (length y_true =? length y_pred) then Raise ValueError
  else
    result_bind (type_of_target y_true) (fun type_true =>
    result_bind (type_of_target y_pred) (fun type_pred =>
    let y_type :=
      match type_true, type_pred with
      | binary, multiclass | multiclass, binary => Some multiclass
      | _, _ => if target_type_eqb type_true type_pred then Some type_true else None
      end in
    match y_type with
    | None => Raise ValueError
    | Some continuous | Some unknown => Raise ValueError
    | Some multiclass => Ok multiclass
    | Some binary =>
        match np_unique (y_true ++ y_pred) with
        | Ok unique_values => Ok (class_count_type unique_values)
        | Raise _ => Raise TypeError
        end
    end)).

(** [accuracy_score(y_true, y_pred)]: the mean of [y_true == y_pred];
    NaN on empty arrays. *)
Definition accuracy_score (y_true y_pred : list scalar) : result (option R) :=
  result_map
    (fun _ =>
       np_mean (map (fun tp => Some (if scalar_eqb (fst tp) (snd tp) then 1 else 0)%R)
                  (combine y_true y_pred)))
    (_check_targets y_true y_pred).

(** [unique_labels(y_true, y_pred)]: the sorted distinct labels of both
    arrays; strings and numbers together are rejected. *)
Definition unique_labels (y_true y_pred : list scalar) : result (list scalar) :=
  match np_unique (y_true ++ y_pred) with
  | Ok labels => Ok labels
  | Raise _ => Raise ValueError
  end.

(** [confusion_matrix(y_true, y_pred)]: entry [i, j] counts the samples
    of true label [labels[i]] predicted as [labels[j]]. *)
Definition confusion_matrix (y_true y_pred : list scalar) : result (list (list nat)) :=
  result_bind (_check_targets y_true y_pred) (fun _ =>
  result_bind (unique_labels y_true y_pred) (fun labels =>
  Ok (map (fun t =>
             map (fun p =>
                    length (filter (fun tp => scalar_eqb (fst tp) t
                                              && scalar_eqb (snd tp) p)
                              (combine y_true y_pred)))
               labels)
        labels))).

(** ** What is known about the generator *)

Class RandomStateLaws (rng : Type) `{RandomStateOps rng} : Prop := {
  randint_range : forall high size r,
    0 < high ->
    length (fst (randint high size r)) = size
    /\ Forall (fun i => i < high) (fst (randint high size r));
  permutation_Permutation : forall a r,
    Permutation a (fst (permutation a r));
  choice_without_replacement : forall a size r,
    size <= length a ->
    length (fst (choice a size r)) = size
    /\ exists rest, Permutation a (fst (choice a size r) ++ rest)
}.

(** A small deterministic generator that obeys the laws; the state is a
    counter. *)
#[export] Instance counter_generator : RandomStateOps nat := {
  RandomState := fun seed => seed;
  randint := fun high size r =>
    (map (fun i => (r + i) mod high) (seq 0 size), r + size);
  permutation := fun a r => (rev a, S r);
  choice := fun a size r => (firstn size a, S r)
}.

(** ** Vocabulary of the statements *)

(** The column is not constant: the variance of its present values is a
    number other than zero. *)
Definition nonconstant (v : list (option R)) : bool :=
  match nanvar v with
  | Some x => if Req_EM_T x 0 then false else true
  | None => false
  end.

(** The rows at the given positions, for positions inside the frame. *)
Definition gather {A : Type} (indices : list nat) (v : list (option A))
  : list (option A) :=
  map (fun i => nth i v None) indices.

Definition Series_gather (indices : list nat) (s : Series) : Series :=
  match s with
  | Float64 v => Float64 (gather indices v)
  | Object v => Object (gather indices v)
  end.

Definition DataFrame_gather (indices : list nat) (df : DataFrame) : DataFrame :=
  {| shape0 := length indices;
     cols := map (fun c => (fst c, Series_gather indices (snd c))) (cols df) |}.

(** [increment] written as a recursion over the array, from position
    [s] on. *)
Fixpoint increment_from (s : nat) (inds a : list nat) : list nat :=
  match a with
  | [] => []
  | x :: a' =>
      (if existsb (Nat.eqb s) inds then S x else x) :: increment_from (S s) inds a'
  end.

(** Strictly decreasing. *)
Definition decreasing (l : list nat) : Prop :=
  StronglySorted (fun a b => b < a) l.

(** The number of entries of [remainder] that are positive and among
    [values]: what the remaining rounds of the loop can still add. *)
Definition capacity (remainder values : list nat) : nat :=
  length (filter (fun x => negb (x =? 0) && existsb (Nat.eqb x) values) remainder).

(** How the per-class loop of the split cuts the positions of each
    class: [tr] and [te] together are the positions of the class, [n]
    of them in [tr] and [t] in [te]. *)
Inductive class_split
  : list (list nat) -> list nat -> list nat -> list (list nat) -> list (list nat) -> Prop :=
| class_split_nil : class_split [] [] [] [] []
| class_split_cons : forall idx ci n ns t ts tr trs te tes,
    Permutation (tr ++ te) idx ->
    length tr = n ->
    length te = t ->
    class_split ci ns ts trs tes ->
    class_split (idx :: ci) (n :: ns) (t :: ts) (tr :: trs) (te :: tes).

(** [X = df.drop(columns=[name])] when the column is there. *)
Definition features (name : string) (df : DataFrame) : DataFrame :=
  {| shape0 := shape0 df;
     cols := filter (fun c => negb (String.eqb (fst c) name)) (cols df) |}.

(** A balanced frame: rectangular, with a class column that has no
    missing label, holds labels of one type, and counts exactly [m]
    rows for each of the classes. *)
Definition uniform (df : DataFrame) (classes : list scalar) (m : nat) : Prop :=
  rectangular df
  /\ exists s labels,
      getitem class_column df = Ok s
      /\ check_array_y s = Ok labels
      /\ np_unique labels = Ok classes
      /\ classes <> []
      /\ forall c, In c classes -> count_scalar c labels = m.

(** What the proofs track of a frame on its way through the balancer:
    its shape, its column names and the entries of its class column. *)
Definition block (df : DataFrame) (names : list string) (rows : nat)
    (labels : list (option scalar)) : Prop :=
  rectangular df
  /\ columns df = names
  /\ shape0 df = rows
  /\ exists s, getitem class_column df = Ok s /\ items s = labels.

(** A computation that does not read the process-wide generator and
    leaves it as it was: its result is fixed in advance. *)
Definition seeded {rng A : Type} (c : M rng A) : Prop :=
  exists r, forall global, c global = (r, global).

(** [l1] is [l2] with some elements left out, the others in place. *)
Inductive subseq {A : Type} : list A -> list A -> Prop :=
| subseq_nil : forall l, subseq [] l
| subseq_skip : forall x l1 l2, subseq l1 l2 -> subseq l1 (x :: l2)
| subseq_keep : forall x l1 l2, subseq l1 l2 -> subseq (x :: l1) (x :: l2).

(** What imputation does to one column when the column names are
    distinct. *)
Definition imputed (c : string * Series) : string * Series :=
  (fst c, match snd c with
          | Float64 v => Float64 (fillna_values (nanmean v) v)
          | Object v => Object v
          end).

(** The frames made of rows of [data]. *)
Definition rows_of (data df : DataFrame) (indices : list nat) : Prop :=
  Forall (fun i => i < shape0 data) indices /\ df = DataFrame_gather indices data.

(** The order in which [sorted] puts the parameters. *)
Definition key_lt (a b : string * list R) : Prop :=
  String.ltb (fst a) (fst b) = true.


(** The number of positions at which the prediction is the true label. *)
Definition matches (y_true y_pred : list scalar) : nat :=
  length (filter (fun tp => scalar_eqb (fst tp) (snd tp)) (combine y_true y_pred)).

(** The sum of the diagonal of a matrix of counts. *)
Definition trace (m : list (list nat)) : nat :=
  list_sum (map (fun i => nth i (nth i m []) 0) (seq 0 (length m))).

(** Column [j] of a matrix given by rows. *)
Definition column (j : nat) (m : list (list nat)) : list nat :=
  map (fun row => nth j row 0) m.

(** The entries of the confusion matrix, by labels. *)
Definition confusion_count (y_true y_pred : list scalar) (t p : scalar) : nat :=
  length (filter (fun tp => scalar_eqb (fst tp) t && scalar_eqb (snd tp) p)
            (combine y_true y_pred)).


(** ** Example inputs *)

(** One feature with the constant value 3 in two rows. *)
Definition constant_frame : DataFrame :=
  {| shape0 := 2;
     cols := [("sensor"%string, Float64 [Some 3%R; Some 3%R])] |}.

(** One feature with the values 0 and 2. *)
Definition spread_frame : DataFrame :=
  {| shape0 := 2;
     cols := [("sensor"%string, Float64 [Some 0%R; Some 2%R])] |}.

(** Two rows of two features: one with the constant value 3, one
    without any value. *)
Definition degenerate_frame : DataFrame :=
  {| shape0 := 2;
     cols := [("sensor"%string, Float64 [Some 3%R; Some 3%R]);
              ("spare"%string, Float64 [None; None])] |}.

(** One row with the value 3. *)
Definition shifted_frame : DataFrame :=
  {| shape0 := 1;
     cols := [("sensor"%string, Float64 [Some 3%R])] |}.

(** Five rows, two classes tied for the majority: labels a, a, b, b,
    c. *)
Definition tied_frame : DataFrame :=
  {| shape0 := 5;
     cols :=
       [("sensor"%string,
         Float64 [Some 1%R; Some 2%R; Some 3%R; Some 4%R; Some 5%R]);
        (class_column,
         Object [Some (Str "a"); Some (Str "a"); Some (Str "b"); Some (Str "b");
                 Some (Str "c")])] |}.

(** Ten rows, five of class a and five of class b, one feature. *)
Definition ten_rows : DataFrame :=
  {| shape0 := 10;
     cols :=
       [("sensor"%string,
         Float64 [Some 1%R; Some 2%R; Some 3%R; Some 4%R; Some 5%R;
                  Some 6%R; Some 7%R; Some 8%R; Some 9%R; Some 10%R]);
        (class_column,
         Object [Some (Str "a"); Some (Str "b"); Some (Str "a"); Some (Str "b");
                 Some (Str "a"); Some (Str "b"); Some (Str "a"); Some (Str "b");
                 Some (Str "a"); Some (Str "b")])] |}.



(** Three rows with a missing reading in the numeric column. *)
Definition gappy_frame : DataFrame :=
  {| shape0 := 3;
     cols :=
       [("sensor"%string, Float64 [Some 1%R; None; Some 3%R]);
        (class_column, Object [Some (Str "a"); None; Some (Str "b")])] |}.

(** A scaled matrix of two features, the second one constant. *)
Definition two_features : ndarray :=
  {| n_rows := 2;
     array_columns := [[Some (-1)%R; Some 1%R]; [Some 0%R; Some 0%R]] |}.

(** A frame of two rows whose only feature is already standardized. *)
Definition standard_frame : DataFrame :=
  {| shape0 := 2;
     cols := [("sensor"%string, Float64 [Some (-1)%R; Some 1%R])] |}.

(** Six rows: five of class a and a single row of class c. *)
Definition lone_frame : DataFrame :=
  {| shape0 := 6;
     cols :=
       [("sensor"%string,
         Float64 [Some 1%R; Some 2%R; Some 3%R; Some 4%R; Some 5%R; Some 6%R]);
        (class_column,
         Object [Some (Str "a"); Some (Str "a"); Some (Str "a"); Some (Str "a");
                 Some (Str "a"); Some (Str "c")])] |}.

(** * Proofs *)

(** ** Lists, masks and positional selection *)

Lemma Forall2_map_self {A B : Type} (P : A -> B -> Prop) (f : A -> B) (l : list A) :
  Forall (fun x => P x (f x)) l -> Forall2 P l (map f l).
Proof.
  induction 1; simpl; constructor; assumption.
Qed.

Lemma hasnans_false_In {A : Type} (v : list (option A)) :
  hasnans v = false <-> ~ In None v.
Proof.
  unfold hasnans. induction v as [|[x|] v IH]; simpl.
  - split; [intros _ []|reflexivity].
  - rewrite IH. split.
    + intros Hn [Hc|Hc]; [discriminate|contradiction].
    + intros Hn Hc. apply Hn. now right.
  - split; [discriminate|]. intros Hn. exfalso. apply Hn. now left.
Qed.

Lemma fillna_values_no_nan {A : Type} (x : A) (v : list (option A)) :
  hasnans (fillna_values (Some x) v) = false.
Proof.
  unfold hasnans. simpl. induction v as [|[y|] v IH]; simpl; auto.
Qed.

Lemma fillna_values_clean {A : Type} (m : option A) (v : list (option A)) :
  hasnans v = false -> fillna_values m v = v.
Proof.
  destruct m as [x|]; [|reflexivity]. unfold hasnans. simpl.
  induction v as [|[y|] v IH]; simpl; intros Hv; try discriminate; auto.
  now rewrite IH.
Qed.

Lemma fillna_values_pointwise {A : Type} (x : A) (v : list (option A)) :
  Forall2 (fun c c' => c' = Some (match c with Some y => y | None => x end))
    v (fillna_values (Some x) v).
Proof.
  simpl. apply Forall2_map_self. apply Forall_forall. intros [y|] _; reflexivity.
Qed.

(** ** Imputer *)

Lemma lookup_not_in {A : Type} (name : string) (l : list (string * A)) :
  ~ In name (map fst l) -> lookup name l = None.
Proof.
  induction l as [|[n a] l IH]; simpl; intros Hn; [reflexivity|].
  destruct (String.eqb_spec n name) as [->|Hne].
  - exfalso. apply Hn. now left.
  - apply IH. intros Hin. apply Hn. now right.
Qed.

Lemma mean_numeric_only_names (l : list (string * Series)) (name : string) :
  In name (map fst (flat_map (fun c => match snd c with
                                       | Float64 v => [(fst c, nanmean v)]
                                       | Object _ => []
                                       end) l)) ->
  In name (map fst l).
Proof.
  induction l as [|[n s] l IH]; simpl; [tauto|].
  destruct s; simpl; intuition.
Qed.

(** With distinct column names, the mean looked up for a column is the
    mean of that very column, and a non-numeric column has none. *)
Lemma lookup_mean_numeric_only (df : DataFrame) (c : string * Series) :
  NoDup (columns df) ->
  In c (cols df) ->
  lookup (fst c) (mean_numeric_only df) =
  match snd c with
  | Float64 v => Some (nanmean v)
  | Object _ => None
  end.
Proof.
  unfold columns, mean_numeric_only. destruct df as [n l]. simpl.
  induction l as [|[n0 s0] l IH]; simpl; intros Hnd Hin; [contradiction|].
  inversion Hnd as [|? ? Hnotin Hnd']; subst.
  destruct Hin as [<-|Hin]; simpl.
  - destruct s0; simpl.
    + now rewrite String.eqb_refl.
    + apply lookup_not_in. intros Hc. apply Hnotin.
      now apply mean_numeric_only_names in Hc.
  - assert (Hne : n0 <> fst c).
    { intros ->. apply Hnotin. now apply in_map. }
    destruct s0; simpl.
    + destruct (String.eqb_spec n0 (fst c)); [contradiction|]. now apply IH.
    + now apply IH.
Qed.

Lemma nanmean_present (v : list (option R)) :
  dropna v <> [] ->
  nanmean v = Some (Rsum (dropna v) / INR (length (dropna v)))%R.
Proof.
  unfold nanmean. destruct (dropna v); [congruence|reflexivity].
Qed.

(** C8.  Imputation, [data.fillna(data.mean(numeric_only=True))], on a
    frame with distinct column names in which every numeric column has
    a value present: the result has the same rows and the same columns
    in the same order; a non-numeric column is returned as it is; in a
    numeric column every present entry is kept and every missing entry
    becomes the mean of the present entries of that column, so no
    numeric column has a missing entry afterwards; a numeric column
    without missing entries is returned as it is, with the same mean.
    The result is a new frame: [data] is an immutable value here, as
    [fillna] without [inplace] leaves its receiver alone. *)
Theorem data_cleaned_imputes_column_means (data : DataFrame) :
  NoDup (columns data) ->
  (forall name v, In (name, Float64 v) (cols data) -> dropna v <> []) ->
  shape0 (data_cleaned data) = shape0 data
  /\ Forall2
       (fun c c' =>
          fst c' = fst c
          /\ match snd c with
             | Object v => snd c' = Object v
             | Float64 v =>
                 exists v',
                 snd c' = Float64 v'
                 /\ Forall2
                      (fun x x' =>
                         x' = Some (match x with
                                    | Some y => y
                                    | None => (Rsum (dropna v) / INR (length (dropna v)))%R
                                    end)) v v'
                 /\ hasnans v' = false
                 /\ (hasnans v = false -> v' = v /\ nanmean v' = nanmean v)
             end)
       (cols data) (cols (data_cleaned data)).
Proof.
  intros Hnd Hpresent. split; [reflexivity|].
  unfold data_cleaned, fillna. simpl.
  apply Forall2_map_self. apply Forall_forall. intros [name s] Hin.
  rewrite (lookup_mean_numeric_only data (name, s) Hnd Hin). simpl.
  destruct s as [v|v]; simpl.
  - split; [reflexivity|].
    rewrite (nanmean_present v (Hpresent name v Hin)).
    eexists. split; [reflexivity|]. split; [apply fillna_values_pointwise|].
    split; [apply fillna_values_no_nan|].
    intros Hclean. rewrite (fillna_values_clean _ v Hclean).
    split; [reflexivity|]. apply nanmean_present. now apply (Hpresent name).
  - split; reflexivity.
Qed.

(** ** Sums of reals *)

Section RealSums.

Local Open Scope R_scope.

Lemma Rsum_app (a b : list R) : Rsum (a ++ b) = (Rsum a + Rsum b)%R.
Proof.
  unfold Rsum. induction a as [|x a IH]; simpl; [lra|]. rewrite IH. lra.
Qed.

Lemma Rsum_squares_nonneg {A : Type} (f : A -> R) (l : list A) :
  (0 <= Rsum (map (fun a => f a * f a) l))%R.
Proof.
  unfold Rsum. induction l as [|a l IH]; simpl; [lra|]. nra.
Qed.

Lemma Rsum_squares_zero {A : Type} (f : A -> R) (l : list A) :
  Rsum (map (fun a => f a * f a) l) = 0%R -> forall a, In a l -> f a = 0%R.
Proof.
  induction l as [|b l IH]; simpl; intros Hs a Hin; [contradiction|].
  pose proof (Rsum_squares_nonneg f l) as Hl. unfold Rsum in *. simpl in Hs.
  destruct Hin as [->|Hin].
  - nra.
  - apply IH; [nra|assumption].
Qed.

Lemma Rsum_map_const {A : Type} (f : A -> R) (c : R) (l : list A) :
  (forall a, In a l -> f a = c) -> Rsum (map f l) = (INR (length l) * c)%R.
Proof.
  induction l as [|b l IH]; intros Hc.
  - simpl. lra.
  - change (Rsum (map f (b :: l))) with (f b + Rsum (map f l))%R.
    rewrite IH by (intros; apply Hc; now right).
    rewrite (Hc b) by now left.
    change (length (b :: l)) with (S (length l)). rewrite S_INR. lra.
Qed.

Lemma INR_length_pos {A : Type} (x : A) (l : list A) : (0 < INR (length (x :: l)))%R.
Proof. apply lt_0_INR. simpl. lia. Qed.

(** ** Feature selector *)

Lemma pairwise_complete_self (y : list (option R)) :
  pairwise_complete y y = map (fun a => (a, a)) (dropna y).
Proof.
  unfold pairwise_complete, dropna. induction y as [|[a|] y IH]; simpl; auto.
  now rewrite IH.
Qed.

Lemma pairwise_complete_snd (x y : list (option R)) (p : R * R) :
  In p (pairwise_complete x y) -> In (snd p) (dropna y).
Proof.
  unfold pairwise_complete, dropna. revert y.
  induction x as [|a x IH]; intros [|b y]; simpl; try contradiction.
  destruct a as [a|], b as [b|]; simpl; intros Hin.
  - destruct Hin as [<-|Hin]; [now left|right; now apply IH].
  - now apply IH.
  - right. now apply IH.
  - now apply IH.
Qed.

(** A constant column has all its present values equal to its mean. *)
Lemma constant_values (y : list (option R)) (m : R) :
  nanmean y = Some m -> nanvar y = Some 0%R ->
  forall b, In b (dropna y) -> b = m.
Proof.
  unfold nanvar. intros Hm. rewrite Hm. intros Hv b Hin.
  injection Hv as Hv.
  destruct (dropna y) as [|b0 l] eqn:E; [contradiction|].
  pose proof (INR_length_pos b0 l) as Hpos.
  assert (Hs : Rsum (map (fun x => (x - m) * (x - m))%R (b0 :: l)) = 0%R).
  { apply Rmult_eq_reg_r with (r := (/ INR (length (b0 :: l)))%R).
    - unfold Rdiv in Hv. rewrite Hv. lra.
    - apply Rinv_neq_0_compat. lra. }
  pose proof (Rsum_squares_zero (fun x => (x - m)%R) (b0 :: l) Hs b Hin). simpl in *. lra.
Qed.

Lemma nonconstant_false (y : list (option R)) :
  nonconstant y = false ->
  dropna y = [] \/ exists m, forall b, In b (dropna y) -> b = m.
Proof.
  unfold nonconstant. destruct (nanvar y) as [v|] eqn:Ev.
  - destruct (Req_EM_T v 0) as [->|]; [|discriminate]. intros _. right.
    unfold nanvar in Ev. destruct (nanmean y) as [m|] eqn:Em; [|discriminate].
    exists m. apply constant_values; [assumption|].
    unfold nanvar. now rewrite Em.
  - intros _. left. unfold nanvar, nanmean in Ev.
    destruct (dropna y); [reflexivity|discriminate].
Qed.

(** Lemma A: nothing correlates with a constant column. *)
Lemma pearson_constant (x y : list (option R)) :
  nonconstant y = false -> pearson x y = None.
Proof.
  intros Hy. unfold pearson.
  destruct (pairwise_complete x y) as [|p obs] eqn:E; [reflexivity|].
  destruct (nonconstant_false y Hy) as [Hnil|[m Hm]].
  - pose proof (pairwise_complete_snd x y p) as Hp. rewrite E, Hnil in Hp.
    exfalso. apply Hp. now left.
  - assert (Hall : forall q, In q (p :: obs) -> snd q = m).
    { intros q Hq. apply Hm. apply (pairwise_complete_snd x y). now rewrite E. }
    pose proof (INR_length_pos p obs) as Hpos.
    rewrite (Rsum_map_const snd m (p :: obs) Hall).
    replace (INR (length (p :: obs)) * m / INR (length (p :: obs)))%R with m
      by (field; lra).
    rewrite (Rsum_map_const (fun q => (snd q - m) * (snd q - m))%R 0%R (p :: obs)).
    + rewrite !Rmult_0_r, sqrt_0. destruct (Req_EM_T 0 0); [reflexivity|lra].
    + intros q Hq. rewrite (Hall q Hq). lra.
Qed.

(** Lemma B: a column that is not constant has self-correlation 1. *)
Lemma pearson_self (y : list (option R)) :
  nonconstant y = true -> pearson y y = Some 1.
Proof.
  intros Hnc. unfold pearson. rewrite pairwise_complete_self.
  unfold nonconstant, nanvar, nanmean in Hnc.
  destruct (dropna y) as [|b l]; [discriminate|].
  set (xs := b :: l) in *.
  assert (Hpos : 0 < INR (length xs)) by apply INR_length_pos.
  change (map (fun a : R => (a, a)) xs)
    with ((b, b) :: map (fun a : R => (a, a)) l) at 1.
  cbv iota zeta.
  rewrite !map_map, length_map. simpl fst. simpl snd. rewrite map_id.
  set (m := Rsum xs / INR (length xs)) in *.
  set (S2 := Rsum (map (fun x => (x - m) * (x - m)) xs)) in *.
  assert (Hnn : 0 <= S2) by apply (Rsum_squares_nonneg (fun x => x - m)).
  destruct (Req_EM_T (S2 / INR (length xs)) 0) as [|Hne]; [discriminate|].
  assert (HS : S2 <> 0).
  { intros H0. apply Hne. rewrite H0. unfold Rdiv. lra. }
  rewrite sqrt_square by assumption.
  destruct (Req_EM_T S2 0); [contradiction|].
  f_equal. field. assumption.
Qed.

Lemma fold_Rmax_ge (l : list R) (a x : R) :
  In x (a :: l) -> x <= fold_right Rmax a l.
Proof.
  induction l as [|b l IH]; simpl; intros Hin.
  - destruct Hin as [->|[]]. lra.
  - destruct Hin as [->|[->|Hin]].
    + eapply Rle_trans; [apply IH; now left|apply Rmax_r].
    + apply Rmax_l.
    + eapply Rle_trans; [apply IH; now right|apply Rmax_r].
Qed.

Lemma nanmax_ge (v : list (option R)) (x : R) :
  In (Some x) v -> exists m, nanmax v = Some m /\ x <= m.
Proof.
  unfold nanmax. intros Hin.
  assert (Hd : In x (dropna v)).
  { unfold dropna. apply in_flat_map. exists (Some x). split; [assumption|now left]. }
  destruct (dropna v) as [|a l]; [contradiction|].
  eexists. split; [reflexivity|]. now apply fold_Rmax_ge.
Qed.

Lemma nanmax_all_nan (v : list (option R)) :
  (forall c, In c v -> c = None) -> nanmax v = None.
Proof.
  intros Hall. unfold nanmax.
  destruct (dropna v) as [|a l] eqn:E; [reflexivity|].
  assert (Hin : In a (dropna v)) by (rewrite E; now left).
  unfold dropna in Hin. apply in_flat_map in Hin. destruct Hin as [[c|] [Hc Hc']].
  - apply Hall in Hc. discriminate.
  - contradiction.
Qed.

End RealSums.

Lemma lookup_In {A : Type} (name : string) (l : list (string * A)) (a : A) :
  lookup name l = Some a -> In (name, a) l.
Proof.
  induction l as [|[n b] l IH]; simpl; [discriminate|].
  destruct (String.eqb_spec n name) as [->|Hne].
  - intros [= ->]. now left.
  - intros Hl. right. now apply IH.
Qed.

Lemma lookup_some {A : Type} (name : string) (l : list (string * A)) :
  In name (map fst l) -> exists a, lookup name l = Some a.
Proof.
  induction l as [|[n b] l IH]; simpl; [contradiction|].
  destruct (String.eqb_spec n name) as [->|Hne].
  - intros _. now exists b.
  - intros [Heq|Hin]; [contradiction|]. now apply IH.
Qed.

Lemma compress_subseq {A : Type} (mask : list bool) (l : list A) :
  subseq (compress mask l) l.
Proof.
  revert l. induction mask as [|b mask IH]; intros [|x l]; simpl;
    try apply subseq_nil.
  destruct b; [apply subseq_keep|apply subseq_skip]; apply IH.
Qed.

Lemma subseq_In {A : Type} (l1 l2 : list A) (x : A) :
  subseq l1 l2 -> In x l1 -> In x l2.
Proof.
  induction 1; simpl; intuition.
Qed.

Lemma compress_all_true {A : Type} (mask : list bool) (l : list A) :
  length mask = length l -> Forall (fun b => b = true) mask -> compress mask l = l.
Proof.
  revert l. induction mask as [|b mask IH]; intros [|x l]; simpl; try discriminate; auto.
  intros [= Hlen] Hall. inversion Hall; subst. now rewrite IH.
Qed.

Lemma numeric_columns_of (n : nat) (names : list string) (cs : list (list (option R))) :
  numeric_columns {| shape0 := n; cols := combine names (map Float64 cs) |}
  = combine names cs.
Proof.
  unfold numeric_columns. simpl. revert cs.
  induction names as [|k names IH]; intros [|c cs]; simpl; auto.
  now rewrite IH.
Qed.

Lemma map_fst_combine {A B : Type} (l : list A) (l' : list B) :
  length l = length l' -> map fst (combine l l') = l.
Proof.
  revert l'. induction l as [|a l IH]; intros [|b l']; simpl; try discriminate; auto.
  intros [= Hlen]. now rewrite IH.
Qed.

Lemma map_snd_combine {A B : Type} (l : list A) (l' : list B) :
  length l = length l' -> map snd (combine l l') = l'.
Proof.
  revert l'. induction l as [|a l IH]; intros [|b l']; simpl; try discriminate; auto.
  intros [= Hlen]. now rewrite IH.
Qed.

(** The entry of the 0.5 mask for one column of the frame. *)
Lemma mask_entry (num : list (string * list (option R))) (cj : string * list (option R)) :
  In cj num ->
  float_gt
    (nanmax (map (option_map Rabs) (map (fun ci => pearson (snd ci) (snd cj)) num)))
    (1 / 2)%R
  = nonconstant (snd cj).
Proof.
  intros Hin. destruct (nonconstant (snd cj)) eqn:Hnc.
  - destruct (nanmax_ge
                (map (option_map Rabs) (map (fun ci => pearson (snd ci) (snd cj)) num))
                1%R) as [m [Hm Hle]].
    { rewrite map_map. apply in_map_iff. exists cj. split; [|assumption].
      rewrite (pearson_self _ Hnc). simpl. now rewrite Rabs_R1. }
    rewrite Hm. simpl. destruct (Rlt_dec (1 / 2) m); [reflexivity|lra].
  - rewrite nanmax_all_nan; [reflexivity|].
    intros c Hc. rewrite map_map in Hc. apply in_map_iff in Hc.
    destruct Hc as [ci [<- _]]. now rewrite (pearson_constant _ _ Hnc).
Qed.

Lemma relevant_features_corr (df : DataFrame) :
  relevant_features (corr df)
  = compress (map (fun c => nonconstant (snd c)) (numeric_columns df))
      (map fst (numeric_columns df)).
Proof.
  unfold relevant_features, corr. rewrite !map_map. simpl. f_equal.
  apply map_ext_in. intros cj Hin. now apply mask_entry.
Qed.

Lemma relevant_features_of_matrix
    (a : ndarray) (names : list string) (df : DataFrame) :
  DataFrame_of a names = Ok df ->
  relevant_features (corr df) = compress (map nonconstant (array_columns a)) names.
Proof.
  unfold DataFrame_of.
  destruct (Nat.eqb_spec (length names) (length (array_columns a)))
    as [Hlen|]; [|discriminate].
  intros [= <-]. rewrite relevant_features_corr, numeric_columns_of.
  rewrite map_fst_combine by assumption.
  rewrite <- (map_map snd nonconstant). now rewrite map_snd_combine.
Qed.

Lemma result_all_ok {A B : Type} (f : A -> result B) (g : A -> B) (l : list A) :
  (forall a, In a l -> f a = Ok (g a)) -> result_all (map f l) = Ok (map g l).
Proof.
  induction l as [|a l IH]; simpl; intros Hf; [reflexivity|].
  rewrite (Hf a) by now left. simpl. rewrite IH by (intros; apply Hf; now right).
  reflexivity.
Qed.

(** Projecting a frame on names it has: the result has exactly these
    names, each with the column the frame holds under that name. *)
Lemma getitems_ok (keys : list string) (df : DataFrame) :
  (forall k, In k keys -> In k (columns df)) ->
  exists cs,
    getitems keys df = Ok {| shape0 := shape0 df; cols := cs |}
    /\ map fst cs = keys
    /\ (forall c, In c cs -> In c (cols df)).
Proof.
  intros Hkeys. unfold getitems.
  set (pick := fun k => match lookup k (cols df) with
                        | Some s => (k, s)
                        | None => (k, Float64 [])
                        end).
  rewrite (result_all_ok _ pick).
  - exists (map pick keys). split; [reflexivity|]. split.
    + rewrite map_map. rewrite <- (map_id keys) at 2. apply map_ext_in.
      intros k Hk. unfold pick.
      destruct (lookup k (cols df)); reflexivity.
    + intros c Hc. apply in_map_iff in Hc. destruct Hc as [k [<- Hk]].
      unfold pick. destruct (lookup_some k (cols df) (Hkeys k Hk)) as [s Hs].
      rewrite Hs. now apply lookup_In.
  - intros k Hk. unfold getitem, pick.
    destruct (lookup_some k (cols df) (Hkeys k Hk)) as [s Hs]. now rewrite Hs.
Qed.

(** C7.  Feature selection on a training and a test matrix that both
    have one column per name: it returns; the selected names are a
    subsequence of the input columns, in their original order; the
    selection and the projected training frame do not depend on the
    test matrix; the test frame is projected on the very same names,
    each selected name carrying the test column of that name.  The
    selection is a function of its arguments, so running it again on
    the same input gives the same selection. *)
Theorem select_features_subsequence_of_training_columns
    (X_columns : list string) (X_train_scaled X_test_scaled : ndarray) :
  length X_columns = length (array_columns X_train_scaled) ->
  length X_columns = length (array_columns X_test_scaled) ->
  exists sel,
    select_features X_columns X_train_scaled X_test_scaled = Ok sel
    /\ subseq (selected sel) X_columns
    /\ columns (X_train_relevant sel) = selected sel
    /\ columns (X_test_relevant sel) = selected sel
    /\ (forall c, In c (cols (X_train_relevant sel)) ->
        In c (combine X_columns (map Float64 (array_columns X_train_scaled))))
    /\ (forall c, In c (cols (X_test_relevant sel)) ->
        In c (combine X_columns (map Float64 (array_columns X_test_scaled))))
    /\ (forall X_test_scaled' sel',
        select_features X_columns X_train_scaled X_test_scaled' = Ok sel' ->
        selected sel' = selected sel
        /\ X_train_relevant sel' = X_train_relevant sel).
Proof.
  intros Htrain Htest. unfold select_features.
  assert (Hof : forall a, length X_columns = length (array_columns a) ->
            DataFrame_of a X_columns
            = Ok {| shape0 := n_rows a;
                    cols := combine X_columns (map Float64 (array_columns a)) |}).
  { intros a Ha. unfold DataFrame_of. rewrite Ha, Nat.eqb_refl. reflexivity. }
  rewrite (Hof _ Htrain). simpl.
  set (train_frame := {| shape0 := n_rows X_train_scaled;
                         cols := combine X_columns
                                   (map Float64 (array_columns X_train_scaled)) |}).
  set (relevant := relevant_features (corr train_frame)).
  assert (Hsub : subseq relevant X_columns).
  { unfold relevant.
    unfold relevant, train_frame.
    rewrite (relevant_features_of_matrix _ _ _ (Hof _ Htrain)).
    apply compress_subseq. }
  assert (Hcols : forall a, length X_columns = length (array_columns a) ->
            forall k, In k relevant ->
            In k (columns {| shape0 := n_rows a;
                             cols := combine X_columns (map Float64 (array_columns a)) |})).
  { intros a Ha k Hk. unfold columns. simpl.
    rewrite map_fst_combine by now rewrite length_map.
    now apply (subseq_In _ _ _ Hsub). }
  destruct (getitems_ok relevant train_frame (Hcols _ Htrain))
    as [ctr [Hgtr [Hntr Hintr]]].
  rewrite Hgtr. simpl. rewrite (Hof _ Htest). simpl.
  destruct (getitems_ok relevant _ (Hcols _ Htest)) as [cte [Hgte [Hnte Hinte]]].
  rewrite Hgte. simpl. eexists. split; [reflexivity|]. simpl.
  repeat (split; [assumption|]).
  intros X_test_scaled' sel' Hsel'.
  destruct (DataFrame_of X_test_scaled' X_columns) as [tf|]; simpl in Hsel';
    [|discriminate].
  destruct (getitems relevant tf); simpl in Hsel'; [|discriminate].
  injection Hsel' as <-. split; reflexivity.
Qed.

(** ** Standardizer *)

Section Standardizer.

Local Open Scope R_scope.

Lemma dropna_standardize (m s : R) (v : list (option R)) :
  s <> 0 ->
  dropna (standardize (Some m) (Some s) v) = map (fun x => (x - m) / s) (dropna v).
Proof.
  intros Hs. unfold standardize, dropna.
  induction v as [|[x|] v IH]; simpl; auto.
  destruct (Req_EM_T s 0); [contradiction|]. simpl. now rewrite IH.
Qed.

Lemma Rsum_centered (m s : R) (xs : list R) :
  Rsum (map (fun x => (x - m) / s) xs) = (Rsum xs - INR (length xs) * m) / s.
Proof.
  induction xs as [|x xs IH].
  - simpl. unfold Rdiv. lra.
  - change (Rsum (map (fun x => (x - m) / s) (x :: xs)))
      with ((x - m) / s + Rsum (map (fun x => (x - m) / s) xs)).
    rewrite IH. change (Rsum (x :: xs)) with (x + Rsum xs).
    change (length (x :: xs)) with (S (length xs)). rewrite S_INR.
    unfold Rdiv. lra.
Qed.

Lemma Rsum_scaled_squares (m s : R) (xs : list R) :
  Rsum (map (fun y => (y - 0) * (y - 0)) (map (fun x => (x - m) / s) xs))
  = Rsum (map (fun x => (x - m) * (x - m)) xs) * (/ s * / s).
Proof.
  induction xs as [|x xs IH].
  - simpl. lra.
  - change (Rsum (map (fun y => (y - 0) * (y - 0)) (map (fun x => (x - m) / s) (x :: xs))))
      with (((x - m) / s - 0) * ((x - m) / s - 0)
            + Rsum (map (fun y => (y - 0) * (y - 0)) (map (fun x => (x - m) / s) xs))).
    rewrite IH.
    change (Rsum (map (fun x => (x - m) * (x - m)) (x :: xs)))
      with ((x - m) * (x - m) + Rsum (map (fun x => (x - m) * (x - m)) xs)).
    unfold Rdiv. lra.
Qed.

Lemma nanvar_nonneg (v : list (option R)) (x : R) :
  nanvar v = Some x -> 0 <= x.
Proof.
  unfold nanvar. destruct (nanmean v) as [m|] eqn:Em; [|discriminate].
  intros [= <-]. unfold nanmean in Em.
  destruct (dropna v) as [|x0 l]; [discriminate|].
  apply Rmult_le_pos.
  - apply (Rsum_squares_nonneg (fun y => y - m)).
  - left. apply Rinv_0_lt_compat. apply INR_length_pos.
Qed.

Lemma eps_pos : 0 < eps.
Proof. unfold eps. apply Rinv_0_lt_compat. apply pow_lt. lra. Qed.

Lemma eps_small : eps < / 4.
Proof.
  unfold eps. apply Rinv_lt_contravar.
  - apply Rmult_lt_0_compat; [lra|]. apply pow_lt. lra.
  - replace 4 with (2 ^ 2) by (simpl; lra).
    apply Rlt_pow; [lra|lia].
Qed.

(** A column of zero variance is taken for constant. *)
Lemma constant_mask_zero_variance (v : list (option R)) :
  nanvar v = Some 0 -> constant_mask v = true.
Proof.
  intros Hv. unfold constant_mask, _is_constant_feature. rewrite Hv.
  destruct (nanmean v) as [m|] eqn:Em.
  - destruct (Rle_dec _ _) as [|Hn]; [reflexivity|]. exfalso. apply Hn.
    rewrite Rmult_0_r, Rplus_0_l. apply pow2_ge_0.
  - unfold nanvar in Hv. rewrite Em in Hv. discriminate.
Qed.

Lemma column_scale_zero_variance (v : list (option R)) :
  nanvar v = Some 0 -> column_scale v = Some 1.
Proof.
  intros Hv. unfold column_scale. now rewrite (constant_mask_zero_variance v Hv).
Qed.

(** A column that is not taken for constant has a positive variance. *)
Lemma constant_mask_false (v : list (option R)) (x : R) :
  nanvar v = Some x -> constant_mask v = false -> 0 < x.
Proof.
  intros Hv Hmask. destruct (nanvar_nonneg v x Hv) as [Hlt|Heq]; [exact Hlt|].
  subst x. rewrite (constant_mask_zero_variance v Hv) in Hmask. discriminate.
Qed.

(** The mask on given statistics. *)
Lemma constant_mask_spec (v : list (option R)) (m x : R) :
  nanmean v = Some m ->
  nanvar v = Some x ->
  let n := INR (length (dropna v)) in
  constant_mask v = true <-> x <= n * eps * x + (n * m * eps) ^ 2.
Proof.
  intros Hm Hv n. unfold constant_mask, _is_constant_feature. rewrite Hm, Hv.
  fold n. destruct (Rle_dec _ _); split; intros; (assumption || reflexivity || discriminate || contradiction).
Qed.

(** The statistics of a standardized training column with a value
    present: the mean is 0; the standard deviation is 1, unless the
    scaler takes the column for constant, and then it is the standard
    deviation the column had. *)
Lemma standardized_column_statistics (v : list (option R)) :
  dropna v <> [] ->
  let v' := standardize (nanmean v) (column_scale v) v in
  nanmean v' = Some 0
  /\ nanstd v' = if constant_mask v then nanstd v else Some 1.
Proof.
  intros Hne. cbv zeta.
  destruct (dropna v) as [|x0 l] eqn:E; [congruence|].
  set (xs := x0 :: l) in *.
  set (n := INR (length xs)).
  assert (Hn : 0 < n) by apply INR_length_pos.
  set (m := Rsum xs / n).
  set (S2 := Rsum (map (fun x => (x - m) * (x - m)) xs)).
  assert (Hmv : nanmean v = Some m).
  { rewrite nanmean_present by (rewrite E; discriminate). now rewrite E. }
  assert (Hvv : nanvar v = Some (S2 / n)).
  { unfold nanvar. rewrite Hmv, E. reflexivity. }
  assert (Hstat : forall s, s <> 0 ->
            nanmean (standardize (Some m) (Some s) v) = Some 0
            /\ nanstd (standardize (Some m) (Some s) v)
               = Some (sqrt (S2 / n * (/ s * / s)))).
  { intros s Hs.
    assert (Hmean : nanmean (standardize (Some m) (Some s) v) = Some 0).
    { rewrite nanmean_present
        by (rewrite (dropna_standardize m s v Hs), E; discriminate).
      rewrite (dropna_standardize m s v Hs), E, length_map, Rsum_centered.
      fold n. f_equal. unfold m. field. split; lra. }
    split; [exact Hmean|]. unfold nanstd, nanvar. rewrite Hmean.
    simpl option_map. f_equal. f_equal.
    rewrite (dropna_standardize m s v Hs), E, length_map, Rsum_scaled_squares.
    fold S2. fold n. unfold Rdiv. lra. }
  unfold column_scale, _handle_zeros_in_scale.
  destruct (constant_mask v) eqn:Hmask.
  - rewrite Hmv. destruct (Hstat 1) as [Hm Hs]; [lra|]. split; [exact Hm|].
    rewrite Hs. unfold nanstd. rewrite Hvv. simpl. do 2 f_equal.
    rewrite Rinv_1. ring.
  - pose proof (constant_mask_false v _ Hvv Hmask) as Hvpos.
    assert (Hstd : nanstd v = Some (sqrt (S2 / n)))
      by (unfold nanstd; now rewrite Hvv).
    rewrite Hmv, Hstd.
    assert (Hsq : sqrt (S2 / n) <> 0).
    { apply Rgt_not_eq. now apply sqrt_lt_R0. }
    destruct (Hstat (sqrt (S2 / n)) Hsq) as [Hm Hs]. split; [exact Hm|].
    rewrite Hs. f_equal.
    replace (S2 / n * (/ sqrt (S2 / n) * / sqrt (S2 / n))) with 1.
    + apply sqrt_1.
    + rewrite <- Rinv_mult. rewrite sqrt_sqrt by lra.
      symmetry. apply Rinv_r. lra.
Qed.

(** A column without any value is transformed with the mean NaN and
    stays without values. *)
Lemma dropna_standardize_nan (scale : option R) (v : list (option R)) :
  dropna (standardize None scale v) = [].
Proof.
  unfold standardize, dropna. induction v as [|[x|] v IH]; simpl; auto.
Qed.

Lemma transform_columns (ca cb : list (list (option R))) :
  map (fun cms => standardize (fst (snd cms)) (snd (snd cms)) (fst cms))
    (combine cb (combine (map nanmean ca)
                   (map column_scale ca)))
  = map (fun tc => standardize (nanmean (fst tc))
                     (column_scale (fst tc)) (snd tc))
      (combine ca cb).
Proof.
  revert cb. induction ca as [|c ca IH]; intros [|d cb]; simpl; auto.
  now rewrite IH.
Qed.

Lemma combine_self {A : Type} (l : list A) : combine l l = map (fun x => (x, x)) l.
Proof. induction l; simpl; congruence. Qed.

(** What cell 5 computes, once both frames convert to float arrays
    with the same number of features: the parameters are the training
    statistics, and each test column is standardized with the
    parameters of the training column in the same position. *)
Lemma scaled_ok (X_train X_test : DataFrame) (a b : ndarray) :
  check_array X_train = Ok a ->
  check_array X_test = Ok b ->
  length (array_columns b) = length (array_columns a) ->
  scaled X_train X_test
  = Ok ({| n_features_in_ := length (array_columns a);
           mean_ := map nanmean (array_columns a);
           var_ := map nanvar (array_columns a);
           scale_ := map column_scale
                       (array_columns a) |},
        {| n_rows := n_rows a;
           array_columns :=
             map (fun c => standardize (nanmean c)
                             (column_scale c) c)
               (array_columns a) |},
        {| n_rows := n_rows b;
           array_columns :=
             map (fun tc => standardize (nanmean (fst tc))
                              (column_scale (fst tc)) (snd tc))
               (combine (array_columns a) (array_columns b)) |}).
Proof.
  intros Ha Hb Hlen. unfold scaled, fit, transform. rewrite Ha, Hb. simpl.
  rewrite Nat.eqb_refl, Hlen, Nat.eqb_refl. simpl.
  rewrite !transform_columns, combine_self, map_map. reflexivity.
Qed.

Lemma Forall2_map_combine {A B C : Type} (P : A * B -> C -> Prop) (f : A * B -> C)
    (l : list A) (l' : list B) :
  (forall p, In p (combine l l') -> P p (f p)) ->
  Forall2 P (combine l l') (map f (combine l l')).
Proof.
  intros Hp. apply Forall2_map_self. now apply Forall_forall.
Qed.

(** C6.  When cell 5 scales a training frame and a test frame, every
    training column of zero variance gets the scale 1 instead of a zero
    divisor; each present entry of that column becomes exactly 0 in the
    transformed training data, and each present entry of the test
    column in the same position becomes a finite number.  No NaN or
    infinity is produced by the division. *)
Theorem constant_feature_is_scaled_without_nan
    (X_train X_test : DataFrame) (a b : ndarray) :
  check_array X_train = Ok a ->
  check_array X_test = Ok b ->
  length (array_columns b) = length (array_columns a) ->
  exists scaler X_train_scaled X_test_scaled,
    scaled X_train X_test = Ok (scaler, X_train_scaled, X_test_scaled)
    /\ Forall2 (fun c s => nanvar c = Some 0 -> s = Some 1)
         (array_columns a) (scale_ scaler)
    /\ Forall2 (fun c c' =>
                  nanvar c = Some 0 ->
                  Forall2 (fun x x' => x <> None -> x' = Some 0) c c')
         (array_columns a) (array_columns X_train_scaled)
    /\ Forall2 (fun tc d' =>
                  nanvar (fst tc) = Some 0 ->
                  Forall2 (fun x x' => x <> None -> exists r, x' = Some r) (snd tc) d')
         (combine (array_columns a) (array_columns b))
         (array_columns X_test_scaled).
Proof.
  intros Ha Hb Hlen. do 3 eexists. split; [exact (scaled_ok _ _ _ _ Ha Hb Hlen)|].
  simpl. repeat split.
  - apply Forall2_map_self. apply Forall_forall. intros c _ Hv.
    exact (column_scale_zero_variance c Hv).
  - apply Forall2_map_self. apply Forall_forall. intros c _ Hv.
    assert (Hm : exists m, nanmean c = Some m).
    { unfold nanvar in Hv. destruct (nanmean c) as [m|]; [now exists m|discriminate]. }
    destruct Hm as [m Hm]. rewrite Hm, (column_scale_zero_variance c Hv).
    apply Forall2_map_self. apply Forall_forall. intros [x|] Hx Hp; [|contradiction].
    simpl. destruct (Req_EM_T 1 0); [lra|]. f_equal.
    rewrite (constant_values c m Hm Hv x).
    + field.
    + unfold dropna. apply in_flat_map. exists (Some x). split; [assumption|now left].
  - apply Forall2_map_self. apply Forall_forall. intros [c d] _ Hv. simpl in *.
    assert (Hm : exists m, nanmean c = Some m).
    { unfold nanvar in Hv. destruct (nanmean c) as [m|]; [now exists m|discriminate]. }
    destruct Hm as [m Hm]. rewrite Hm, (column_scale_zero_variance c Hv).
    apply Forall2_map_self. apply Forall_forall. intros [x|] Hx Hp; [|contradiction].
    simpl. destruct (Req_EM_T 1 0); [lra|]. eexists. reflexivity.
Qed.

Lemma spread_column_variance :
  nanmean [Some 0; Some 2] = Some 1 /\ nanvar [Some 0; Some 2] = Some 1.
Proof.
  assert (Hm : nanmean [Some 0; Some 2] = Some 1).
  { unfold nanmean. simpl. f_equal. field. }
  split; [exact Hm|]. unfold nanvar. rewrite Hm. simpl. f_equal. field.
Qed.

(** The scale of the column [0, 2], of mean 1 and variance 1, is 1
    whether or not the column is taken for constant. *)
Lemma spread_column_scale :
  nanmean [Some 0; Some 2] = Some 1 /\ column_scale [Some 0; Some 2] = Some 1.
Proof.
  destruct spread_column_variance as [Hm Hv].
  split; [exact Hm|]. unfold column_scale, _handle_zeros_in_scale.
  destruct (constant_mask [Some 0; Some 2]); [reflexivity|].
  unfold nanstd. rewrite Hv. simpl. now rewrite sqrt_1.
Qed.

(** A test column standardized with the training parameters need not
    have mean 0. *)
Lemma test_statistics_need_not_match :
  exists scaler X_train_scaled X_test_scaled,
    scaled spread_frame shifted_frame = Ok (scaler, X_train_scaled, X_test_scaled)
    /\ map nanmean (array_columns X_train_scaled) = [Some 0]
    /\ map nanmean (array_columns X_test_scaled) = [Some 2].
Proof.
  assert (Ha : check_array spread_frame
               = Ok {| n_rows := 2; array_columns := [[Some 0; Some 2]] |})
    by reflexivity.
  assert (Hb : check_array shifted_frame
               = Ok {| n_rows := 1; array_columns := [[Some 3]] |})
    by reflexivity.
  do 3 eexists. split; [exact (scaled_ok _ _ _ _ Ha Hb eq_refl)|].
  cbn [array_columns map combine fst snd].
  destruct spread_column_scale as [Hm Hsc]. rewrite Hm, Hsc.
  unfold standardize, nanmean. simpl. destruct (Req_EM_T 1 0); [lra|]. simpl.
  split; repeat f_equal; field.
Qed.

(** C5, as the code has it.  When cell 5 scales a training frame and a
    test frame: the mean and the variance of the scaler are those of
    the training columns; the training and the test columns are both
    transformed with these same parameters; replacing the test frame
    changes neither the parameters nor the transformed training data.
    After the transformation every training column with a value present
    has mean 0; its standard deviation is 1, unless the scaler takes
    the column for constant ([_is_constant_feature]: the variance is
    zero or within the rounding bound): such a column is only centred
    and keeps the standard deviation it had, which is 0 for a constant
    column.  A training column without any value stays without values.
    The transformed test data need not have mean 0. *)
Theorem standardizer_is_fit_on_the_training_subset
    (X_train X_test : DataFrame) (a b : ndarray) :
  check_array X_train = Ok a ->
  check_array X_test = Ok b ->
  length (array_columns b) = length (array_columns a) ->
  exists scaler X_train_scaled X_test_scaled,
    scaled X_train X_test = Ok (scaler, X_train_scaled, X_test_scaled)
    /\ mean_ scaler = map nanmean (array_columns a)
    /\ var_ scaler = map nanvar (array_columns a)
    /\ array_columns X_train_scaled
       = map (fun cms => standardize (fst (snd cms)) (snd (snd cms)) (fst cms))
           (combine (array_columns a) (combine (mean_ scaler) (scale_ scaler)))
    /\ array_columns X_test_scaled
       = map (fun cms => standardize (fst (snd cms)) (snd (snd cms)) (fst cms))
           (combine (array_columns b) (combine (mean_ scaler) (scale_ scaler)))
    /\ (forall X_test' b',
        check_array X_test' = Ok b' ->
        length (array_columns b') = length (array_columns a) ->
        exists X_test_scaled',
          scaled X_train X_test' = Ok (scaler, X_train_scaled, X_test_scaled'))
    /\ Forall2 (fun c c' =>
                  (dropna c <> [] ->
                   nanmean c' = Some 0
                   /\ nanstd c' = (if constant_mask c then nanstd c else Some 1)
                   /\ (nanvar c = Some 0 -> nanstd c' = Some 0))
                  /\ (dropna c = [] -> dropna c' = []))
         (array_columns a) (array_columns X_train_scaled)
    /\ (exists train test scaler' train_scaled test_scaled,
        scaled train test = Ok (scaler', train_scaled, test_scaled)
        /\ map nanmean (array_columns test_scaled) = [Some 2]).
Proof.
  intros Ha Hb Hlen. do 3 eexists. split; [exact (scaled_ok _ _ _ _ Ha Hb Hlen)|].
  simpl. split; [reflexivity|]. split; [reflexivity|].
  split; [now rewrite transform_columns, combine_self, map_map|].
  split; [now rewrite transform_columns|].
  split; [|split].
  - intros X_test' b' Hb' Hlen'. eexists. exact (scaled_ok _ _ _ _ Ha Hb' Hlen').
  - apply Forall2_map_self. apply Forall_forall. intros c _. split.
    + intros Hc. destruct (standardized_column_statistics c Hc) as [Hm Hs].
      split; [exact Hm|]. split; [exact Hs|]. intros Hv. rewrite Hs.
      rewrite (constant_mask_zero_variance c Hv). unfold nanstd. rewrite Hv.
      simpl. now rewrite sqrt_0.
    + intros Hc. unfold nanmean. rewrite Hc. apply dropna_standardize_nan.
  - destruct test_statistics_need_not_match as [sc [tr [te [Hs [_ Hte]]]]].
    exists spread_frame, shifted_frame, sc, tr, te. now split.
Qed.

(** C5 as stated fails on a training frame with a constant column and
    a column without any value.  Both entries of the column [3, 3] are
    transformed to 0, so the standard deviation of the transformed
    column is 0, not 1.  The column [NaN, NaN] stays as it is and has
    neither a mean nor a standard deviation. *)
Lemma degenerate_features_are_not_standardized :
  exists scaler X_train_scaled X_test_scaled,
    scaled degenerate_frame degenerate_frame
    = Ok (scaler, X_train_scaled, X_test_scaled)
    /\ array_columns X_train_scaled = [[Some 0; Some 0]; [None; None]]
    /\ map nanmean (array_columns X_train_scaled) = [Some 0; None]
    /\ map nanstd (array_columns X_train_scaled) = [Some 0; None]
    /\ Forall (fun c => nanstd c <> Some 1) (array_columns X_train_scaled)
    /\ ~ Forall (fun c => nanmean c = Some 0) (array_columns X_train_scaled).
Proof.
  assert (Ha : check_array degenerate_frame
               = Ok {| n_rows := 2;
                       array_columns := [[Some 3; Some 3]; [None; None]] |})
    by reflexivity.
  do 3 eexists. split; [exact (scaled_ok _ _ _ _ Ha Ha eq_refl)|].
  cbn [array_columns map combine fst snd].
  assert (Hm : nanmean [Some 3; Some 3] = Some 3).
  { unfold nanmean. simpl. f_equal. field. }
  assert (Hv : nanvar [Some 3; Some 3] = Some 0).
  { unfold nanvar. rewrite Hm. simpl. f_equal. field. }
  rewrite Hm, (column_scale_zero_variance _ Hv).
  assert (Hc : standardize (Some 3) (Some 1) [Some 3; Some 3] = [Some 0; Some 0]).
  { unfold standardize. simpl. destruct (Req_EM_T 1 0); [lra|].
    repeat f_equal; field. }
  assert (Hn : standardize (nanmean [None; None]) (column_scale [None; None])
                 [None; None] = [None; None]) by reflexivity.
  rewrite Hc, Hn.
  assert (Hm0 : nanmean [Some 0; Some 0] = Some 0).
  { unfold nanmean. simpl. f_equal. field. }
  assert (Hs : nanstd [Some 0; Some 0] = Some 0).
  { unfold nanstd, nanvar. rewrite Hm0. simpl.
    replace (((0 - 0) * (0 - 0) + ((0 - 0) * (0 - 0) + 0)) / (1 + 1)) with 0 by field.
    now rewrite sqrt_0. }
  assert (Hm1 : nanmean [@None R; None] = None) by reflexivity.
  assert (Hs1 : nanstd [@None R; None] = None) by reflexivity.
  rewrite Hm0, Hs, Hm1, Hs1. repeat split.
  - constructor; [rewrite Hs; intros [= Hc1]; lra|].
    constructor; [rewrite Hs1; discriminate|constructor].
  - intros Hall. inversion Hall as [|? ? _ Hall']; subst.
    inversion Hall' as [|? ? H2 _]; subst. discriminate.
Qed.

End Standardizer.

(** ** Feature selection after scaling *)

Section SelectionAfterScaling.

Local Open Scope R_scope.

(** Scaling keeps a column constant or not constant. *)
Lemma nonconstant_standardized (v : list (option R)) :
  nonconstant (standardize (nanmean v) (column_scale v) v)
  = nonconstant v.
Proof.
  destruct (dropna v) as [|x0 l] eqn:E.
  - assert (Hm : nanmean v = None) by (unfold nanmean; now rewrite E).
    assert (Hnone : nonconstant v = false).
    { unfold nonconstant, nanvar. now rewrite Hm. }
    rewrite Hnone.
    assert (Hd : dropna (standardize (nanmean v)
                           (column_scale v) v) = []).
    { rewrite Hm. apply dropna_standardize_nan. }
    assert (Hm' : nanmean (standardize (nanmean v)
                             (column_scale v) v) = None)
      by (unfold nanmean at 1; now rewrite Hd).
    unfold nonconstant, nanvar at 1. now rewrite Hm'.
  - assert (Hne : dropna v <> []) by (rewrite E; discriminate).
    destruct (standardized_column_statistics v Hne) as [_ Hstd].
    set (v' := standardize (nanmean v) (column_scale v) v) in *.
    destruct (nanvar v) as [y|] eqn:Evy;
      [|unfold nanvar in Evy; rewrite (nanmean_present v Hne) in Evy; discriminate].
    pose proof (nanvar_nonneg v y Evy) as Hy.
    assert (Hx : exists x, nanvar v' = Some x /\ (x = 0 <-> y = 0)).
    { unfold nanstd in Hstd. rewrite Evy in Hstd.
      destruct (nanvar v') as [x|] eqn:Ev;
        [|destruct (constant_mask v); discriminate].
      exists x. split; [reflexivity|].
      pose proof (nanvar_nonneg v' x Ev) as Hx0. simpl in Hstd.
      destruct (constant_mask v) eqn:Hmask; injection Hstd as Hstd.
      - split; intros ->; rewrite sqrt_0 in Hstd.
        + symmetry in Hstd. now apply sqrt_eq_0.
        + now apply sqrt_eq_0.
      - pose proof (constant_mask_false v y Evy Hmask) as Hpos.
        split; intros ->; [rewrite sqrt_0 in Hstd|]; lra. }
    destruct Hx as [x [Ev Hiff]]. unfold nonconstant. rewrite Ev, Evy.
    destruct (Req_EM_T x 0), (Req_EM_T y 0); try reflexivity; exfalso; tauto.
Qed.

(** C2.  On the frame built from the standardized training matrix, the
    0.5 filter on the correlation matrix keeps exactly the columns
    whose variance is not zero: the diagonal entry of such a column is
    1, and a constant column has no defined correlation at all.  When
    no column is constant the filter keeps every column, whatever the
    correlations between distinct features are.  When the matrix comes
    out of the scaler of cell 5, these are exactly the columns of the
    training subset whose variance is not zero. *)
Theorem relevant_features_are_the_nonconstant_columns
    (X_train_scaled : ndarray) (X_columns : list string) (train_frame : DataFrame) :
  DataFrame_of X_train_scaled X_columns = Ok train_frame ->
  relevant_features (corr train_frame)
  = compress (map nonconstant (array_columns X_train_scaled)) X_columns
  /\ (Forall (fun v => nonconstant v = true) (array_columns X_train_scaled) ->
      relevant_features (corr train_frame) = X_columns)
  /\ (forall X_train X_test a scaler X_test_scaled,
        check_array X_train = Ok a ->
        scaled X_train X_test = Ok (scaler, X_train_scaled, X_test_scaled) ->
        relevant_features (corr train_frame)
        = compress (map nonconstant (array_columns a)) X_columns).
Proof.
  intros Hof. rewrite (relevant_features_of_matrix _ _ _ Hof).
  split; [reflexivity|]. split; [|
    intros X_train X_test a scaler X_test_scaled Ha Hrun;
    unfold scaled, fit, transform in Hrun; rewrite Ha in Hrun; simpl in Hrun;
    rewrite Nat.eqb_refl in Hrun; simpl in Hrun;
    destruct (check_array X_test) as [b|]; simpl in Hrun; [|discriminate];
    destruct (length (array_columns b) =? length (array_columns a));
      simpl in Hrun; [|discriminate];
    injection Hrun as _ <- _; simpl;
    rewrite transform_columns, combine_self, !map_map; simpl;
    f_equal; apply map_ext; intros v; apply nonconstant_standardized].
  intros Hall. apply compress_all_true.
  - unfold DataFrame_of in Hof.
    destruct (Nat.eqb_spec (length X_columns) (length (array_columns X_train_scaled)))
      as [Hlen|]; [|discriminate].
    now rewrite length_map.
  - apply Forall_forall. intros b Hb. apply in_map_iff in Hb.
    destruct Hb as [v [<- Hv]]. rewrite Forall_forall in Hall. now apply Hall.
Qed.

End SelectionAfterScaling.

(** ** Model search *)

Lemma argmin_spec (l : list nat) :
  l <> [] ->
  argmin l < length l
  /\ (forall j, j < length l -> nth (argmin l) l 0 <= nth j l 0)
  /\ (forall j, j < argmin l -> nth (argmin l) l 0 < nth j l 0).
Proof.
  induction l as [|x rest IH]; [congruence|]. intros _.
  destruct rest as [|y rest'].
  - simpl. repeat split; try lia. intros [|j] Hj; simpl in *; lia.
  - destruct IH as [Hlt [Hmin Hfirst]]; [discriminate|].
    set (r := y :: rest') in *.
    change (argmin (x :: r))
      with (if x <=? nth (argmin r) r 0 then 0 else S (argmin r)).
    destruct (Nat.leb_spec x (nth (argmin r) r 0)) as [Hle|Hgt].
    + split; [cbn [length]; lia|]. split.
      * intros [|j] Hj; cbn [nth length] in *; [lia|].
        specialize (Hmin j). lia.
      * intros j Hj. lia.
    + split; [cbn [length]; lia|]. split.
      * intros [|j] Hj; cbn [nth length] in *; [lia|].
        apply Hmin. lia.
      * intros [|j] Hj; cbn [nth length] in *; [lia|].
        apply Hfirst. lia.
Qed.

Section Ranking.

Local Open Scope R_scope.

Lemma exists_max (a : list R) :
  a <> [] -> exists x, In x a /\ forall y, In y a -> y <= x.
Proof.
  induction a as [|x a IH]; [congruence|]. intros _.
  destruct a as [|x' a'].
  - exists x. split; [now left|]. intros y [->|[]]. lra.
  - destruct IH as [m [Hin Hmax]]; [discriminate|].
    destruct (Rle_dec x m) as [Hle|Hgt].
    + exists m. split; [now right|]. intros y [->|Hy]; [assumption|now apply Hmax].
    + exists x. split; [now left|]. intros y [->|Hy]; [lra|].
      specialize (Hmax y Hy). lra.
Qed.

Lemma filter_length_zero {A : Type} (f : A -> bool) (l : list A) :
  length (filter f l) = 0%nat <-> forall y, In y l -> f y = false.
Proof.
  induction l as [|x l IH]; simpl.
  - split; [intros _ y []|reflexivity].
  - destruct (f x) eqn:E; simpl.
    + split; [discriminate|]. intros H. specialize (H x (or_introl eq_refl)). congruence.
    + rewrite IH. split.
      * intros H y [<-|Hy]; auto.
      * intros H y Hy. apply H. now right.
Qed.

Lemma rankdata_desc_nth (a : list R) (j : nat) :
  (j < length a)%nat ->
  nth j (rankdata_desc a) 0%nat
  = S (length (filter (greater_than (nth j a 0)) a)).
Proof.
  intros Hj. unfold rankdata_desc.
  rewrite (nth_indep _ 0%nat (S (length (filter (greater_than 0) a))))
    by now rewrite length_map.
  exact (map_nth (fun x => S (length (filter (greater_than x) a))) a 0 j).
Qed.

(** The first position of rank 1 holds the maximum, and everything
    before it is smaller. *)
Lemma argmin_rankdata_desc (a : list R) :
  a <> [] ->
  let i := argmin (rankdata_desc a) in
  (i < length a)%nat
  /\ (forall y, In y a -> y <= nth i a 0)
  /\ (forall j, (j < i)%nat -> nth j a 0 < nth i a 0).
Proof.
  intros Ha i.
  assert (Hr : rankdata_desc a <> []).
  { unfold rankdata_desc. destruct a; [congruence|discriminate]. }
  destruct (argmin_spec (rankdata_desc a) Hr) as [Hlt [Hmin Hfirst]].
  fold i in Hlt, Hmin, Hfirst.
  assert (Hlen : length (rankdata_desc a) = length a)
    by (unfold rankdata_desc; now rewrite length_map).
  rewrite Hlen in Hlt, Hmin.
  destruct (exists_max a Ha) as [m [Hm Hmax]].
  destruct (In_nth a m 0 Hm) as [k [Hk Hnk]].
  assert (Hrank_k : nth k (rankdata_desc a) 0%nat = 1%nat).
  { rewrite rankdata_desc_nth by assumption. f_equal.
    apply filter_length_zero. intros y Hy. unfold greater_than.
    destruct (Rlt_dec (nth k a 0) y) as [Hc|]; [|reflexivity].
    specialize (Hmax y Hy). lra. }
  assert (Hrank_i : length (filter (greater_than (nth i a 0)) a) = 0%nat).
  { specialize (Hmin k Hk). rewrite Hrank_k in Hmin.
    rewrite rankdata_desc_nth in Hmin by assumption. lia. }
  assert (Hmax_i : forall y, In y a -> y <= nth i a 0).
  { intros y Hy. rewrite filter_length_zero in Hrank_i.
    specialize (Hrank_i y Hy). unfold greater_than in Hrank_i.
    destruct (Rlt_dec (nth i a 0) y); [discriminate|lra]. }
  split; [assumption|]. split; [assumption|].
  intros j Hj. specialize (Hfirst j Hj).
  rewrite !rankdata_desc_nth in Hfirst by lia. rewrite Hrank_i in Hfirst.
  destruct (filter (greater_than (nth j a 0)) a) as [|y l] eqn:E; [simpl in Hfirst; lia|].
  assert (Hy : In y (filter (greater_than (nth j a 0)) a)) by (rewrite E; now left).
  apply filter_In in Hy. destruct Hy as [Hy Hgt]. unfold greater_than in Hgt.
  destruct (Rlt_dec (nth j a 0) y); [|discriminate].
  specialize (Hmax_i y Hy). lra.
Qed.

Lemma fold_Rmin_le (l : list R) (a x : R) :
  In x (a :: l) -> fold_right Rmin a l <= x.
Proof.
  induction l as [|b l IH]; simpl; intros Hin.
  - destruct Hin as [->|[]]. lra.
  - destruct Hin as [->|[->|Hin]].
    + eapply Rle_trans; [apply Rmin_r|apply IH; now left].
    + apply Rmin_l.
    + eapply Rle_trans; [apply Rmin_r|apply IH; now right].
Qed.

Lemma nanmin_le (v : list (option R)) (x : R) :
  In (Some x) v -> exists least, nanmin v = Some least /\ least <= x.
Proof.
  unfold nanmin. intros Hin.
  assert (Hd : In x (dropna v)).
  { unfold dropna. apply in_flat_map. exists (Some x). split; [assumption|now left]. }
  destruct (dropna v) as [|a l]; [contradiction|].
  eexists. split; [reflexivity|]. now apply fold_Rmin_le.
Qed.

(** The winner of the ranking, when some mean is a number: its mean is
    a number, no mean is larger, and every earlier mean is NaN or
    strictly smaller. *)
Lemma argmin_rank_test_score (means : list (option R)) (m0 : R) :
  In (Some m0) means ->
  let i := argmin (rank_test_score means) in
  exists s,
    nth_error means i = Some (Some s)
    /\ (forall m, In (Some m) means -> m <= s)
    /\ (forall j c, (j < i)%nat -> nth_error means j = Some c ->
        match c with Some m => m < s | None => True end).
Proof.
  intros Hin. destruct (nanmin_le means m0 Hin) as [least [Hleast Hle0]].
  unfold rank_test_score. rewrite Hleast.
  set (repl := fun m : option R => match m with Some x => x | None => least - 1 end).
  set (a := map repl means).
  assert (Ha : a <> []).
  { unfold a. destruct means; [contradiction|discriminate]. }
  destruct (argmin_rankdata_desc a Ha) as [Hlt [Hmax Hfirst]].
  set (i := argmin (rankdata_desc a)) in *. cbv zeta.
  assert (Hlen : length a = length means) by (unfold a; now rewrite length_map).
  assert (Hnth : forall j, (j < length means)%nat ->
            exists c, nth_error means j = Some c /\ nth j a 0 = repl c).
  { intros j Hj. destruct (nth_error means j) as [c|] eqn:E.
    - exists c. split; [reflexivity|]. unfold a.
      rewrite (nth_indep _ 0 (repl None)) by (rewrite length_map; lia).
      rewrite map_nth. f_equal. now apply nth_error_nth.
    - apply nth_error_None in E. lia. }
  assert (Hleast_all : forall m, In (Some m) means -> least <= m).
  { intros m Hm. destruct (nanmin_le means m Hm) as [l' [Hl' Hle']]. congruence. }
  destruct (Hnth i) as [c [Hc Hci]]; [lia|].
  assert (Hin_a : forall m, In (Some m) means -> In m a).
  { intros m Hm. unfold a. apply in_map_iff. exists (Some m). now split. }
  destruct c as [s|].
  - exists s. split; [assumption|]. simpl in Hci. split.
    + intros m Hm. rewrite <- Hci. apply Hmax. now apply Hin_a.
    + intros j c Hj Hcj. destruct (Hnth j) as [c' [Hc' Hcj']]; [lia|].
      rewrite Hcj in Hc'. injection Hc' as <-.
      destruct c as [m|]; [|exact I].
      specialize (Hfirst j Hj). rewrite Hcj', Hci in Hfirst. exact Hfirst.
  - exfalso. simpl in Hci. specialize (Hmax m0 (Hin_a m0 Hin)). lra.
Qed.

End Ranking.

Lemma insert_item_In (p q : string * list R) (l : list (string * list R)) :
  In q (insert_item p l) <-> q = p \/ In q l.
Proof.
  induction l as [|x l IH]; simpl.
  - intuition.
  - destruct (String.ltb (fst x) (fst p)); simpl; rewrite ?IH; intuition.
Qed.

Lemma sorted_items_In (q : string * list R) (param_grid : list (string * list R)) :
  In q (sorted_items param_grid) <-> In q param_grid.
Proof.
  unfold sorted_items. induction param_grid as [|p l IH]; simpl; [tauto|].
  rewrite insert_item_In, IH. intuition.
Qed.

(** A combination of the product takes each of its values from the
    candidate values of that parameter. *)
Lemma product_member (items : list (string * list R)) (p : params) :
  In p (product items) ->
  forall k v, In (k, v) p -> exists vs, In (k, vs) items /\ In v vs.
Proof.
  revert p. induction items as [|[k0 vs0] items IH]; simpl; intros p Hp k v Hkv.
  - destruct Hp as [<-|[]]. contradiction.
  - apply in_flat_map in Hp. destruct Hp as [v0 [Hv0 Hp]].
    apply in_map_iff in Hp. destruct Hp as [p' [<- Hp']].
    destruct Hkv as [[= <- <-]|Hkv].
    + exists vs0. split; [now left|assumption].
    + destruct (IH p' Hp' k v Hkv) as [vs [Hvs Hv]]. exists vs. split; [now right|assumption].
Qed.

Lemma product_nonempty_values (items : list (string * list R)) (p : params) :
  In p (product items) ->
  existsb (fun kv => match snd kv with [] => true | _ => false end) items = false.
Proof.
  revert p. induction items as [|[k0 vs0] items IH]; simpl; intros p Hp; [reflexivity|].
  apply in_flat_map in Hp. destruct Hp as [v0 [Hv0 Hp]].
  apply in_map_iff in Hp. destruct Hp as [p' [_ Hp']].
  destruct vs0; [contradiction|]. simpl. now apply (IH p').
Qed.

Lemma existsb_sorted_items (f : string * list R -> bool) (param_grid : list (string * list R)) :
  existsb f (sorted_items param_grid) = existsb f param_grid.
Proof.
  apply eq_true_iff_eq. rewrite !existsb_exists.
  split; intros [x [Hx Hf]]; exists x; (split; [|assumption]);
    now apply sorted_items_In.
Qed.

Section Search.

Variable fit_and_score : params -> nat -> option R.

Local Open Scope R_scope.

Lemma cv_mean_not_all_failed (p : params) :
  cv_mean fit_and_score p <> None ->
  forallb isnan (map (fit_and_score p) (seq 0 n_splits)) = false.
Proof.
  unfold cv_mean, np_mean.
  destruct (existsb isnan (map (fit_and_score p) (seq 0 n_splits))) eqn:E;
    [congruence|]. intros _.
  change (seq 0 n_splits) with (0%nat :: seq 1 4) in *. simpl in *.
  apply orb_false_elim in E. destruct E as [E _]. now rewrite E.
Qed.

(** C3.  Whatever the estimator does, a search that returns gives a
    combination of the supplied grid: it is the candidate at
    [best_index_], and each of its values is one of the candidate
    values of that parameter.  When at least one combination of the
    grid is evaluated on all folds, the search returns; the returned
    score is the mean score of the returned combination, no evaluated
    combination has a larger mean, and every combination before it in
    grid order failed or has a strictly smaller mean. *)
Theorem grid_search_returns_the_first_best_combination
    (param_grid : list (string * list R)) :
  (forall r,
      GridSearchCV_fit fit_and_score param_grid = Ok r ->
      nth_error (product (sorted_items param_grid)) (best_index_ r)
      = Some (best_params_ r)
      /\ (forall k v, In (k, v) (best_params_ r) ->
          exists vs, In (k, vs) param_grid /\ In v vs))
  /\ ((exists p, In p (product (sorted_items param_grid))
                 /\ cv_mean fit_and_score p <> None) ->
      exists r s,
        GridSearchCV_fit fit_and_score param_grid = Ok r
        /\ best_score_ r = Some s
        /\ cv_mean fit_and_score (best_params_ r) = Some s
        /\ (forall p m, In p (product (sorted_items param_grid)) ->
            cv_mean fit_and_score p = Some m -> m <= s)
        /\ (forall j p, (j < best_index_ r)%nat ->
            nth_error (product (sorted_items param_grid)) j = Some p ->
            match cv_mean fit_and_score p with
            | Some m => m < s
            | None => True
            end)).
Proof.
  set (candidates := product (sorted_items param_grid)).
  assert (Hmember : forall i p, nth_error candidates i = Some p ->
            forall k v, In (k, v) p -> exists vs, In (k, vs) param_grid /\ In v vs).
  { intros i p Hp k v Hkv. apply nth_error_In in Hp.
    destruct (product_member _ _ Hp k v Hkv) as [vs [Hvs Hv]].
    exists vs. split; [now apply sorted_items_In|assumption]. }
  assert (Hmeans : map np_mean
                     (map (fun p => map (fit_and_score p) (seq 0 n_splits)) candidates)
                   = map (cv_mean fit_and_score) candidates).
  { now rewrite map_map. }
  split.
  - intros r. unfold GridSearchCV_fit, ParameterGrid.
    destruct (existsb _ param_grid); [discriminate|]. simpl. fold candidates.
    destruct (forallb _ _); [discriminate|].
    destruct (nth_error candidates _) as [p|] eqn:Ep; [|discriminate].
    destruct (nth_error (map np_mean _) _) as [s|]; [|discriminate].
    intros [= <-]. simpl. split; [assumption|]. now apply (Hmember _ _ Ep).
  - intros [p0 [Hp0 Hs0]].
    unfold GridSearchCV_fit, ParameterGrid.
    rewrite <- (existsb_sorted_items _ param_grid).
    rewrite (product_nonempty_values _ _ Hp0). cbn [result_bind]. fold candidates.
    cbv zeta.
    assert (Hsome : forallb (forallb isnan)
                      (map (fun p => map (fit_and_score p) (seq 0 n_splits)) candidates)
                    = false).
    { apply not_true_is_false. intros Hall. rewrite forallb_forall in Hall.
      specialize (Hall (map (fit_and_score p0) (seq 0 n_splits))).
      rewrite cv_mean_not_all_failed in Hall by assumption.
      discriminate Hall. apply in_map_iff. now exists p0. }
    rewrite Hsome, Hmeans.
    destruct (cv_mean fit_and_score p0) as [m0|] eqn:Em0; [|congruence].
    assert (Hin0 : In (Some m0) (map (cv_mean fit_and_score) candidates)).
    { apply in_map_iff. now exists p0. }
    destruct (argmin_rank_test_score _ m0 Hin0) as [s [Hs [Hmax Hfirst]]].
    set (i := argmin (rank_test_score (map (cv_mean fit_and_score) candidates))) in *.
    rewrite Hs. rewrite nth_error_map in Hs.
    destruct (nth_error candidates i) as [p|] eqn:Ep; [|discriminate].
    simpl in Hs. injection Hs as Hs.
    eexists. exists s. split; [reflexivity|]. simpl.
    split; [reflexivity|]. split; [assumption|]. split.
    + intros q m Hq Hm. apply Hmax. apply in_map_iff. now exists q.
    + intros j q Hj Hq. apply (Hfirst j (cv_mean fit_and_score q) Hj).
      rewrite nth_error_map, Hq. reflexivity.
Qed.

End Search.

(** ** Seeded computations *)

Section Seeded.

Context {rng : Type} `{RandomStateOps rng}.

Lemma seeded_ret {A : Type} (a : A) : seeded (rng := rng) (ret a).
Proof. exists (Ok a). reflexivity. Qed.

Lemma seeded_raise {A : Type} (e : exn) : seeded (rng := rng) (A := A) (raise e).
Proof. exists (Raise e). reflexivity. Qed.

Lemma seeded_lift {A : Type} (c : result A) : seeded (rng := rng) (lift c).
Proof. exists c. reflexivity. Qed.

Lemma seeded_bind {A B : Type} (c : M rng A) (k : A -> M rng B) :
  seeded c -> (forall a, seeded (k a)) -> seeded (bind c k).
Proof.
  intros [r Hr] Hk. unfold bind. destruct r as [a|e].
  - destruct (Hk a) as [rb Hrb]. exists rb. intros g. now rewrite Hr, Hrb.
  - exists (Raise e). intros g. now rewrite Hr.
Qed.

Lemma seeded_with_random_state {A : Type} (seed : nat) (body : M rng A) :
  seeded (with_random_state (Some seed) body).
Proof. exists (fst (body (RandomState seed))). reflexivity. Qed.

Lemma seeded_mapM {A B : Type} (f : A -> M rng B) (l : list A) :
  (forall a, seeded (f a)) -> seeded (mapM f l).
Proof.
  intros Hf. induction l as [|a l IH]; simpl.
  - apply seeded_ret.
  - apply seeded_bind; [apply Hf|]. intros b.
    apply seeded_bind; [apply IH|]. intros bs. apply seeded_ret.
Qed.

Lemma seeded_resample (df : DataFrame) (n_samples seed : nat) :
  seeded (resample df n_samples (Some seed)).
Proof. apply seeded_with_random_state. Qed.

Lemma seeded_sample (df : DataFrame) (seed : nat) :
  seeded (sample df (Some seed)).
Proof. apply seeded_with_random_state. Qed.

Lemma seeded_balanced_data (data : DataFrame) : seeded (balanced_data data).
Proof.
  unfold balanced_data.
  apply seeded_bind; [apply seeded_lift|]. intros labels.
  apply seeded_bind; [apply seeded_lift|]. intros majority_class.
  apply seeded_bind.
  - apply seeded_mapM. intros minority_class.
    apply seeded_bind; [apply seeded_lift|]. intros n. apply seeded_resample.
  - intros resampled. apply seeded_bind; [apply seeded_lift|]. intros combined.
    apply seeded_sample.
Qed.

Lemma seeded_StratifiedShuffleSplit (y : list scalar) (n_test n_train seed : nat) :
  seeded (StratifiedShuffleSplit y n_test n_train (Some seed)).
Proof.
  unfold StratifiedShuffleSplit.
  apply seeded_bind; [apply seeded_lift|]. intros sizes.
  apply seeded_bind; [apply seeded_lift|]. intros classes.
  apply seeded_bind; [apply seeded_lift|]. intros least.
  destruct (least <? 2); [apply seeded_raise|].
  destruct (fst sizes <? length classes); [apply seeded_raise|].
  destruct (snd sizes <? length classes); [apply seeded_raise|].
  apply seeded_with_random_state.
Qed.

Lemma seeded_train_test_split (X : DataFrame) (y : Series) (fraction : nat * nat)
    (seed : nat) :
  seeded (train_test_split X y fraction (Some seed)).
Proof.
  unfold train_test_split.
  destruct (negb (shape0 X =? Series_len y)); [apply seeded_raise|].
  apply seeded_bind; [apply seeded_lift|]. intros sizes.
  apply seeded_bind; [apply seeded_lift|]. intros labels.
  apply seeded_bind; [apply seeded_StratifiedShuffleSplit|]. intros parts.
  repeat (apply seeded_bind; [apply seeded_lift|]; intros ?).
  apply seeded_ret.
Qed.

Lemma seeded_split (balanced : DataFrame) : seeded (split balanced).
Proof.
  unfold split.
  apply seeded_bind; [apply seeded_lift|]. intros X.
  apply seeded_bind; [apply seeded_lift|]. intros y.
  apply seeded_train_test_split.
Qed.

(** C9.  The balanced data and the train/test assignment computed by
    cells 3 to 5 are the same in any two runs on the same input,
    whatever the state of the process-wide generator is in each run,
    and the runs leave that generator untouched: every random draw
    comes from a generator freshly seeded with the constant 42.  The
    same holds for [train_test_split] with any integer seed. *)
Theorem seeded_pipeline_is_reproducible (data : DataFrame) :
  (forall global global',
      fst (prepare data global) = fst (prepare data global'))
  /\ (forall global, snd (prepare data global) = global)
  /\ (forall global global',
      fst (balanced_data (data_cleaned data) global)
      = fst (balanced_data (data_cleaned data) global'))
  /\ (forall X y fraction seed global global',
      fst (train_test_split X y fraction (Some seed) global)
      = fst (train_test_split X y fraction (Some seed) global')).
Proof.
  assert (Hprep : seeded (prepare data)).
  { unfold prepare.
    apply seeded_bind; [apply seeded_balanced_data|]. intros balanced.
    apply seeded_bind; [apply seeded_split|]. intros parts. apply seeded_ret. }
  destruct Hprep as [r Hr].
  destruct (seeded_balanced_data (data_cleaned data)) as [rb Hrb].
  repeat split.
  - intros g g'. now rewrite !Hr.
  - intros g. now rewrite Hr.
  - intros g g'. now rewrite !Hrb.
  - intros X y fraction seed g g'.
    destruct (seeded_train_test_split X y fraction seed) as [rs Hrs]. now rewrite !Hrs.
Qed.

End Seeded.

(** ** Positions, masks and counts *)

Lemma take_ok {A : Type} (indices : list nat) (v : list A) (d : A) :
  Forall (fun i => i < length v) indices ->
  take indices v = Ok (map (fun i => nth i v d) indices).
Proof.
  induction 1 as [|i indices Hi _ IH]; simpl; [reflexivity|].
  destruct (nth_error v i) as [x|] eqn:E.
  - rewrite IH. simpl. unfold result_map. simpl.
    now rewrite (nth_error_nth v i d E).
  - apply nth_error_None in E. lia.
Qed.

Lemma gather_items (indices : list nat) (s : Series) :
  items (Series_gather indices s) = gather indices (items s).
Proof.
  destruct s as [v|v]; simpl; [|reflexivity]. unfold gather.
  rewrite map_map. apply map_ext. intros i.
  change (@None scalar) with (option_map Flt None). now rewrite map_nth.
Qed.

Lemma Series_take_ok (indices : list nat) (s : Series) :
  Forall (fun i => i < Series_len s) indices ->
  Series_take indices s = Ok (Series_gather indices s).
Proof.
  destruct s as [v|v]; simpl; intros Hi;
    now rewrite (take_ok indices v None Hi).
Qed.

Lemma DataFrame_take_ok (indices : list nat) (df : DataFrame) :
  rectangular df ->
  Forall (fun i => i < shape0 df) indices ->
  DataFrame_take indices df = Ok (DataFrame_gather indices df).
Proof.
  intros Hrect Hi. unfold DataFrame_take, DataFrame_gather.
  assert (Hb : forallb (fun i => i <? shape0 df) indices = true).
  { apply forallb_forall. intros i Hin. apply Nat.ltb_lt.
    rewrite Forall_forall in Hi. now apply Hi. }
  rewrite Hb.
  rewrite (result_all_ok _ (fun c => (fst c, Series_gather indices (snd c)))).
  - reflexivity.
  - intros c Hc. rewrite Series_take_ok; [reflexivity|].
    unfold rectangular in Hrect. rewrite Forall_forall in Hrect.
    now rewrite (Hrect c Hc).
Qed.

Lemma gather_length {A : Type} (indices : list nat) (v : list (option A)) :
  length (gather indices v) = length indices.
Proof. unfold gather. apply length_map. Qed.

Lemma Series_gather_len (indices : list nat) (s : Series) :
  Series_len (Series_gather indices s) = length indices.
Proof. destruct s; simpl; apply gather_length. Qed.

Lemma DataFrame_gather_rectangular (indices : list nat) (df : DataFrame) :
  rectangular (DataFrame_gather indices df).
Proof.
  unfold rectangular, DataFrame_gather. simpl. apply Forall_forall.
  intros c Hc. apply in_map_iff in Hc. destruct Hc as [c0 [<- _]]. simpl.
  apply Series_gather_len.
Qed.

Lemma map_nth_seq {A : Type} (l : list A) (d : A) :
  map (fun i => nth i l d) (seq 0 (length l)) = l.
Proof.
  induction l as [|x l IH]; simpl; [reflexivity|]. f_equal.
  rewrite <- seq_shift, map_map. exact IH.
Qed.

(** Gathering along a permutation of all positions permutes the
    entries. *)
Lemma gather_Permutation {A : Type} (p : list nat) (v : list (option A)) :
  Permutation (seq 0 (length v)) p -> Permutation v (gather p v).
Proof.
  intros Hp. unfold gather. rewrite <- (map_nth_seq v None) at 1.
  now apply Permutation_map.
Qed.

Lemma count_scalar_app (x : scalar) (l l' : list scalar) :
  count_scalar x (l ++ l') = count_scalar x l + count_scalar x l'.
Proof. induction l as [|y l IH]; simpl; [reflexivity|]. rewrite IH. lia. Qed.

Lemma count_scalar_Permutation (x : scalar) (l l' : list scalar) :
  Permutation l l' -> count_scalar x l = count_scalar x l'.
Proof. induction 1; simpl; lia. Qed.

Lemma dropna_Permutation {A : Type} (v w : list (option A)) :
  Permutation v w -> Permutation (dropna v) (dropna w).
Proof.
  unfold dropna. induction 1; simpl.
  - constructor.
  - now apply Permutation_app_head.
  - rewrite !app_assoc. apply Permutation_app_tail. apply Permutation_app_comm.
  - eapply Permutation_trans; eassumption.
Qed.

Lemma Permutation_seq_bound (n : nat) (p : list nat) :
  Permutation (seq 0 n) p -> Forall (fun i => i < n) p.
Proof.
  intros Hp. apply Forall_forall. intros i Hi.
  apply (Permutation_in _ (Permutation_sym Hp)) in Hi. apply in_seq in Hi. lia.
Qed.

(** ** Positions of a value, and incrementing at positions *)

Lemma flatnonzero_from_cons {A : Type} (p : A -> bool) (x : A) (l : list A) (s : nat) :
  map fst (filter (fun ix => p (snd ix)) (combine (seq s (length (x :: l))) (x :: l)))
  = (if p x then [s] else [])
    ++ map fst (filter (fun ix => p (snd ix)) (combine (seq (S s) (length l)) l)).
Proof. simpl. destruct (p x); reflexivity. Qed.

Lemma flatnonzero_from_In {A : Type} (p : A -> bool) (l : list A) (d : A) (s i : nat) :
  In i (map fst (filter (fun ix => p (snd ix)) (combine (seq s (length l)) l)))
  <-> s <= i < s + length l /\ p (nth (i - s) l d) = true.
Proof.
  revert s. induction l as [|x l IH]; intros s.
  - simpl. split; [contradiction|lia].
  - rewrite flatnonzero_from_cons, in_app_iff, IH.
    change (length (x :: l)) with (S (length l)).
    split.
    + intros [Hh|[Hr Hp]].
      * destruct (p x) eqn:E; [|contradiction]. destruct Hh as [<-|[]].
        rewrite Nat.sub_diag. simpl. split; [lia|assumption].
      * split; [lia|]. replace (i - s) with (S (i - S s)) by lia. exact Hp.
    + intros [Hr Hp]. destruct (Nat.eq_dec i s) as [->|Hne].
      * left. rewrite Nat.sub_diag in Hp. simpl in Hp. rewrite Hp. now left.
      * right. split; [lia|]. replace (i - s) with (S (i - S s)) in Hp by lia.
        exact Hp.
Qed.

Lemma flatnonzero_In {A : Type} (p : A -> bool) (l : list A) (d : A) (i : nat) :
  In i (flatnonzero p l) <-> i < length l /\ p (nth i l d) = true.
Proof.
  unfold flatnonzero. rewrite (flatnonzero_from_In p l d 0 i).
  rewrite Nat.sub_0_r. intuition lia.
Qed.

Lemma flatnonzero_from_NoDup {A : Type} (p : A -> bool) (l : list A) (s : nat) :
  NoDup (map fst (filter (fun ix => p (snd ix)) (combine (seq s (length l)) l))).
Proof.
  revert s. induction l as [|x l IH]; intros s.
  - constructor.
  - rewrite flatnonzero_from_cons. destruct (p x); simpl; [|apply IH].
    constructor; [|apply IH]. intros Hin.
    destruct l as [|y l']; [contradiction|].
    apply (flatnonzero_from_In p (y :: l') y (S s) s) in Hin. lia.
Qed.

Lemma flatnonzero_NoDup {A : Type} (p : A -> bool) (l : list A) :
  NoDup (flatnonzero p l).
Proof. apply flatnonzero_from_NoDup. Qed.

Lemma flatnonzero_from_length {A : Type} (p : A -> bool) (l : list A) (s : nat) :
  length (map fst (filter (fun ix => p (snd ix)) (combine (seq s (length l)) l)))
  = length (filter p l).
Proof.
  revert s. induction l as [|x l IH]; intros s; [reflexivity|].
  rewrite flatnonzero_from_cons, length_app, IH. simpl.
  destruct (p x); reflexivity.
Qed.

Lemma flatnonzero_length {A : Type} (p : A -> bool) (l : list A) :
  length (flatnonzero p l) = length (filter p l).
Proof. apply flatnonzero_from_length. Qed.

(** Two disjoint tests split the positions of their disjunction. *)
Lemma flatnonzero_from_disjoint {A : Type} (p q : A -> bool) (l : list A) (s : nat) :
  (forall x, In x l -> p x = true -> q x = false) ->
  Permutation
    (map fst (filter (fun ix => p (snd ix)) (combine (seq s (length l)) l))
     ++ map fst (filter (fun ix => q (snd ix)) (combine (seq s (length l)) l)))
    (map fst (filter (fun ix => p (snd ix) || q (snd ix))
                (combine (seq s (length l)) l))).
Proof.
  revert s. induction l as [|x l IH]; intros s Hd; [constructor|].
  rewrite (flatnonzero_from_cons p), (flatnonzero_from_cons q),
    (flatnonzero_from_cons (fun a => p a || q a)).
  assert (IH' := IH (S s) (fun y Hy => Hd y (or_intror Hy))).
  destruct (p x) eqn:Ep.
  - rewrite (Hd x (or_introl eq_refl) Ep). simpl. now constructor.
  - destruct (q x); simpl; [|exact IH'].
    eapply Permutation_trans; [apply Permutation_sym, Permutation_middle|].
    now constructor.
Qed.

Lemma flatnonzero_all {A : Type} (p : A -> bool) (l : list A) :
  (forall x, In x l -> p x = true) -> flatnonzero p l = seq 0 (length l).
Proof.
  unfold flatnonzero. generalize 0 as s.
  induction l as [|x l IH]; intros s Hp; [reflexivity|].
  rewrite flatnonzero_from_cons, (Hp x (or_introl eq_refl)).
  simpl. f_equal. apply IH. intros y Hy. apply Hp. now right.
Qed.

Lemma increment_increment_from (inds a : list nat) :
  increment inds a = increment_from 0 inds a.
Proof.
  unfold increment. generalize 0 as s.
  induction a as [|x a IH]; intros s; simpl; [reflexivity|]. now rewrite IH.
Qed.

Lemma increment_from_length (s : nat) (inds a : list nat) :
  length (increment_from s inds a) = length a.
Proof. revert s. induction a; intros s; simpl; auto. Qed.

Lemma increment_length (inds a : list nat) : length (increment inds a) = length a.
Proof. rewrite increment_increment_from. apply increment_from_length. Qed.

Lemma increment_from_nth (s : nat) (inds a : list nat) (i : nat) :
  i < length a ->
  nth i (increment_from s inds a) 0
  = nth i a 0 + (if existsb (Nat.eqb (s + i)) inds then 1 else 0).
Proof.
  revert s i. induction a as [|x a IH]; intros s i Hi; simpl in Hi; [lia|].
  destruct i as [|i]; simpl.
  - rewrite Nat.add_0_r. destruct (existsb (Nat.eqb s) inds); lia.
  - rewrite IH by lia. now replace (S s + i) with (s + S i) by lia.
Qed.

Lemma increment_nth (inds a : list nat) (i : nat) :
  i < length a ->
  nth i (increment inds a) 0 = nth i a 0 + (if existsb (Nat.eqb i) inds then 1 else 0).
Proof.
  intros Hi. rewrite increment_increment_from. now rewrite increment_from_nth.
Qed.

Lemma existsb_eqb_In (i : nat) (inds : list nat) :
  existsb (Nat.eqb i) inds = true <-> In i inds.
Proof.
  rewrite existsb_exists. split.
  - intros [x [Hx He]]. apply Nat.eqb_eq in He. now subst.
  - intros Hi. exists i. split; [assumption|apply Nat.eqb_refl].
Qed.

Lemma increment_from_app (s : nat) (d1 d2 a : list nat) :
  (forall i, In i d1 -> ~ In i d2) ->
  increment_from s d2 (increment_from s d1 a) = increment_from s (d1 ++ d2) a.
Proof.
  intros Hd. revert s. induction a as [|x a IH]; intros s; simpl; [reflexivity|].
  rewrite IH. f_equal. rewrite existsb_app.
  destruct (existsb (Nat.eqb s) d1) eqn:E1; simpl.
  - apply existsb_eqb_In in E1. destruct (existsb (Nat.eqb s) d2) eqn:E2; [|reflexivity].
    apply existsb_eqb_In in E2. exfalso. now apply (Hd s).
  - reflexivity.
Qed.

Lemma increment_app (d1 d2 a : list nat) :
  (forall i, In i d1 -> ~ In i d2) ->
  increment d2 (increment d1 a) = increment (d1 ++ d2) a.
Proof.
  intros Hd. rewrite !increment_increment_from. now apply increment_from_app.
Qed.

Lemma filter_range_split (s n : nat) (inds : list nat) :
  NoDup inds ->
  length (filter (fun i => (s <=? i) && (i <? s + S n)) inds)
  = (if existsb (Nat.eqb s) inds then 1 else 0)
    + length (filter (fun i => (S s <=? i) && (i <? S s + n)) inds).
Proof.
  induction inds as [|i inds IHi]; intros Hnd; [reflexivity|].
  inversion Hnd as [|? ? Hni Hnd']; subst. specialize (IHi Hnd').
  cbn [filter existsb].
  assert (Hb : (s <=? i) && (i <? s + S n)
               = (s =? i) || ((S s <=? i) && (i <? S s + n))).
  { destruct (Nat.eqb_spec s i), (Nat.leb_spec s i), (Nat.ltb_spec i (s + S n)),
      (Nat.leb_spec (S s) i), (Nat.ltb_spec i (S s + n)); simpl; auto; lia. }
  rewrite Hb. destruct (Nat.eqb_spec s i) as [<-|Hne].
  - assert (Hs : (S s <=? s) = false) by (apply Nat.leb_gt; lia).
    rewrite Hs. cbn [orb andb length]. rewrite IHi.
    assert (He : existsb (Nat.eqb s) inds = false).
    { apply not_true_is_false. intros Hc. apply existsb_eqb_In in Hc. contradiction. }
    rewrite He. lia.
  - cbn [orb]. destruct ((S s <=? i) && (i <? S s + n)); cbn [length];
      rewrite IHi; destruct (existsb (Nat.eqb s) inds); lia.
Qed.

Lemma filter_range_empty (s : nat) (inds : list nat) :
  filter (fun i => (s <=? i) && (i <? s + 0)) inds = [].
Proof.
  induction inds as [|i inds IH]; [reflexivity|]. cbn [filter]. rewrite IH.
  destruct (Nat.leb_spec s i), (Nat.ltb_spec i (s + 0)); simpl; auto; lia.
Qed.

Lemma increment_from_sum (s : nat) (inds a : list nat) :
  NoDup inds ->
  list_sum (increment_from s inds a)
  = list_sum a + length (filter (fun i => (s <=? i) && (i <? s + length a)) inds).
Proof.
  intros Hnd. revert s. induction a as [|x a IH]; intros s.
  - cbn [increment_from length list_sum fold_right]. now rewrite filter_range_empty.
  - cbn [increment_from length]. rewrite filter_range_split by assumption.
    change (list_sum (?h :: ?t)) with (h + list_sum t).
    rewrite IH. destruct (existsb (Nat.eqb s) inds); lia.
Qed.

Lemma increment_sum (inds a : list nat) :
  NoDup inds -> (forall i, In i inds -> i < length a) ->
  list_sum (increment inds a) = list_sum a + length inds.
Proof.
  intros Hnd Hb. rewrite increment_increment_from, increment_from_sum by assumption.
  f_equal. f_equal. rewrite <- (filter_ext_in (fun _ => true)).
  - clear. induction inds; simpl; congruence.
  - intros i Hi. specialize (Hb i Hi). simpl.
    destruct (Nat.ltb_spec i (length a)); [reflexivity|lia].
Qed.

(** ** [_approximate_mode] *)

Lemma insert_nat_desc_In (x y : nat) (l : list nat) :
  In y (insert_nat_desc x l) <-> y = x \/ In y l.
Proof.
  induction l as [|z l IH]; simpl; [intuition|].
  destruct (Nat.ltb_spec x z); [simpl; rewrite IH; intuition|].
  destruct (Nat.eqb_spec x z); simpl; intuition. subst. auto.
Qed.

Lemma unique_desc_In (y : nat) (a : list nat) : In y (unique_desc a) <-> In y a.
Proof.
  unfold unique_desc. induction a as [|x a IH]; simpl; [tauto|].
  rewrite insert_nat_desc_In, IH. intuition.
Qed.

Lemma insert_nat_desc_decreasing (x : nat) (l : list nat) :
  decreasing l -> decreasing (insert_nat_desc x l).
Proof.
  unfold decreasing. induction 1 as [|z l Hl IH Hz]; simpl.
  - constructor; constructor.
  - destruct (Nat.ltb_spec x z) as [Hlt|Hge].
    + constructor; [assumption|]. apply Forall_forall. intros y Hy.
      apply insert_nat_desc_In in Hy. rewrite Forall_forall in Hz.
      destruct Hy as [->|Hy]; [assumption|now apply Hz].
    + destruct (Nat.eqb_spec x z) as [->|Hne].
      * now constructor.
      * constructor; [now constructor|]. constructor; [lia|].
        apply Forall_forall. intros y Hy. rewrite Forall_forall in Hz.
        specialize (Hz y Hy). lia.
Qed.

Lemma unique_desc_decreasing (a : list nat) : decreasing (unique_desc a).
Proof.
  unfold unique_desc. induction a as [|x a IH]; simpl.
  - constructor.
  - now apply insert_nat_desc_decreasing.
Qed.

Lemma filter_length_or {A : Type} (f g : A -> bool) (l : list A) :
  (forall x, In x l -> f x = true -> g x = false) ->
  length (filter (fun x => f x || g x) l)
  = length (filter f l) + length (filter g l).
Proof.
  induction l as [|x l IH]; intros Hd; [reflexivity|]. cbn [filter].
  assert (IH' := IH (fun y Hy => Hd y (or_intror Hy))).
  destruct (f x) eqn:Ef.
  - rewrite (Hd x (or_introl eq_refl) Ef). cbn [orb length]. lia.
  - cbn [orb]. destruct (g x); cbn [length]; lia.
Qed.

Lemma capacity_cons (remainder : list nat) (v : nat) (rest : list nat) :
  0 < v -> ~ In v rest ->
  capacity remainder (v :: rest)
  = length (filter (Nat.eqb v) remainder) + capacity remainder rest.
Proof.
  intros Hv Hni. unfold capacity.
  rewrite <- (filter_length_or (Nat.eqb v)
                (fun x => negb (x =? 0) && existsb (Nat.eqb x) rest)).
  - f_equal. apply filter_ext. intros x. cbn [existsb].
    destruct (Nat.eqb_spec x v) as [->|Hne].
    + rewrite Nat.eqb_refl. destruct (Nat.eqb_spec v 0); [lia|]. reflexivity.
    + destruct (Nat.eqb_spec v x); [congruence|]. reflexivity.
  - intros x _ Hx. apply Nat.eqb_eq in Hx. subst x.
    apply andb_false_intro2. apply not_true_is_false. intros Hc.
    apply existsb_eqb_In in Hc. contradiction.
Qed.

Lemma capacity_zero_head (remainder rest : list nat) :
  decreasing (0 :: rest) -> capacity remainder (0 :: rest) = 0.
Proof.
  intros Hd. inversion Hd as [|? ? _ Hall]; subst.
  destruct rest as [|w rest]; [|inversion Hall; lia].
  unfold capacity. induction remainder as [|x l IH]; [reflexivity|].
  cbn [filter existsb]. destruct (Nat.eqb_spec x 0) as [->|Hne]; simpl; [exact IH|].
  destruct (Nat.eqb_spec x 0); [contradiction|]. simpl. exact IH.
Qed.

Section ApproximateMode.

Context {rng : Type} `{RandomStateLaws rng}.

Lemma choice_subset (a : list nat) (size : nat) (r : rng) :
  NoDup a -> size <= length a ->
  length (fst (choice a size r)) = size
  /\ NoDup (fst (choice a size r))
  /\ (forall i, In i (fst (choice a size r)) -> In i a).
Proof.
  intros Hnd Hsize. destruct (choice_without_replacement a size r Hsize) as [Hlen [rest Hp]].
  split; [assumption|]. split.
  - apply (Permutation_NoDup Hp) in Hnd. now apply NoDup_app_remove_r in Hnd.
  - intros i Hi. apply (Permutation_in _ (Permutation_sym Hp)).
    apply in_app_iff. now left.
Qed.

(** The loop adds one to exactly [need_to_add] distinct classes, all
    with a positive remainder. *)
Lemma add_by_remainder_spec (remainder : list nat) :
  forall values floored need_to_add r,
  decreasing values ->
  length floored = length remainder ->
  0 < need_to_add <= capacity remainder values ->
  exists added r',
    add_by_remainder remainder values floored need_to_add r
    = (Ok (increment added floored), r')
    /\ NoDup added
    /\ length added = need_to_add
    /\ (forall i, In i added ->
        i < length remainder /\ In (nth i remainder 0) values
        /\ 0 < nth i remainder 0).
Proof.
  induction values as [|v rest IH]; intros floored need r Hdec Hlen Hneed.
  - unfold capacity in Hneed. simpl in Hneed.
    assert (Hz : length (filter (fun x => negb (x =? 0) && false) remainder) = 0).
    { clear. induction remainder as [|x l IH]; [reflexivity|]. cbn [filter].
      now rewrite andb_false_r. }
    lia.
  - destruct (Nat.eq_dec v 0) as [->|Hv].
    { rewrite capacity_zero_head in Hneed by assumption. lia. }
    inversion Hdec as [|? ? Hdec' Hall]; subst.
    assert (Hni : ~ In v rest).
    { intros Hin. rewrite Forall_forall in Hall. specialize (Hall v Hin). lia. }
    rewrite capacity_cons in Hneed by (assumption || lia).
    cbn [add_by_remainder].
    set (inds := flatnonzero (Nat.eqb v) remainder).
    assert (Hinds : length inds = length (filter (Nat.eqb v) remainder))
      by apply flatnonzero_length.
    set (add_now := Nat.min (length inds) need).
    destruct (choice_subset inds add_now r (flatnonzero_NoDup _ _))
      as [Hclen [Hcnd Hcin]]; [unfold add_now; lia|].
    unfold bind, draw.
    destruct (choice inds add_now r) as [chosen r1] eqn:Ec. simpl in Hclen, Hcnd, Hcin.
    assert (Hchosen : forall i, In i chosen ->
              i < length remainder /\ nth i remainder 0 = v).
    { intros i Hi. apply Hcin in Hi. unfold inds in Hi.
      apply (flatnonzero_In (Nat.eqb v) remainder 0) in Hi.
      destruct Hi as [Hi He]. apply Nat.eqb_eq in He. now split. }
    destruct (Nat.eqb_spec (need - add_now) 0) as [Hdone|Hmore].
    + exists chosen, r1. split; [reflexivity|]. split; [assumption|].
      split; [unfold add_now in *; lia|].
      intros i Hi. destruct (Hchosen i Hi) as [Hlt He].
      split; [assumption|]. rewrite He. split; [now left|lia].
    + assert (Hall_taken : add_now = length inds) by (unfold add_now in *; lia).
      destruct (IH (increment chosen floored) (need - add_now) r1 Hdec')
        as [added [r' [Hrun [Hnd [Hlen' Hadded]]]]].
      * now rewrite increment_length.
      * lia.
      * exists (chosen ++ added), r'. rewrite Hrun.
        assert (Hdisj : forall i, In i chosen -> ~ In i added).
        { intros i Hi Hi'. destruct (Hchosen i Hi) as [_ He].
          destruct (Hadded i Hi') as [_ [Hin _]]. rewrite He in Hin. contradiction. }
        rewrite increment_app by assumption.
        split; [reflexivity|]. split.
        { apply NoDup_app; assumption. }
        split; [rewrite length_app; lia|].
        intros i Hi. apply in_app_iff in Hi. destruct Hi as [Hi|Hi].
        -- destruct (Hchosen i Hi) as [Hlt He].
           split; [assumption|]. rewrite He. split; [now left|lia].
        -- destruct (Hadded i Hi) as [Hlt [Hin Hpos]].
           split; [assumption|]. split; [now right|assumption].
Qed.

Lemma list_sum_map_mul (n : nat) (l : list nat) :
  list_sum (map (fun c => c * n) l) = list_sum l * n.
Proof. induction l as [|x l IH]; simpl; [reflexivity|]. rewrite IH. lia. Qed.

Lemma list_sum_div_mod (t : nat) (l : list nat) :
  t <> 0 ->
  list_sum (map (fun x => x / t) l) * t + list_sum (map (fun x => x mod t) l)
  = list_sum l.
Proof.
  intros Ht. induction l as [|x l IH]; simpl; [reflexivity|].
  pose proof (Nat.div_mod x t Ht). nia.
Qed.

Lemma list_sum_positive_count (t : nat) (l : list nat) :
  (forall x, In x l -> x < t) ->
  list_sum l <= length (filter (fun x => negb (x =? 0)) l) * (t - 1).
Proof.
  induction l as [|x l IH]; intros Hb; simpl; [lia|].
  assert (IH' := IH (fun y Hy => Hb y (or_intror Hy))).
  specialize (Hb x (or_introl eq_refl)).
  destruct (Nat.eqb_spec x 0); simpl; nia.
Qed.

Lemma capacity_unique_desc (remainder : list nat) :
  capacity remainder (unique_desc remainder)
  = length (filter (fun x => negb (x =? 0)) remainder).
Proof.
  unfold capacity. f_equal. apply filter_ext_in. intros x Hx.
  assert (He : existsb (Nat.eqb x) (unique_desc remainder) = true).
  { apply existsb_eqb_In. now apply unique_desc_In. }
  rewrite He. apply andb_true_r.
Qed.

Lemma nth_map_0 (f : nat -> nat) (l : list nat) (i : nat) :
  i < length l -> nth i (map f l) 0 = f (nth i l 0).
Proof.
  intros Hi. rewrite (nth_indep _ 0 (f 0)) by now rewrite length_map.
  apply map_nth.
Qed.

(** [_approximate_mode] returns one count per class; the counts add up
    to [n_draws], and each is the exact share
    [c * n_draws / total] rounded down or up. *)
Lemma approximate_mode_spec (class_counts : list nat) (n_draws : nat) (r : rng) :
  0 < list_sum class_counts ->
  n_draws <= list_sum class_counts ->
  exists res r',
    _approximate_mode class_counts n_draws r = (Ok res, r')
    /\ length res = length class_counts
    /\ list_sum res = n_draws
    /\ (forall i, i < length class_counts ->
        nth i class_counts 0 * n_draws < (nth i res 0 + 1) * list_sum class_counts
        /\ nth i res 0 * list_sum class_counts
           < nth i class_counts 0 * n_draws + list_sum class_counts).
Proof.
  intros Htotal Hdraws. unfold _approximate_mode.
  set (total := list_sum class_counts) in *.
  set (continuous := map (fun c => c * n_draws) class_counts).
  set (floored := map (fun x => x / total) continuous).
  set (remainder := map (fun x => x mod total) continuous).
  assert (Ht : total <> 0) by lia.
  assert (Hsum : list_sum floored * total + list_sum remainder = total * n_draws).
  { unfold floored, remainder. rewrite list_sum_div_mod by assumption.
    unfold continuous. now rewrite list_sum_map_mul. }
  assert (Hlen_f : length floored = length class_counts)
    by (unfold floored, continuous; now rewrite !length_map).
  assert (Hlen_r : length remainder = length class_counts)
    by (unfold remainder, continuous; now rewrite !length_map).
  assert (Hfloor : forall i, i < length class_counts ->
            nth i class_counts 0 * n_draws
            = total * nth i floored 0 + nth i remainder 0
            /\ nth i remainder 0 < total).
  { intros i Hi. unfold floored, remainder, continuous.
    rewrite !nth_map_0 by (rewrite ?length_map; assumption).
    split; [now apply Nat.div_mod|now apply Nat.mod_upper_bound]. }
  destruct (Nat.ltb_spec 0 (n_draws - list_sum floored)) as [Hneed|Hnone].
  - assert (Hcap : n_draws - list_sum floored
                   <= capacity remainder (unique_desc remainder)).
    { rewrite capacity_unique_desc.
      assert (Hb : forall x, In x remainder -> x < total).
      { intros x Hx. unfold remainder in Hx. apply in_map_iff in Hx.
        destruct Hx as [y [<- _]]. now apply Nat.mod_upper_bound. }
      pose proof (list_sum_positive_count total remainder Hb). nia. }
    destruct (add_by_remainder_spec remainder (unique_desc remainder) floored
                (n_draws - list_sum floored) r (unique_desc_decreasing _))
      as [added [r' [Hrun [Hnd [Hlen Hadded]]]]]; [congruence|lia|].
    exists (increment added floored), r'. split; [assumption|].
    split; [now rewrite increment_length|]. split.
    + rewrite increment_sum; [lia|assumption|].
      intros i Hi. destruct (Hadded i Hi) as [Hlt _]. congruence.
    + intros i Hi. rewrite increment_nth by congruence.
      destruct (Hfloor i Hi) as [Hdiv Hmod].
      destruct (existsb (Nat.eqb i) added) eqn:E.
      * apply existsb_eqb_In in E. destruct (Hadded i E) as [_ [_ Hpos]]. nia.
      * nia.
  - exists floored, r. split; [reflexivity|]. split; [assumption|].
    split; [nia|].
    intros i Hi. destruct (Hfloor i Hi) as [Hdiv Hmod]. nia.
Qed.

(** When the counts already add up to [n_draws], they are returned as
    they are. *)
Lemma approximate_mode_exact (class_counts : list nat) (n_draws : nat) (r : rng) :
  0 < n_draws ->
  list_sum class_counts = n_draws ->
  _approximate_mode class_counts n_draws r = (Ok class_counts, r).
Proof.
  intros Hpos Hsum. unfold _approximate_mode. rewrite Hsum.
  assert (Hfl : map (fun x => x / n_draws) (map (fun c => c * n_draws) class_counts)
                = class_counts).
  { rewrite map_map. rewrite <- (map_id class_counts) at 2.
    apply map_ext. intros c. apply Nat.div_mul. lia. }
  rewrite Hfl, Hsum, Nat.sub_diag. reflexivity.
Qed.

End ApproximateMode.

(** ** Classes and their positions *)

Lemma scalar_eqb_eq (a b : scalar) : scalar_eqb a b = true <-> a = b.
Proof.
  destruct a as [x|s], b as [y|t]; simpl.
  - destruct (Req_EM_T x y) as [->|Hne]; split; auto; try discriminate.
    intros [= Hxy]. contradiction.
  - split; discriminate.
  - split; discriminate.
  - rewrite String.eqb_eq. split; [now intros ->|now intros [= ->]].
Qed.

Lemma scalar_eqb_refl (a : scalar) : scalar_eqb a a = true.
Proof. now apply scalar_eqb_eq. Qed.

Lemma scalar_eqb_neq (a b : scalar) : scalar_eqb a b = false <-> a <> b.
Proof.
  rewrite <- scalar_eqb_eq. destruct (scalar_eqb a b); split; congruence.
Qed.

Lemma count_scalar_filter (c : scalar) (y : list scalar) :
  count_scalar c y = length (filter (fun v => scalar_eqb v c) y).
Proof.
  induction y as [|v y IH]; simpl; [reflexivity|].
  destruct (scalar_eqb v c); simpl; lia.
Qed.

Lemma count_scalar_flatnonzero (c : scalar) (y : list scalar) :
  count_scalar c y = length (flatnonzero (fun v => scalar_eqb v c) y).
Proof. now rewrite flatnonzero_length, count_scalar_filter. Qed.

Lemma count_scalar_zero (c : scalar) (y : list scalar) :
  ~ In c y -> count_scalar c y = 0.
Proof.
  induction y as [|v y IH]; simpl; intros Hn; [reflexivity|].
  destruct (scalar_eqb v c) eqn:E.
  - apply scalar_eqb_eq in E. subst. exfalso. apply Hn. now left.
  - apply IH. intros Hin. apply Hn. now right.
Qed.

Lemma unique_In (x : scalar) (l : list scalar) : In x (unique l) <-> In x l.
Proof.
  induction l as [|y l IH]; simpl; [tauto|].
  rewrite filter_In, IH. split.
  - intros [->|[Hin _]]; auto.
  - intros [->|Hin]; [now left|].
    destruct (scalar_eqb y x) eqn:E.
    + apply scalar_eqb_eq in E. now left.
    + right. split; [assumption|reflexivity].
Qed.

Lemma unique_NoDup (l : list scalar) : NoDup (unique l).
Proof.
  induction l as [|y l IH]; simpl; constructor.
  - rewrite filter_In. intros [_ Hc]. now rewrite scalar_eqb_refl in Hc.
  - now apply NoDup_filter.
Qed.

Lemma insert_scalar_Permutation (x : scalar) (l : list scalar) :
  Permutation (x :: l) (insert_scalar x l).
Proof.
  induction l as [|y l IH]; simpl; [reflexivity|].
  destruct (scalar_ltb y x); [|reflexivity].
  apply Permutation_trans with (y :: x :: l); [apply perm_swap|].
  now constructor.
Qed.

Lemma sort_scalar_Permutation (l : list scalar) :
  Permutation l (fold_right insert_scalar [] l).
Proof.
  induction l as [|x l IH]; simpl; [apply perm_nil|].
  apply Permutation_trans with (x :: fold_right insert_scalar [] l);
    [now constructor|apply insert_scalar_Permutation].
Qed.

Lemma np_unique_Permutation (y classes : list scalar) :
  np_unique y = Ok classes -> Permutation (unique y) classes.
Proof.
  unfold np_unique. destruct y as [|first y']; [intros [= <-]; apply perm_nil|].
  destruct (forallb _ _); [|discriminate]. intros [= <-].
  apply sort_scalar_Permutation.
Qed.

Lemma np_unique_classes (y classes : list scalar) :
  np_unique y = Ok classes ->
  NoDup classes /\ (forall c, In c classes <-> In c y).
Proof.
  intros Hu. pose proof (np_unique_Permutation y classes Hu) as Hp. split.
  - apply (Permutation_NoDup Hp). apply unique_NoDup.
  - intros c. rewrite <- (unique_In c y). split; intros Hc.
    + now apply (Permutation_in _ (Permutation_sym Hp)).
    + now apply (Permutation_in _ Hp).
Qed.

Lemma flatnonzero_none {A : Type} (p : A -> bool) (l : list A) :
  (forall x, In x l -> p x = false) -> flatnonzero p l = [].
Proof.
  unfold flatnonzero. generalize 0 as s.
  induction l as [|x l IH]; intros s Hp; [reflexivity|].
  rewrite flatnonzero_from_cons, (Hp x (or_introl eq_refl)).
  simpl. apply IH. intros y Hy. apply Hp. now right.
Qed.

(** The positions of the classes, class by class, are all the
    positions. *)
Lemma class_indices_partition (y classes : list scalar) :
  NoDup classes ->
  Permutation
    (List.concat (map (fun c => flatnonzero (fun v => scalar_eqb v c) y) classes))
    (flatnonzero (fun v => existsb (scalar_eqb v) classes) y).
Proof.
  induction 1 as [|c classes Hni Hnd IH]; simpl.
  - rewrite flatnonzero_none; [apply perm_nil|reflexivity].
  - eapply Permutation_trans; [apply Permutation_app_head, IH|].
    apply (flatnonzero_from_disjoint
             (fun v => scalar_eqb v c) (fun v => existsb (scalar_eqb v) classes) y 0).
    intros v _ Hv. apply scalar_eqb_eq in Hv. subst v.
    apply not_true_is_false. intros Hc. apply existsb_exists in Hc.
    destruct Hc as [c' [Hc' He]]. apply scalar_eqb_eq in He. now subst.
Qed.

Lemma class_indices_all (y classes : list scalar) :
  NoDup classes -> (forall c, In c y -> In c classes) ->
  Permutation
    (List.concat (map (fun c => flatnonzero (fun v => scalar_eqb v c) y) classes))
    (seq 0 (length y)).
Proof.
  intros Hnd Hall. eapply Permutation_trans; [now apply class_indices_partition|].
  rewrite flatnonzero_all; [reflexivity|].
  intros v Hv. apply existsb_exists. exists v. split; [now apply Hall|].
  apply scalar_eqb_refl.
Qed.

Lemma length_concat_map {A : Type} (f : A -> list nat) (l : list A) :
  length (List.concat (map f l)) = list_sum (map (fun a => length (f a)) l).
Proof.
  induction l as [|a l IH]; simpl; [reflexivity|]. now rewrite length_app, IH.
Qed.

Lemma class_counts_sum (y classes : list scalar) :
  NoDup classes -> (forall c, In c y -> In c classes) ->
  list_sum (map (fun c => count_scalar c y) classes) = length y.
Proof.
  intros Hnd Hall.
  rewrite (map_ext _ (fun c => length (flatnonzero (fun v => scalar_eqb v c) y)))
    by (intros; apply count_scalar_flatnonzero).
  rewrite <- length_concat_map.
  rewrite (Permutation_length (class_indices_all y classes Hnd Hall)). apply length_seq.
Qed.

(** ** The per-class loop *)

Lemma take_clip_Permutation (perm idx : list nat) :
  Permutation (seq 0 (length idx)) perm -> Permutation idx (take_clip perm idx).
Proof.
  intros Hp. unfold take_clip.
  rewrite (map_ext_in _ (fun i => nth i idx 0)).
  - rewrite <- (map_nth_seq idx 0) at 1. now apply Permutation_map.
  - intros i Hi. apply (Permutation_in _ (Permutation_sym Hp)) in Hi.
    apply in_seq in Hi. f_equal. lia.
Qed.

Lemma class_split_Permutation ci ns ts trs tes :
  class_split ci ns ts trs tes ->
  Permutation (List.concat trs ++ List.concat tes) (List.concat ci).
Proof.
  induction 1 as [|idx ci n ns t ts tr trs te tes Hp Hn Ht _ IH]; simpl.
  - apply perm_nil.
  - rewrite <- app_assoc.
    eapply Permutation_trans;
      [apply Permutation_app_head; rewrite app_assoc;
       apply Permutation_app_tail, Permutation_app_comm|].
    rewrite <- !app_assoc. rewrite (app_assoc tr te).
    now apply Permutation_app.
Qed.

Lemma class_split_lengths ci ns ts trs tes :
  class_split ci ns ts trs tes ->
  length (List.concat trs) = list_sum ns /\ length (List.concat tes) = list_sum ts.
Proof.
  induction 1 as [|idx ci n ns t ts tr trs te tes Hp Hn Ht _ [IH1 IH2]]; simpl.
  - split; reflexivity.
  - rewrite !length_app. lia.
Qed.

Section SplitClasses.

Context {rng : Type} `{RandomStateLaws rng}.

Lemma split_classes_spec (class_indices : list (list nat)) :
  forall n_i t_i r,
  length n_i = length class_indices ->
  length t_i = length class_indices ->
  (forall j, j < length class_indices ->
     nth j n_i 0 + nth j t_i 0 = length (nth j class_indices [])) ->
  exists trs tes r',
    split_classes class_indices n_i t_i r = (Ok (List.concat trs, List.concat tes), r')
    /\ class_split class_indices n_i t_i trs tes.
Proof.
  induction class_indices as [|idx ci IH]; intros n_i t_i r Hn Ht Hfit.
  - destruct n_i, t_i; try discriminate.
    exists [], [], r. split; [reflexivity|constructor].
  - destruct n_i as [|n ns], t_i as [|t ts]; try discriminate.
    cbn [split_classes]. unfold bind at 1, draw.
    pose proof (permutation_Permutation (seq 0 (length idx)) r) as Hperm.
    destruct (permutation (seq 0 (length idx)) r) as [perm r1]. simpl in Hperm.
    destruct (IH ns ts r1) as [trs [tes [r' [Hrun Hcs]]]].
    + simpl in Hn. lia.
    + simpl in Ht. lia.
    + intros j Hj. apply (Hfit (S j)). simpl. lia.
    + unfold bind. rewrite Hrun. unfold ret. simpl fst. simpl snd.
      set (pic := take_clip perm idx).
      exists (firstn n pic :: trs), (firstn t (skipn n pic) :: tes), r'.
      split; [reflexivity|].
      pose proof (take_clip_Permutation perm idx Hperm) as Hpic. fold pic in Hpic.
      assert (Hlen : length pic = n + t).
      { rewrite <- (Permutation_length Hpic). symmetry.
        apply (Hfit 0). simpl. lia. }
      constructor; [| | |assumption].
      * rewrite (firstn_all2 (n := t)) by (rewrite length_skipn; lia).
        rewrite firstn_skipn. now apply Permutation_sym.
      * rewrite length_firstn. lia.
      * rewrite length_firstn, length_skipn. lia.
Qed.

End SplitClasses.

(** In the parts cut out of the class positions, the positions that
    carry the label of class [j] are those of class [j]: [n_j] in the
    training part and [t_j] in the test part. *)
Lemma class_split_counts (y : list scalar) (d : scalar) :
  forall classes ns ts trs tes,
  NoDup classes ->
  class_split (map (fun c => flatnonzero (fun v => scalar_eqb v c) y) classes)
    ns ts trs tes ->
  forall j, j < length classes ->
  length (filter (fun i => scalar_eqb (nth i y d) (nth j classes d)) (List.concat trs))
  = nth j ns 0
  /\ length (filter (fun i => scalar_eqb (nth i y d) (nth j classes d)) (List.concat tes))
     = nth j ts 0.
Proof.
  assert (Hlabel : forall c i, In i (flatnonzero (fun v => scalar_eqb v c) y) ->
            nth i y d = c).
  { intros c i Hi. apply (flatnonzero_In _ y d) in Hi. now apply scalar_eqb_eq. }
  assert (Hkeep : forall c l, (forall i, In i l -> nth i y d = c) ->
            filter (fun i => scalar_eqb (nth i y d) c) l = l).
  { intros c l Hl. induction l as [|i l IH]; simpl; [reflexivity|].
    rewrite (Hl i (or_introl eq_refl)), scalar_eqb_refl.
    f_equal. apply IH. intros k Hk. apply Hl. now right. }
  assert (Hdrop : forall c l, (forall i, In i l -> nth i y d <> c) ->
            filter (fun i => scalar_eqb (nth i y d) c) l = []).
  { intros c l Hl. induction l as [|i l IH]; simpl; [reflexivity|].
    destruct (scalar_eqb (nth i y d) c) eqn:E.
    - apply scalar_eqb_eq in E. exfalso. now apply (Hl i (or_introl eq_refl)).
    - apply IH. intros k Hk. apply Hl. now right. }
  induction classes as [|c classes IH]; intros ns ts trs tes Hnd Hcs j Hj;
    [simpl in Hj; lia|].
  simpl in Hcs. inversion Hcs as [|idx ci n ns' t ts' tr trs' te tes' Hp Hn Ht Hcs']; subst.
  inversion Hnd as [|? ? Hni Hnd']; subst.
  assert (Hpart : forall i, In i (tr ++ te) -> nth i y d = c).
  { intros i Hi. apply Hlabel. now apply (Permutation_in _ Hp). }
  assert (Hrest : forall i, In i (List.concat trs' ++ List.concat tes') ->
            In (nth i y d) classes).
  { intros i Hi. apply (Permutation_in _ (class_split_Permutation _ _ _ _ _ Hcs')) in Hi.
    apply in_concat in Hi. destruct Hi as [l [Hl Hi]].
    apply in_map_iff in Hl. destruct Hl as [c' [<- Hc']].
    now rewrite (Hlabel c' i Hi). }
  cbn [List.concat]. rewrite !filter_app, !length_app.
  destruct j as [|j]; cbn [nth].
  - rewrite (Hkeep c tr) by (intros i Hi; apply Hpart, in_app_iff; auto).
    rewrite (Hkeep c te) by (intros i Hi; apply Hpart, in_app_iff; auto).
    rewrite (Hdrop c (List.concat trs')), (Hdrop c (List.concat tes')).
    + simpl. lia.
    + intros i Hi Hc. apply Hni. rewrite <- Hc. apply Hrest, in_app_iff. now right.
    + intros i Hi Hc. apply Hni. rewrite <- Hc. apply Hrest, in_app_iff. now left.
  - assert (Hjn : In (nth j classes d) classes) by (apply nth_In; simpl in Hj; lia).
    rewrite (Hdrop (nth j classes d) tr), (Hdrop (nth j classes d) te).
    + destruct (IH ns' ts' trs' tes' Hnd' Hcs' j) as [IH1 IH2]; [simpl in Hj; lia|].
      simpl. now rewrite IH1, IH2.
    + intros i Hi Hc. apply Hni. rewrite <- (Hpart i) by (apply in_app_iff; auto).
      now rewrite Hc.
    + intros i Hi Hc. apply Hni. rewrite <- (Hpart i) by (apply in_app_iff; auto).
      now rewrite Hc.
Qed.

(** ** [StratifiedShuffleSplit] *)

Lemma list_sum_sub_combine (a b : list nat) :
  length a = length b ->
  (forall j, j < length a -> nth j b 0 <= nth j a 0) ->
  list_sum (map (fun p => fst p - snd p) (combine a b)) + list_sum b = list_sum a.
Proof.
  revert b. induction a as [|x a IH]; intros [|z b] Hlen Hle; try discriminate;
    [reflexivity|].
  simpl. specialize (IH b).
  assert (Hx := Hle 0 ltac:(simpl; lia)). simpl in Hx.
  rewrite <- IH.
  - lia.
  - simpl in Hlen. lia.
  - intros j Hj. apply (Hle (S j)). simpl. lia.
Qed.

Lemma nth_sub_combine (a b : list nat) (j : nat) :
  length a = length b -> j < length a ->
  nth j (map (fun p => fst p - snd p) (combine a b)) 0 = nth j a 0 - nth j b 0.
Proof.
  revert b j. induction a as [|x a IH]; intros [|z b] j Hlen Hj; try discriminate;
    [simpl in Hj; lia|].
  destruct j as [|j]; simpl; [reflexivity|].
  apply IH; simpl in *; lia.
Qed.

Lemma count_scalar_map {A : Type} (f : A -> scalar) (c : scalar) (l : list A) :
  count_scalar c (map f l) = length (filter (fun i => scalar_eqb (f i) c) l).
Proof.
  induction l as [|i l IH]; simpl; [reflexivity|].
  destruct (scalar_eqb (f i) c); simpl; lia.
Qed.

Lemma np_min_lower_bound (a : list nat) (b : nat) :
  a <> [] -> (forall x, In x a -> b <= x) ->
  exists least, np_min a = Ok least /\ b <= least.
Proof.
  destruct a as [|x rest]; [congruence|]. intros _ Hb. simpl.
  eexists. split; [reflexivity|].
  assert (Hx := Hb x (or_introl eq_refl)).
  assert (Hrest : forall z, In z rest -> b <= z) by (intros; apply Hb; now right).
  clear Hb. induction rest as [|z rest IH]; simpl; [assumption|].
  assert (b <= z) by (apply Hrest; now left).
  assert (b <= fold_right Nat.min x rest) by (apply IH; intros; apply Hrest; now right).
  lia.
Qed.

Lemma np_min_In (a : list nat) (least : nat) :
  np_min a = Ok least -> In least a.
Proof.
  destruct a as [|x rest]; [discriminate|]. simpl. intros [= <-].
  induction rest as [|z rest IH]; simpl; [now left|].
  destruct (Nat.min_spec z (fold_right Nat.min x rest)) as [[_ ->]|[_ ->]].
  - right. now left.
  - destruct IH as [IH|IH]; [now left|right; now right].
Qed.

Section Stratified.

Context {rng : Type} `{RandomStateLaws rng}.

(** What the stratified split computes once its checks have passed. *)
Lemma StratifiedShuffleSplit_spec
    (y classes : list scalar) (n_test n_train seed : nat) (d : scalar) :
  n_train + n_test = length y ->
  0 < n_train -> 0 < n_test ->
  np_unique y = Ok classes ->
  (forall c, In c classes -> 2 <= count_scalar c y) ->
  length classes <= n_train ->
  length classes <= n_test ->
  exists train test,
    (forall global,
        StratifiedShuffleSplit y n_test n_train (Some seed) global
        = (Ok (train, test), global))
    /\ Permutation (train ++ test) (seq 0 (length y))
    /\ length train = n_train
    /\ length test = n_test
    /\ (forall c,
        let total := count_scalar c y in
        let in_train := count_scalar c (map (fun i => nth i y d) train) in
        let in_test := count_scalar c (map (fun i => nth i y d) test) in
        in_train + in_test = total
        /\ total * n_train < (in_train + 1) * length y
        /\ in_train * length y < total * n_train + length y
        /\ total * n_test < (in_test + 1) * length y
        /\ in_test * length y < total * n_test + length y).
Proof.
  intros Hsizes Htrain Htest Hu Hmin Hktrain Hktest.
  destruct (np_unique_classes y classes Hu) as [Hnd Hcl].
  set (N := length y) in *.
  set (class_counts := map (fun c => count_scalar c y) classes).
  set (class_indices :=
         map (fun c => flatnonzero (fun v => scalar_eqb v c) y) classes).
  assert (Hall : forall c, In c y -> In c classes) by (intros c; apply Hcl).
  assert (Htotal : list_sum class_counts = N) by now apply class_counts_sum.
  assert (Hlen_cc : length class_counts = length classes)
    by (unfold class_counts; now rewrite length_map).
  assert (Hcc : forall j, j < length classes ->
            nth j class_counts 0 = count_scalar (nth j classes d) y).
  { intros j Hj. unfold class_counts.
    rewrite (nth_indep _ 0 (count_scalar d y)) by now rewrite length_map.
    apply (map_nth (fun c => count_scalar c y)). }
  (* the draws, from the seeded generator *)
  destruct (approximate_mode_spec class_counts n_train (RandomState seed))
    as [n_i [r1 [Hrun1 [Hlen1 [Hsum1 Hshare]]]]]; [lia|lia|].
  rewrite Htotal in Hshare.
  assert (Hle : forall j, j < length class_counts ->
            nth j n_i 0 <= nth j class_counts 0).
  { intros j Hj. destruct (Hshare j Hj) as [_ Hup]. nia. }
  set (remaining := map (fun p => fst p - snd p) (combine class_counts n_i)).
  assert (Hrem_sum : list_sum remaining = n_test).
  { pose proof (list_sum_sub_combine class_counts n_i (eq_sym Hlen1) Hle) as Hs.
    fold remaining in Hs. lia. }
  assert (Hlen_rem : length remaining = length class_counts).
  { unfold remaining. rewrite length_map, length_combine. lia. }
  assert (Hrun2 : _approximate_mode remaining n_test r1 = (Ok remaining, r1))
    by now apply approximate_mode_exact.
  assert (Hlen_ci : length class_indices = length classes)
    by (unfold class_indices; now rewrite length_map).
  assert (Hci : forall j, j < length classes ->
            length (nth j class_indices []) = nth j class_counts 0).
  { intros j Hj. rewrite (Hcc j Hj). unfold class_indices.
    rewrite (nth_indep _ [] (flatnonzero (fun v => scalar_eqb v d) y))
      by now rewrite length_map.
    rewrite (map_nth (fun c => flatnonzero (fun v => scalar_eqb v c) y)).
    symmetry. apply count_scalar_flatnonzero. }
  destruct (split_classes_spec class_indices n_i remaining r1)
    as [trs [tes [r2 [Hrun3 Hcs]]]]; [lia|lia| |].
  { intros j Hj. rewrite Hlen_ci in Hj. rewrite (Hci j Hj). unfold remaining.
    rewrite nth_sub_combine by lia. specialize (Hle j). lia. }
  pose proof (permutation_Permutation (List.concat trs) r2) as Hp1.
  destruct (permutation (List.concat trs) r2) as [train r3] eqn:Ep1. simpl in Hp1.
  pose proof (permutation_Permutation (List.concat tes) r3) as Hp2.
  destruct (permutation (List.concat tes) r3) as [test r4] eqn:Ep2. simpl in Hp2.
  exists train, test.
  destruct (class_split_lengths _ _ _ _ _ Hcs) as [Hl1 Hl2].
  assert (Hperm : Permutation (train ++ test) (seq 0 N)).
  { eapply Permutation_trans;
      [apply Permutation_app; apply Permutation_sym; eassumption|].
    eapply Permutation_trans; [apply (class_split_Permutation _ _ _ _ _ Hcs)|].
    now apply class_indices_all. }
  split; [|split; [exact Hperm|split; [|split]]].
  - intros global. unfold StratifiedShuffleSplit.
    assert (Hv : _validate_shuffle_split_int (length y) n_test n_train
                 = Ok (n_train, n_test)).
    { unfold _validate_shuffle_split_int. fold N.
      destruct (Nat.leb_spec N n_test); [lia|].
      destruct (Nat.eqb_spec n_test 0); [lia|].
      destruct (Nat.leb_spec N n_train); [lia|].
      destruct (Nat.eqb_spec n_train 0); [lia|].
      destruct (Nat.ltb_spec N (n_train + n_test)); [lia|]. reflexivity. }
    unfold bind at 1, lift at 1. rewrite Hv. cbn [fst snd].
    unfold bind at 1, lift at 1. rewrite Hu.
    fold class_counts. fold class_indices.
    destruct (np_min_lower_bound class_counts 2) as [least [Hleast Hl]].
    { destruct class_counts; [simpl in Htotal; lia|discriminate]. }
    { intros x Hx. unfold class_counts in Hx. apply in_map_iff in Hx.
      destruct Hx as [c [<- Hc]]. now apply Hmin. }
    unfold bind at 1, lift at 1. rewrite Hleast.
    destruct (Nat.ltb_spec least 2); [lia|].
    destruct (Nat.ltb_spec n_train (length classes)); [lia|].
    destruct (Nat.ltb_spec n_test (length classes)); [lia|].
    unfold with_random_state. f_equal.
    unfold bind at 1. rewrite Hrun1. fold remaining.
    unfold bind at 1. rewrite Hrun2.
    unfold bind at 1. rewrite Hrun3. cbn [fst snd].
    unfold bind at 1, draw at 1. rewrite Ep1.
    unfold bind at 1, draw at 1. rewrite Ep2. reflexivity.
  - rewrite <- (Permutation_length Hp1). lia.
  - rewrite <- (Permutation_length Hp2). lia.
  - intros c. cbv zeta.
    rewrite (count_scalar_Permutation c _ _
               (Permutation_map (fun i => nth i y d) (Permutation_sym Hp1))).
    rewrite (count_scalar_Permutation c _ _
               (Permutation_map (fun i => nth i y d) (Permutation_sym Hp2))).
    rewrite !count_scalar_map.
    destruct (in_dec (fun a b => match Bool.bool_dec (scalar_eqb a b) true with
                                 | left e => left (proj1 (scalar_eqb_eq a b) e)
                                 | right n =>
                                     right (fun e => n (proj2 (scalar_eqb_eq a b) e))
                                 end) c classes) as [Hin|Hnin].
    + destruct (In_nth classes c d Hin) as [j [Hj Hjc]]. subst c.
      destruct (class_split_counts y d classes n_i remaining trs tes Hnd Hcs j Hj)
        as [Hc1 Hc2].
      rewrite Hc1, Hc2. rewrite <- (Hcc j Hj).
      assert (Hj' : j < length class_counts) by lia.
      destruct (Hshare j Hj') as [Hlo Hup]. specialize (Hle j Hj').
      unfold remaining. rewrite nth_sub_combine by lia.
      assert (Hn : n_test = N - n_train) by lia.
      split; [lia|]. split; [assumption|]. split; [assumption|]. nia.
    + assert (Hzero : count_scalar c y = 0).
      { apply count_scalar_zero. intros Hc. apply Hnin. now apply Hall. }
      assert (Hnone : forall l, (forall i, In i l -> i < N) ->
                length (filter (fun i => scalar_eqb (nth i y d) c) l) = 0).
      { intros l Hl. apply filter_length_zero. intros i Hi.
        apply scalar_eqb_neq. intros Hc. apply Hnin. apply Hall. rewrite <- Hc.
        apply nth_In. now apply Hl. }
      assert (Hb : forall i, In i (List.concat trs ++ List.concat tes) -> i < N).
      { intros i Hi.
        apply (Permutation_in _ (class_split_Permutation _ _ _ _ _ Hcs)) in Hi.
        apply (Permutation_in _ (class_indices_all y classes Hnd Hall)) in Hi.
        apply in_seq in Hi. lia. }
      rewrite Hzero, !Hnone by (intros i Hi; apply Hb, in_app_iff; auto).
      lia.
Qed.

End Stratified.

(** ** [train_test_split] *)

Lemma dropna_no_nan_length {A : Type} (v : list (option A)) :
  hasnans v = false -> length (dropna v) = length v.
Proof.
  unfold hasnans, dropna. induction v as [|[x|] v IH]; simpl; intros Hv;
    [reflexivity| |discriminate].
  now rewrite IH.
Qed.

Lemma items_length (s : Series) : length (items s) = Series_len s.
Proof. destruct s; simpl; [apply length_map|reflexivity]. Qed.

Lemma check_array_y_length (s : Series) (labels : list scalar) :
  check_array_y s = Ok labels -> length labels = Series_len s.
Proof.
  unfold check_array_y. destruct (hasnans (items s)) eqn:E; [discriminate|].
  intros [= <-]. now rewrite dropna_no_nan_length, items_length.
Qed.

Lemma np_min_le (a : list nat) (least : nat) :
  np_min a = Ok least -> forall x, In x a -> least <= x.
Proof.
  destruct a as [|x0 rest]; [discriminate|]. simpl. intros [= <-].
  induction rest as [|z rest IH]; simpl.
  - intros x [->|[]]. lia.
  - intros x [->|[->|Hx]].
    + specialize (IH x (or_introl eq_refl)). lia.
    + lia.
    + specialize (IH x (or_intror Hx)). lia.
Qed.

Lemma ceil_div_pos (n : nat) : 0 < n -> 0 < ceil_div (1 * n) 5.
Proof.
  intros Hn. unfold ceil_div. apply Nat.div_str_pos. lia.
Qed.

Lemma ceil_div_le (n : nat) : ceil_div (1 * n) 5 <= n.
Proof.
  unfold ceil_div. destruct n as [|n]; [reflexivity|].
  apply Nat.Div0.div_le_upper_bound. lia.
Qed.

(** One step of a computation whose first action is a known pure
    result. *)
Ltac run_lift E := unfold bind at 1, lift at 1; rewrite E; cbn [fst snd].

Section TrainTestSplit.

Context {rng : Type} `{RandomStateLaws rng}.

Lemma _validate_shuffle_split_int_ok (n n_test n_train : nat) :
  n_train + n_test = n -> 0 < n_train -> 0 < n_test ->
  _validate_shuffle_split_int n n_test n_train = Ok (n_train, n_test).
Proof.
  intros Hsizes Htrain Htest. unfold _validate_shuffle_split_int.
  destruct (Nat.leb_spec n n_test); [lia|].
  destruct (Nat.eqb_spec n_test 0); [lia|].
  destruct (Nat.leb_spec n n_train); [lia|].
  destruct (Nat.eqb_spec n_train 0); [lia|].
  destruct (Nat.ltb_spec n (n_train + n_test)); [lia|]. reflexivity.
Qed.

(** The checks of the stratified split, in the order of the code. *)
Lemma StratifiedShuffleSplit_checks
    (y : list scalar) (n_test n_train seed : nat) (global : rng) :
  n_train + n_test = length y ->
  0 < n_train -> 0 < n_test ->
  match np_unique y with
  | Raise e =>
      StratifiedShuffleSplit y n_test n_train (Some seed) global = (Raise e, global)
  | Ok classes =>
      match np_min (map (fun c => count_scalar c y) classes) with
      | Raise e =>
          StratifiedShuffleSplit y n_test n_train (Some seed) global
          = (Raise e, global)
      | Ok least =>
          least < 2 \/ n_train < length classes \/ n_test < length classes ->
          StratifiedShuffleSplit y n_test n_train (Some seed) global
          = (Raise ValueError, global)
      end
  end.
Proof.
  intros Hsizes Htrain Htest.
  pose proof (_validate_shuffle_split_int_ok _ _ _ Hsizes Htrain Htest) as Hv.
  destruct (np_unique y) as [classes|e] eqn:Hu.
  - destruct (np_min (map (fun c => count_scalar c y) classes)) as [least|e] eqn:Hm.
    + intros Hfew. unfold StratifiedShuffleSplit.
      run_lift Hv. run_lift Hu. run_lift Hm.
      destruct (Nat.ltb_spec least 2); [reflexivity|].
      destruct (Nat.ltb_spec n_train (length classes)); [reflexivity|].
      destruct (Nat.ltb_spec n_test (length classes)); [reflexivity|]. lia.
    + unfold StratifiedShuffleSplit. run_lift Hv. run_lift Hu. run_lift Hm.
      reflexivity.
  - unfold StratifiedShuffleSplit. run_lift Hv. run_lift Hu. reflexivity.
Qed.

(** The stratified split either raises, or its checks have passed. *)
Lemma StratifiedShuffleSplit_cases
    (y : list scalar) (n_test n_train seed : nat) (global : rng) :
  n_train + n_test = length y ->
  0 < n_train -> 0 < n_test ->
  (exists e,
      StratifiedShuffleSplit y n_test n_train (Some seed) global = (Raise e, global))
  \/ (exists classes,
        np_unique y = Ok classes
        /\ (forall c, In c classes -> 2 <= count_scalar c y)
        /\ length classes <= n_train
        /\ length classes <= n_test).
Proof.
  intros Hsizes Htrain Htest.
  pose proof (StratifiedShuffleSplit_checks y n_test n_train seed global
                Hsizes Htrain Htest) as Hchecks.
  destruct (np_unique y) as [classes|e]; [|left; now exists e].
  destruct (np_min (map (fun c => count_scalar c y) classes)) as [least|e] eqn:Hm;
    [|left; now exists e].
  destruct (Nat.ltb_spec least 2) as [Hl|Hl];
    [left; exists ValueError; apply Hchecks; now left|].
  destruct (Nat.ltb_spec n_train (length classes)) as [Hk1|Hk1];
    [left; exists ValueError; apply Hchecks; right; now left|].
  destruct (Nat.ltb_spec n_test (length classes)) as [Hk2|Hk2];
    [left; exists ValueError; apply Hchecks; right; now right|].
  right. exists classes. split; [reflexivity|]. split; [|split; assumption].
  intros c Hc. pose proof (np_min_le _ _ Hm (count_scalar c y)) as Hle.
  assert (Hin : In (count_scalar c y) (map (fun c => count_scalar c y) classes))
    by (apply in_map_iff; now exists c).
  specialize (Hle Hin). lia.
Qed.

(** With too few rows in a class, or fewer rows than classes on one
    side, the stratified split raises [ValueError]. *)
Lemma StratifiedShuffleSplit_raises
    (y classes : list scalar) (n_test n_train seed : nat) (global : rng) :
  n_train + n_test = length y ->
  0 < n_train -> 0 < n_test ->
  np_unique y = Ok classes ->
  (exists c, In c classes /\ count_scalar c y < 2)
  \/ n_train < length classes \/ n_test < length classes ->
  StratifiedShuffleSplit y n_test n_train (Some seed) global
  = (Raise ValueError, global).
Proof.
  intros Hsizes Htrain Htest Hu Hfew.
  pose proof (StratifiedShuffleSplit_checks y n_test n_train seed global
                Hsizes Htrain Htest) as Hchecks.
  rewrite Hu in Hchecks.
  destruct (np_min (map (fun c => count_scalar c y) classes)) as [least|e] eqn:Hm.
  - apply Hchecks. destruct Hfew as [[c [Hc Hlt]]|[Hlt|Hlt]]; auto.
    left. pose proof (np_min_le _ _ Hm (count_scalar c y)) as Hle.
    assert (Hin : In (count_scalar c y) (map (fun c => count_scalar c y) classes))
      by (apply in_map_iff; now exists c).
    specialize (Hle Hin). lia.
  - rewrite Hchecks. destruct classes as [|c0 classes']; [|discriminate].
    simpl in Hm. now injection Hm as <-.
Qed.

Lemma lookup_name_In {A : Type} (name : string) (l : list (string * A)) (a : A) :
  lookup name l = Some a -> In name (map fst l).
Proof.
  intros Hl. apply lookup_In in Hl. apply in_map_iff. now exists (name, a).
Qed.

Lemma getitem_inv (name : string) (df : DataFrame) (s : Series) :
  getitem name df = Ok s -> lookup name (cols df) = Some s.
Proof.
  unfold getitem. destruct (lookup name (cols df)); [now intros [= ->]|discriminate].
Qed.

Lemma getitem_len (name : string) (df : DataFrame) (s : Series) :
  rectangular df -> getitem name df = Ok s -> Series_len s = shape0 df.
Proof.
  intros Hrect Hg. apply getitem_inv, lookup_In in Hg.
  unfold rectangular in Hrect. rewrite Forall_forall in Hrect.
  exact (Hrect _ Hg).
Qed.

Lemma drop_ok (name : string) (df : DataFrame) (s : Series) :
  getitem name df = Ok s -> drop name df = Ok (features name df).
Proof.
  intros Hg. unfold drop.
  assert (He : existsb (String.eqb name) (columns df) = true).
  { apply existsb_exists. exists name. split; [|apply String.eqb_refl].
    apply getitem_inv in Hg. now apply lookup_name_In in Hg. }
  now rewrite He.
Qed.

Lemma features_rectangular (name : string) (df : DataFrame) :
  rectangular df -> rectangular (features name df).
Proof.
  unfold rectangular, features. simpl. rewrite !Forall_forall.
  intros Hrect c Hc. apply filter_In in Hc. now apply Hrect.
Qed.

Lemma _validate_shuffle_split_fifth (n : nat) :
  _validate_shuffle_split n test_size
  = if n - ceil_div (1 * n) 5 =? 0 then Raise ValueError
    else Ok (n - ceil_div (1 * n) 5, ceil_div (1 * n) 5).
Proof. reflexivity. Qed.

(** Cell 5 up to the stratified split, on a frame that has the class
    column. *)
Lemma split_unfold (balanced : DataFrame) (s : Series) (global : rng) :
  rectangular balanced ->
  getitem class_column balanced = Ok s ->
  split balanced global
  = (sizes <- lift (_validate_shuffle_split (shape0 balanced) test_size) ;;
     labels <- lift (check_array_y s) ;;
     parts <- StratifiedShuffleSplit labels (snd sizes) (fst sizes) (Some 42) ;;
     Xtr <- lift (DataFrame_take (fst parts) (features class_column balanced)) ;;
     Xte <- lift (DataFrame_take (snd parts) (features class_column balanced)) ;;
     ytr <- lift (take (fst parts) labels) ;;
     yte <- lift (take (snd parts) labels) ;;
     ret {| X_train := Xtr; X_test := Xte; y_train := ytr; y_test := yte |}) global.
Proof.
  intros Hrect Hg. unfold split.
  run_lift (drop_ok _ _ _ Hg). run_lift Hg. unfold train_test_split.
  change (shape0 (features class_column balanced)) with (shape0 balanced).
  rewrite (getitem_len _ _ _ Hrect Hg), Nat.eqb_refl. reflexivity.
Qed.

(** Cell 5 returns when every class has two rows or more and each side
    gets at least one row per class. *)
Lemma split_ok (balanced : DataFrame) (s : Series) (labels classes : list scalar)
    (d : scalar) :
  rectangular balanced ->
  getitem class_column balanced = Ok s ->
  check_array_y s = Ok labels ->
  np_unique labels = Ok classes ->
  let n := shape0 balanced in
  let n_test := ceil_div (1 * n) 5 in
  let n_train := n - n_test in
  0 < n_train ->
  (forall c, In c classes -> 2 <= count_scalar c labels) ->
  length classes <= n_train ->
  length classes <= n_test ->
  exists train test,
    (forall global,
        split balanced global
        = (Ok {| X_train := DataFrame_gather train (features class_column balanced);
                 X_test := DataFrame_gather test (features class_column balanced);
                 y_train := map (fun i => nth i labels d) train;
                 y_test := map (fun i => nth i labels d) test |}, global))
    /\ Permutation (train ++ test) (seq 0 n)
    /\ length train = n_train
    /\ length test = n_test
    /\ (forall c,
        let total := count_scalar c labels in
        let in_train := count_scalar c (map (fun i => nth i labels d) train) in
        let in_test := count_scalar c (map (fun i => nth i labels d) test) in
        in_train + in_test = total
        /\ total * n_train < (in_train + 1) * n
        /\ in_train * n < total * n_train + n
        /\ total * n_test < (in_test + 1) * n
        /\ in_test * n < total * n_test + n).
Proof.
  intros Hrect Hg Hy Hu n n_test n_train Htrain Hmin Hk1 Hk2.
  assert (Hlen : length labels = n).
  { rewrite (check_array_y_length _ _ Hy). now apply (getitem_len class_column). }
  assert (Hle : n_test <= n) by apply ceil_div_le.
  assert (Htest : 0 < n_test) by (apply ceil_div_pos; lia).
  destruct (StratifiedShuffleSplit_spec labels classes n_test n_train 42 d)
    as [train [test [Hrun [Hperm [Hl1 [Hl2 Hprop]]]]]]; try assumption; [lia|].
  rewrite Hlen in Hperm, Hprop.
  exists train, test. split; [|repeat split; try assumption; apply Hprop].
  intros global. rewrite (split_unfold _ _ _ Hrect Hg).
  rewrite _validate_shuffle_split_fifth. fold n n_test n_train.
  destruct (Nat.eqb_spec n_train 0); [lia|].
  unfold bind at 1, lift at 1. cbn [fst snd]. run_lift Hy.
  unfold bind at 1. rewrite Hrun. cbn [fst snd].
  assert (Hb : Forall (fun i => i < n) (train ++ test))
    by now apply Permutation_seq_bound, Permutation_sym.
  apply Forall_app in Hb. destruct Hb as [Hb1 Hb2].
  rewrite !DataFrame_take_ok
    by (try apply features_rectangular; assumption).
  rewrite (take_ok train labels d), (take_ok test labels d)
    by (rewrite Hlen; assumption).
  reflexivity.
Qed.

(** Cell 5 raises [ValueError] when a class has fewer than two rows or
    one side would get fewer rows than there are classes. *)
Lemma split_raises (balanced : DataFrame) (s : Series) (labels classes : list scalar)
    (global : rng) :
  rectangular balanced ->
  getitem class_column balanced = Ok s ->
  check_array_y s = Ok labels ->
  np_unique labels = Ok classes ->
  let n := shape0 balanced in
  let n_test := ceil_div (1 * n) 5 in
  let n_train := n - n_test in
  n_train = 0
  \/ (exists c, In c classes /\ count_scalar c labels < 2)
  \/ n_train < length classes \/ n_test < length classes ->
  split balanced global = (Raise ValueError, global).
Proof.
  intros Hrect Hg Hy Hu n n_test n_train Hfew.
  assert (Hlen : length labels = n).
  { rewrite (check_array_y_length _ _ Hy). now apply (getitem_len class_column). }
  assert (Hle : n_test <= n) by apply ceil_div_le.
  rewrite (split_unfold _ _ _ Hrect Hg).
  rewrite _validate_shuffle_split_fifth. fold n n_test n_train.
  destruct (Nat.eqb_spec n_train 0) as [Hz|Hnz]; [reflexivity|].
  unfold bind at 1, lift at 1. cbn [fst snd]. run_lift Hy.
  unfold bind at 1.
  rewrite (StratifiedShuffleSplit_raises labels classes n_test n_train 42 global);
    [reflexivity|lia|lia|apply ceil_div_pos; lia|assumption|].
  destruct Hfew as [Hz|Hfew]; [lia|exact Hfew].
Qed.

(** If cell 5 returns, all its checks have passed. *)
Lemma split_inv (balanced : DataFrame) (s : Series) (parts : Split)
    (global global' : rng) :
  rectangular balanced ->
  getitem class_column balanced = Ok s ->
  split balanced global = (Ok parts, global') ->
  let n := shape0 balanced in
  let n_test := ceil_div (1 * n) 5 in
  let n_train := n - n_test in
  exists labels classes,
    check_array_y s = Ok labels
    /\ np_unique labels = Ok classes
    /\ 0 < n_train
    /\ (forall c, In c classes -> 2 <= count_scalar c labels)
    /\ length classes <= n_train
    /\ length classes <= n_test.
Proof.
  intros Hrect Hg Hrun n n_test n_train.
  rewrite (split_unfold _ _ _ Hrect Hg) in Hrun.
  rewrite _validate_shuffle_split_fifth in Hrun. fold n n_test n_train in Hrun.
  destruct (Nat.eqb_spec n_train 0) as [Hz|Hnz]; [discriminate|].
  unfold bind at 1, lift at 1 in Hrun. cbn [fst snd] in Hrun.
  destruct (check_array_y s) as [labels|e] eqn:Hy; [|discriminate].
  unfold bind at 1, lift at 1 in Hrun.
  assert (Hlen : length labels = n).
  { rewrite (check_array_y_length _ _ Hy). now apply (getitem_len class_column). }
  assert (Hle : n_test <= n) by apply ceil_div_le.
  destruct (StratifiedShuffleSplit_cases labels n_test n_train 42 global)
    as [[e He]|[classes [Hu [Hmin [Hk1 Hk2]]]]]; [lia|lia|apply ceil_div_pos; lia| |].
  - unfold bind at 1 in Hrun. rewrite He in Hrun. discriminate.
  - exists labels, classes. repeat split; try assumption. lia.
Qed.

End TrainTestSplit.

(** ** The split: sizes, partition, proportions, failure *)

Lemma floor_four_fifths (n : nat) : n - ceil_div (1 * n) 5 = (4 * n) / 5.
Proof.
  unfold ceil_div. rewrite Nat.mul_1_l.
  pose proof (Nat.div_mod n 5 ltac:(lia)) as Hn.
  pose proof (Nat.mod_upper_bound n 5 ltac:(lia)) as Hr.
  set (q := n / 5) in *. set (r := n mod 5) in *.
  assert (Hc : (n + (5 - 1)) / 5 = q + (if r =? 0 then 0 else 1)).
  { symmetry. destruct (Nat.eqb_spec r 0).
    - apply (Nat.div_unique _ 5 _ 4); lia.
    - apply (Nat.div_unique _ 5 _ (r - 1)); lia. }
  rewrite Hc. destruct (Nat.eqb_spec r 0).
  - apply (Nat.div_unique _ 5 _ 0); lia.
  - destruct r as [|[|[|[|[|r]]]]]; try lia.
    + apply (Nat.div_unique _ 5 _ 4); lia.
    + apply (Nat.div_unique _ 5 _ 3); lia.
    + apply (Nat.div_unique _ 5 _ 2); lia.
    + apply (Nat.div_unique _ 5 _ 1); lia.
Qed.

Lemma count_scalar_pos (c : scalar) (y : list scalar) :
  In c y -> 1 <= count_scalar c y.
Proof.
  induction y as [|v y IH]; simpl; [contradiction|].
  intros [->|Hin]; [rewrite scalar_eqb_refl; lia|].
  specialize (IH Hin). lia.
Qed.

Lemma list_sum_map_const {A : Type} (f : A -> nat) (m : nat) (l : list A) :
  (forall a, In a l -> f a = m) -> list_sum (map f l) = length l * m.
Proof.
  induction l as [|a l IH]; intros Hf; simpl; [reflexivity|].
  rewrite (Hf a (or_introl eq_refl)), IH by (intros; apply Hf; now right).
  reflexivity.
Qed.

Section SplitTheorems.

Context {rng : Type} `{RandomStateLaws rng}.

(** A balanced frame has as many rows as classes times rows per
    class. *)
Lemma uniform_rows (balanced : DataFrame) (classes : list scalar) (m : nat) :
  uniform balanced classes m -> shape0 balanced = length classes * m.
Proof.
  intros [Hrect [s [labels [Hg [Hy [Hu [Hne Hm]]]]]]].
  destruct (np_unique_classes labels classes Hu) as [Hnd Hcl].
  rewrite <- (getitem_len class_column _ _ Hrect Hg).
  rewrite <- (check_array_y_length _ _ Hy).
  rewrite <- (class_counts_sum labels classes Hnd (fun c => proj2 (Hcl c))).
  now apply list_sum_map_const.
Qed.

(** On a balanced frame with two rows or more per class and a test
    share of at least one row per class, cell 5 returns. *)
Lemma uniform_split_returns (balanced : DataFrame) (classes : list scalar) (m : nat) :
  uniform balanced classes m ->
  2 <= m ->
  length classes <= ceil_div (1 * (length classes * m)) 5 ->
  exists parts, forall global, split balanced global = (Ok parts, global).
Proof.
  intros Huni Hm2 Hkt. pose proof (uniform_rows _ _ _ Huni) as Hn.
  destruct Huni as [Hrect [s [labels [Hg [Hy [Hu [Hne Hm]]]]]]].
  set (k := length classes) in *.
  assert (Hk : 1 <= k) by (unfold k; destruct classes; [congruence|simpl; lia]).
  assert (Hup : ceil_div (1 * (k * m)) 5 <= k * (m - 1)).
  { unfold ceil_div. apply Nat.lt_succ_r.
    apply Nat.Div0.div_lt_upper_bound. nia. }
  destruct (split_ok balanced s labels classes (Str EmptyString) Hrect Hg Hy Hu)
    as [train [test [Hrun _]]].
  - rewrite Hn. nia.
  - intros c Hc. now rewrite (Hm c Hc).
  - rewrite Hn. fold k. nia.
  - rewrite Hn. exact Hkt.
  - eexists. exact Hrun.
Qed.

(** C4.  Whenever the split of cell 5 returns on a frame of [n] rows:
    the test subset has [ceil(n / 5)] rows and the training subset the
    remaining [n - ceil(n / 5) = floor(4 n / 5)] rows; the two subsets
    are the rows at two lists of positions that together are a
    permutation of all positions, so they are disjoint and their union
    is the input; the rows of every label are shared between the two
    subsets, and the number of rows of a label in each subset differs
    from its exact proportional share by less than one row; for 300
    rows the sizes are 240 and 60.  And the split does return on every
    balanced frame that has two rows or more per class and a test share
    of at least one row per class. *)
Theorem split_sizes_partition_proportions
    (balanced : DataFrame) (s : Series) (d : scalar) :
  rectangular balanced ->
  getitem class_column balanced = Ok s ->
  let n := shape0 balanced in
  let labels := dropna (items s) in
  (forall (parts : Split) (global global' : rng),
      split balanced global = (Ok parts, global') ->
      exists train test,
        X_train parts = DataFrame_gather train (features class_column balanced)
        /\ X_test parts = DataFrame_gather test (features class_column balanced)
        /\ y_train parts = map (fun i => nth i labels d) train
        /\ y_test parts = map (fun i => nth i labels d) test
        /\ Permutation (train ++ test) (seq 0 n)
        /\ shape0 (X_test parts) = ceil_div (1 * n) 5
        /\ shape0 (X_train parts) = n - ceil_div (1 * n) 5
        /\ shape0 (X_train parts) = (4 * n) / 5
        /\ (forall c,
            let total := count_scalar c labels in
            let in_train := count_scalar c (y_train parts) in
            let in_test := count_scalar c (y_test parts) in
            in_train + in_test = total
            /\ total * shape0 (X_train parts) < (in_train + 1) * n
            /\ in_train * n < total * shape0 (X_train parts) + n
            /\ total * shape0 (X_test parts) < (in_test + 1) * n
            /\ in_test * n < total * shape0 (X_test parts) + n)
        /\ (n = 300 -> shape0 (X_train parts) = 240 /\ shape0 (X_test parts) = 60))
  /\ (forall classes m,
        uniform balanced classes m ->
        2 <= m ->
        length classes <= ceil_div (1 * n) 5 ->
        exists parts, forall global : rng, split balanced global = (Ok parts, global)).
Proof.
  intros Hrect Hg n labels. split.
  - intros parts global global' Hrun.
    destruct (split_inv _ _ _ _ _ Hrect Hg Hrun)
      as [labels' [classes [Hy [Hu [Htrain [Hmin [Hk1 Hk2]]]]]]].
    assert (Hlabels : labels' = labels).
    { unfold check_array_y in Hy. destruct (hasnans (items s)); [discriminate|].
      now injection Hy as <-. }
    subst labels'.
    destruct (split_ok _ _ _ _ d Hrect Hg Hy Hu Htrain Hmin Hk1 Hk2)
      as [train [test [Hok [Hperm [Hl1 [Hl2 Hprop]]]]]].
    rewrite (Hok global) in Hrun. injection Hrun as <- _.
    exists train, test. cbn [X_train X_test y_train y_test DataFrame_gather shape0].
    fold n. rewrite Hl1, Hl2.
    repeat (split; [reflexivity || assumption|]).
    split; [apply floor_four_fifths|]. split; [exact Hprop|].
    intros Hn. unfold n in Hn. rewrite Hn. split; reflexivity.
  - intros classes m Huni Hm2 Hkt.
    apply (uniform_split_returns balanced classes m Huni Hm2).
    now rewrite <- (uniform_rows _ _ _ Huni).
Qed.


End SplitTheorems.

(** ** The counter generator, and the exception of the split *)

#[export] Instance counter_generator_laws : RandomStateLaws nat.
Proof.
  constructor.
  - intros high size r Hhigh. simpl. split.
    + now rewrite length_map, length_seq.
    + apply Forall_forall. intros i Hi. apply in_map_iff in Hi.
      destruct Hi as [j [<- _]]. apply Nat.mod_upper_bound. lia.
  - intros a r. simpl. apply Permutation_rev.
  - intros a size r Hsize. simpl. split.
    + rewrite length_firstn. lia.
    + exists (skipn size a). now rewrite firstn_skipn.
Qed.



(** ** The balancer *)

Section Balancer.

Context {rng : Type} `{RandomStateLaws rng}.

(** A seeded [resample] of a frame with rows takes the rows at
    [n_samples] positions inside the frame. *)
Lemma resample_eval (df : DataFrame) (n_samples seed : nat) :
  0 < shape0 df ->
  exists indices,
    length indices = n_samples
    /\ Forall (fun i => i < shape0 df) indices
    /\ forall global,
        resample df n_samples (Some seed) global = (DataFrame_take indices df, global).
Proof.
  intros Hrows.
  destruct (randint_range (shape0 df) n_samples (RandomState seed) Hrows)
    as [Hlen Hrange].
  exists (fst (randint (shape0 df) n_samples (RandomState seed))).
  split; [assumption|]. split; [assumption|].
  intros global. unfold resample, with_random_state. f_equal.
  destruct (Nat.eqb_spec (shape0 df) 0); [lia|].
  unfold bind, draw, lift.
  now destruct (randint (shape0 df) n_samples (RandomState seed)).
Qed.

(** A seeded [sample(frac=1)] takes the rows along a permutation of
    all positions. *)
Lemma sample_eval (df : DataFrame) (seed : nat) :
  exists p,
    Permutation (seq 0 (shape0 df)) p
    /\ forall global, sample df (Some seed) global = (DataFrame_take p df, global).
Proof.
  destruct (choice_without_replacement (seq 0 (shape0 df)) (shape0 df)
              (RandomState seed)) as [Hlen [rest Hp]];
    [now rewrite length_seq|].
  exists (fst (choice (seq 0 (shape0 df)) (shape0 df) (RandomState seed))).
  split.
  - assert (Hrest : rest = []).
    { apply Permutation_length in Hp. rewrite length_app, length_seq, Hlen in Hp.
      destruct rest; [reflexivity|simpl in Hp; lia]. }
    subst rest. now rewrite app_nil_r in Hp.
  - intros global. unfold sample, with_random_state. f_equal.
    unfold bind, draw, lift.
    now destruct (choice (seq 0 (shape0 df)) (shape0 df) (RandomState seed)).
Qed.

Lemma short_index_list (indices : list nat) :
  length indices = 2 -> Forall (fun i => i < 1) indices -> indices = [0; 0].
Proof.
  destruct indices as [|i [|j [|k l]]]; try discriminate. intros _ Hall.
  inversion Hall as [|? ? Hi Hall']; subst. inversion Hall' as [|? ? Hj _]; subst.
  f_equal; [lia|f_equal; lia].
Qed.

(** C1 fails on a tie for the majority.  On the frame with labels
    a, a, b, b, c (which has nothing missing, so cleaning leaves it as
    it is) the class counts are a: 2, b: 2, c: 1, so the
    majority count is 2.  Balancing keeps the two rows of a and draws
    two rows of c, but b is neither the majority class (that is a, the
    first maximum) nor a minority class (its count equals the maximum),
    so its rows are left out: the result has 4 rows, two of a, two of c
    and none of b, where the claim asks for 2 rows of every label and 6
    rows in all. *)
Theorem balancing_drops_a_tied_majority_class (global : rng) :
  exists labels balanced labels',
    data_cleaned tied_frame = tied_frame
    /\ getitem class_column tied_frame = Ok labels
    /\ value_counts labels = [(Str "a", 2); (Str "b", 2); (Str "c", 1)]
    /\ balanced_data tied_frame global = (Ok balanced, global)
    /\ shape0 balanced = 4
    /\ getitem class_column balanced = Ok labels'
    /\ count_scalar (Str "a") (dropna (items labels')) = 2
    /\ count_scalar (Str "b") (dropna (items labels')) = 0
    /\ count_scalar (Str "c") (dropna (items labels')) = 2.
Proof.
  set (labels := Object [Some (Str "a"); Some (Str "a"); Some (Str "b");
                         Some (Str "b"); Some (Str "c")]).
  assert (Hlabels : getitem class_column tied_frame = Ok labels) by reflexivity.
  assert (Hvc : value_counts labels
                = [(Str "a", 2); (Str "b", 2); (Str "c", 1)]) by reflexivity.
  set (minority_data :=
         {| shape0 := 1;
            cols := [("sensor"%string, Float64 [Some 5%R]);
                     (class_column, Object [Some (Str "c")])] |}).
  set (combined :=
         {| shape0 := 4;
            cols := [("sensor"%string,
                      Float64 [Some 1%R; Some 2%R; Some 5%R; Some 5%R]);
                     (class_column,
                      Object [Some (Str "a"); Some (Str "a"); Some (Str "c");
                              Some (Str "c")])] |}).
  destruct (resample_eval minority_data 2 42) as [indices [Hlen [Hrange Hres]]];
    [simpl; lia|].
  apply short_index_list in Hrange; [|assumption]. subst indices.
  destruct (sample_eval combined 42) as [p [Hp Hsample]].
  assert (Hrect : rectangular combined).
  { unfold rectangular, combined. simpl. repeat constructor. }
  assert (Hbound : Forall (fun i => i < shape0 combined) p)
    by now apply Permutation_seq_bound.
  exists labels, (DataFrame_gather p combined),
    (Object (gather p [Some (Str "a"); Some (Str "a"); Some (Str "c");
                       Some (Str "c")])).
  split; [reflexivity|]. split; [exact Hlabels|]. split; [exact Hvc|]. split.
  - unfold balanced_data. run_lift Hlabels. cbv zeta. rewrite Hvc.
    assert (Hmaj : idxmax [(Str "a", 2); (Str "b", 2); (Str "c", 1)] = Ok (Str "a"))
      by reflexivity.
    run_lift Hmaj.
    change (map fst (filter _ [(Str "a", 2); (Str "b", 2); (Str "c", 1)]))
      with [Str "c"].
    change (DataFrame_compress (eq_mask labels (Str "c")) tied_frame)
      with minority_data.
    cbn [mapM]. unfold bind at 1. unfold bind at 1.
    assert (Hloc : loc (Str "a") [(Str "a", 2); (Str "b", 2); (Str "c", 1)] = Ok 2)
      by reflexivity.
    unfold bind at 1, lift at 1. rewrite Hloc. rewrite Hres.
    assert (Htake : DataFrame_take [0; 0] minority_data
              = Ok {| shape0 := 2;
                      cols := [("sensor"%string, Float64 [Some 5%R; Some 5%R]);
                               (class_column,
                                Object [Some (Str "c"); Some (Str "c")])] |})
      by reflexivity.
    rewrite Htake. unfold bind at 1, ret at 1. unfold ret at 1.
    unfold bind at 1, lift at 1.
    assert (Hcat : concat
              [DataFrame_compress (eq_mask labels (Str "a")) tied_frame;
               {| shape0 := 2;
                  cols := [("sensor"%string, Float64 [Some 5%R; Some 5%R]);
                           (class_column,
                            Object [Some (Str "c"); Some (Str "c")])] |}]
              = Ok combined) by reflexivity.
    rewrite Hcat. rewrite Hsample.
    now rewrite (DataFrame_take_ok p combined Hrect Hbound).
  - split; [unfold DataFrame_gather; simpl; now rewrite <- (Permutation_length Hp)|].
    split; [reflexivity|].
    assert (Hperm : Permutation
              [Str "a"; Str "a"; Str "c"; Str "c"]
              (dropna (items (Object (gather p [Some (Str "a"); Some (Str "a");
                                                Some (Str "c"); Some (Str "c")]))))).
    { change [Str "a"; Str "a"; Str "c"; Str "c"]
        with (dropna [Some (Str "a"); Some (Str "a"); Some (Str "c"); Some (Str "c")]).
      apply dropna_Permutation. simpl items. now apply gather_Permutation. }
    repeat split;
      now rewrite <- (count_scalar_Permutation _ _ _ Hperm).
Qed.

End Balancer.

(** ** The balancer, in general *)

Lemma insert_desc_Permutation (p : scalar * nat) (l : list (scalar * nat)) :
  Permutation (p :: l) (insert_desc p l).
Proof.
  induction l as [|q l IH]; simpl; [reflexivity|].
  destruct (snd p <? snd q); [|reflexivity].
  apply Permutation_trans with (q :: p :: l); [apply perm_swap|].
  now constructor.
Qed.

Lemma sort_values_desc_Permutation (l : list (scalar * nat)) :
  Permutation l (sort_values_desc l).
Proof.
  unfold sort_values_desc. induction l as [|p l IH]; simpl; [apply perm_nil|].
  apply Permutation_trans with (p :: fold_right insert_desc [] l);
    [now constructor|apply insert_desc_Permutation].
Qed.

(** The entries of [value_counts]: one per label present, with its
    count. *)
Lemma value_counts_In (s : Series) (c : scalar) (n : nat) :
  In (c, n) (value_counts s)
  <-> In c (dropna (items s)) /\ n = count_scalar c (dropna (items s)).
Proof.
  unfold value_counts. set (present := dropna (items s)).
  split.
  - intros Hin.
    apply (Permutation_in _ (Permutation_sym (sort_values_desc_Permutation _))) in Hin.
    apply in_map_iff in Hin. destruct Hin as [x [[= <- <-] Hx]].
    split; [now apply unique_In|reflexivity].
  - intros [Hc ->]. apply (Permutation_in _ (sort_values_desc_Permutation _)).
    apply in_map_iff. exists c. split; [reflexivity|now apply unique_In].
Qed.

Lemma value_counts_NoDup (s : Series) : NoDup (map fst (value_counts s)).
Proof.
  unfold value_counts. set (present := dropna (items s)).
  apply (Permutation_NoDup
           (Permutation_map fst (sort_values_desc_Permutation _))).
  rewrite map_map. simpl. rewrite map_id. apply unique_NoDup.
Qed.

Lemma Series_max_ge (counts : list (scalar * nat)) (p : scalar * nat) :
  In p counts -> snd p <= Series_max counts.
Proof.
  unfold Series_max. induction counts as [|q l IH]; simpl; [contradiction|].
  intros [->|Hin]; [lia|]. specialize (IH Hin). lia.
Qed.

Lemma Series_max_attained (counts : list (scalar * nat)) :
  counts <> [] -> exists p, In p counts /\ snd p = Series_max counts.
Proof.
  unfold Series_max. induction counts as [|q l IH]; [congruence|]. intros _.
  destruct l as [|q' l'].
  - exists q. split; [now left|]. simpl. lia.
  - destruct IH as [p [Hin Hp]]; [discriminate|].
    change (fold_right Nat.max 0 (map snd (q :: q' :: l')))
      with (Nat.max (snd q) (fold_right Nat.max 0 (map snd (q' :: l')))).
    destruct (Nat.max_spec (snd q) (fold_right Nat.max 0 (map snd (q' :: l'))))
      as [[_ ->]|[_ ->]].
    + exists p. split; [now right|assumption].
    + exists q. split; [now left|reflexivity].
Qed.

Lemma idxmax_spec (counts : list (scalar * nat)) :
  counts <> [] ->
  exists majority,
    idxmax counts = Ok majority /\ In (majority, Series_max counts) counts.
Proof.
  intros Hne. unfold idxmax.
  destruct (find (fun p => snd p =? Series_max counts) counts) as [p|] eqn:E.
  - apply find_some in E. destruct E as [Hin He]. apply Nat.eqb_eq in He.
    exists (fst p). split; [reflexivity|]. rewrite <- He. now destruct p.
  - destruct (Series_max_attained counts Hne) as [p [Hin Hp]].
    apply (find_none _ _ E) in Hin. apply Nat.eqb_neq in Hin. contradiction.
Qed.

Lemma loc_spec (counts : list (scalar * nat)) (c : scalar) (n : nat) :
  NoDup (map fst counts) -> In (c, n) counts -> loc c counts = Ok n.
Proof.
  intros Hnd Hin. unfold loc.
  destruct (find (fun p => scalar_eqb (fst p) c) counts) as [p|] eqn:E.
  - apply find_some in E. destruct E as [Hp He]. apply scalar_eqb_eq in He.
    destruct p as [c' n']. simpl in He. subst c'. simpl. f_equal.
    clear -Hnd Hin Hp. induction counts as [|q l IH]; [contradiction|].
    inversion Hnd as [|? ? Hni Hnd']; subst.
    destruct Hin as [->|Hin], Hp as [Hq|Hp].
    + now injection Hq.
    + exfalso. apply Hni. simpl. apply in_map_iff. now exists (c, n').
    + exfalso. apply Hni. rewrite Hq. simpl. apply in_map_iff. now exists (c, n).
    + now apply IH.
  - apply (find_none _ _ E) in Hin. simpl in Hin.
    now rewrite scalar_eqb_refl in Hin.
Qed.

(** ** Masks *)

Lemma compress_length_count {A : Type} (mask : list bool) (v : list A) :
  length mask = length v ->
  length (compress mask v) = length (filter (fun b => b) mask).
Proof.
  revert v. induction mask as [|b mask IH]; intros [|x v] Hlen; try discriminate;
    [reflexivity|].
  simpl. injection Hlen as Hlen. destruct b; simpl; now rewrite IH.
Qed.

Lemma eq_mask_length (s : Series) (c : scalar) :
  length (eq_mask s c) = Series_len s.
Proof. unfold eq_mask. now rewrite length_map, items_length. Qed.

Lemma eq_mask_count (s : Series) (c : scalar) :
  length (filter (fun b => b) (eq_mask s c)) = count_scalar c (dropna (items s)).
Proof.
  unfold eq_mask, dropna. induction (items s) as [|[x|] v IH]; simpl; auto.
  destruct (scalar_eqb x c); simpl; now rewrite IH.
Qed.

(** The class column under its own mask holds the label and nothing
    else. *)
Lemma compress_eq_mask_items (s : Series) (c : scalar) :
  compress (eq_mask s c) (items s)
  = repeat (Some c) (count_scalar c (dropna (items s))).
Proof.
  unfold eq_mask, dropna. induction (items s) as [|[x|] v IH]; simpl; auto.
  destruct (scalar_eqb x c) eqn:E; simpl; [|exact IH].
  apply scalar_eqb_eq in E. subst x. now rewrite IH.
Qed.

Lemma compress_map {A B : Type} (f : A -> B) (mask : list bool) (v : list A) :
  compress mask (map f v) = map f (compress mask v).
Proof.
  revert v. induction mask as [|b mask IH]; intros [|x v]; simpl; auto.
  destruct b; simpl; now rewrite IH.
Qed.

Lemma Series_compress_items (mask : list bool) (s : Series) :
  items (Series_compress mask s) = compress mask (items s).
Proof. destruct s; simpl; [now rewrite compress_map|reflexivity]. Qed.

Lemma Series_compress_len (mask : list bool) (s : Series) :
  length mask = Series_len s ->
  Series_len (Series_compress mask s) = length (filter (fun b => b) mask).
Proof. destruct s; simpl; apply compress_length_count. Qed.

Lemma lookup_map_snd {A B : Type} (f : A -> B) (name : string) (l : list (string * A)) :
  lookup name (map (fun c => (fst c, f (snd c))) l) = option_map f (lookup name l).
Proof.
  induction l as [|[n a] l IH]; simpl; [reflexivity|].
  destruct (String.eqb n name); [reflexivity|exact IH].
Qed.

Lemma map_fst_map_snd {A B : Type} (f : A -> B) (l : list (string * A)) :
  map fst (map (fun c => (fst c, f (snd c))) l) = map fst l.
Proof. rewrite map_map. reflexivity. Qed.

Lemma DataFrame_compress_spec (df : DataFrame) (s : Series) (c : scalar) :
  rectangular df ->
  getitem class_column df = Ok s ->
  let part := DataFrame_compress (eq_mask s c) df in
  rectangular part
  /\ columns part = columns df
  /\ shape0 part = count_scalar c (dropna (items s))
  /\ exists s', getitem class_column part = Ok s'
                /\ items s' = repeat (Some c) (count_scalar c (dropna (items s))).
Proof.
  intros Hrect Hg part.
  assert (Hlen : length (eq_mask s c) = shape0 df).
  { rewrite eq_mask_length. now apply (getitem_len class_column). }
  assert (Hrows : shape0 part = count_scalar c (dropna (items s))).
  { unfold part, DataFrame_compress. simpl.
    rewrite compress_length_count by now rewrite length_seq.
    apply eq_mask_count. }
  split; [|split; [|split; [exact Hrows|]]].
  - unfold rectangular. rewrite Hrows. unfold part, DataFrame_compress. simpl.
    apply Forall_forall. intros col Hcol. apply in_map_iff in Hcol.
    destruct Hcol as [col0 [<- Hcol0]]. simpl.
    unfold rectangular in Hrect. rewrite Forall_forall in Hrect.
    rewrite Series_compress_len by (rewrite Hlen; symmetry; now apply Hrect).
    apply eq_mask_count.
  - unfold columns, part, DataFrame_compress. simpl. apply map_fst_map_snd.
  - exists (Series_compress (eq_mask s c) s). split.
    + unfold getitem, part, DataFrame_compress. simpl.
      rewrite (lookup_map_snd (Series_compress (eq_mask s c))).
      now rewrite (getitem_inv _ _ _ Hg).
    + rewrite Series_compress_items. apply compress_eq_mask_items.
Qed.

Lemma lookup_map_named {A B : Type} (f : string -> A -> B) (name : string)
    (l : list (string * A)) :
  lookup name (map (fun c => (fst c, f (fst c) (snd c))) l)
  = option_map (f name) (lookup name l).
Proof.
  induction l as [|[n a] l IH]; simpl; [reflexivity|].
  destruct (String.eqb_spec n name) as [->|]; [reflexivity|exact IH].
Qed.

Lemma Series_append_items (s t : Series) :
  items (Series_append s t) = items s ++ items t.
Proof. destruct s, t; simpl; try reflexivity. now rewrite map_app. Qed.

Lemma Series_append_len (s t : Series) :
  Series_len (Series_append s t) = Series_len s + Series_len t.
Proof.
  rewrite <- !items_length, Series_append_items. apply length_app.
Qed.

Lemma map_const_repeat {A B : Type} (x : B) (l : list A) :
  map (fun _ => x) l = repeat x (length l).
Proof. induction l; simpl; congruence. Qed.

Lemma gather_repeat {A : Type} (indices : list nat) (x : A) (n : nat) :
  Forall (fun i => i < n) indices ->
  gather indices (repeat (Some x) n) = repeat (Some x) (length indices).
Proof.
  intros Hb. unfold gather. rewrite <- map_const_repeat.
  apply map_ext_in. intros i Hi. rewrite Forall_forall in Hb.
  apply nth_repeat_lt. now apply Hb.
Qed.

Lemma block_compress (df : DataFrame) (s : Series) (c : scalar) :
  rectangular df ->
  getitem class_column df = Ok s ->
  block (DataFrame_compress (eq_mask s c) df) (columns df)
    (count_scalar c (dropna (items s)))
    (repeat (Some c) (count_scalar c (dropna (items s)))).
Proof.
  intros Hrect Hg.
  destruct (DataFrame_compress_spec df s c Hrect Hg) as [H1 [H2 [H3 H4]]].
  repeat split; assumption.
Qed.

Lemma block_gather (df : DataFrame) (names : list string) (rows : nat)
    (labels : list (option scalar)) (indices : list nat) :
  block df names rows labels ->
  block (DataFrame_gather indices df) names (length indices) (gather indices labels).
Proof.
  intros [Hrect [Hnames [Hrows [s [Hg Hitems]]]]].
  split; [apply DataFrame_gather_rectangular|].
  split; [unfold columns, DataFrame_gather; simpl; now rewrite map_fst_map_snd|].
  split; [reflexivity|].
  exists (Series_gather indices s). split.
  - unfold getitem, DataFrame_gather. simpl.
    rewrite (lookup_map_snd (Series_gather indices)).
    now rewrite (getitem_inv _ _ _ Hg).
  - now rewrite gather_items, Hitems.
Qed.

Lemma block_concat2 (a b : DataFrame) (names : list string) (ra rb : nat)
    (la lb : list (option scalar)) :
  NoDup names ->
  block a names ra la -> block b names rb lb ->
  block (concat2 a b) names (ra + rb) (la ++ lb).
Proof.
  intros Hnd [Hrecta [Hna [Hra [sa [Hga Hia]]]]] [Hrectb [Hnb [Hrb [sb [Hgb Hib]]]]].
  assert (Hnone : filter (fun c => negb (existsb (String.eqb (fst c)) (columns a)))
                    (cols b) = []).
  { rewrite <- (filter_ext_in (fun _ => false)).
    - clear. induction (cols b); simpl; auto.
    - intros c Hc. symmetry. apply negb_false_iff. apply existsb_exists.
      exists (fst c). split; [|apply String.eqb_refl].
      rewrite Hna, <- Hnb. unfold columns. now apply in_map. }
  unfold concat2. rewrite Hnone. simpl map at 2. rewrite app_nil_r.
  set (pick := fun (name : string) (s : Series) =>
                 Series_append s
                   match lookup name (cols b) with
                   | Some t => t
                   | None => nan_like s (shape0 b)
                   end).
  change (map _ (cols a))
    with (map (fun c => (fst c, pick (fst c) (snd c))) (cols a)).
  split; [|split; [|split]].
  - unfold rectangular. simpl. apply Forall_forall. intros c Hc.
    apply in_map_iff in Hc. destruct Hc as [c0 [<- Hc0]]. simpl. unfold pick.
    rewrite Series_append_len.
    unfold rectangular in Hrecta, Hrectb. rewrite Forall_forall in Hrecta, Hrectb.
    rewrite (Hrecta c0 Hc0). f_equal.
    destruct (lookup_some (fst c0) (cols b)) as [t Ht].
    { fold (columns b). rewrite Hnb, <- Hna. unfold columns. now apply in_map. }
    rewrite Ht. apply lookup_In in Ht. exact (Hrectb _ Ht).
  - unfold columns. simpl. rewrite map_map. simpl. exact Hna.
  - simpl. now rewrite Hra, Hrb.
  - exists (Series_append sa sb). split.
    + unfold getitem. simpl. rewrite (lookup_map_named pick).
      rewrite (getitem_inv _ _ _ Hga). simpl. unfold pick.
      now rewrite (getitem_inv _ _ _ Hgb).
    + now rewrite Series_append_items, Hia, Hib.
Qed.

Lemma block_fold_concat2 (names : list string) (m : nat) :
  NoDup names ->
  forall (cs : list scalar) (rs : list DataFrame),
  Forall2 (fun c r => block r names m (repeat (Some c) m)) cs rs ->
  forall (a : DataFrame) (ra : nat) (la : list (option scalar)),
  block a names ra la ->
  block (fold_left concat2 rs a) names (ra + length cs * m)
    (la ++ List.concat (map (fun c => repeat (Some c) m) cs)).
Proof.
  intros Hnd cs rs Hall. induction Hall as [|c r cs rs Hr _ IH]; intros a ra la Ha.
  - simpl. now rewrite Nat.add_0_r, app_nil_r.
  - simpl. replace (ra + (m + length cs * m)) with ((ra + m) + length cs * m) by lia.
    rewrite app_assoc. apply IH. now apply block_concat2.
Qed.

Lemma dropna_app {A : Type} (v w : list (option A)) :
  dropna (v ++ w) = dropna v ++ dropna w.
Proof. unfold dropna. apply flat_map_app. Qed.

Lemma dropna_repeat {A : Type} (x : A) (n : nat) :
  dropna (repeat (Some x) n) = repeat x n.
Proof. induction n; simpl; congruence. Qed.

Lemma hasnans_repeat {A : Type} (x : A) (n : nat) :
  hasnans (repeat (Some x) n) = false.
Proof. induction n; simpl; auto. Qed.

Lemma count_scalar_repeat (c x : scalar) (n : nat) :
  count_scalar c (repeat x n) = if scalar_eqb x c then n else 0.
Proof.
  induction n as [|n IH]; simpl; [now destruct (scalar_eqb x c)|].
  rewrite IH. destruct (scalar_eqb x c); reflexivity.
Qed.

(** In the concatenation of one block of [m] equal labels per class,
    a label counts [m] when it is one of the classes and 0 otherwise. *)
Lemma count_scalar_blocks (c : scalar) (m : nat) (cs : list scalar) :
  NoDup cs ->
  count_scalar c
    (dropna (List.concat (map (fun x => repeat (Some x) m) cs)))
  = if existsb (fun x => scalar_eqb x c) cs then m else 0.
Proof.
  induction 1 as [|x cs Hni Hnd IH]; simpl; [reflexivity|].
  rewrite dropna_app, count_scalar_app, dropna_repeat, count_scalar_repeat, IH.
  destruct (scalar_eqb x c) eqn:E; simpl; [|reflexivity].
  apply scalar_eqb_eq in E. subst x.
  assert (He : existsb (fun x => scalar_eqb x c) cs = false).
  { apply not_true_is_false. intros Hc. apply existsb_exists in Hc.
    destruct Hc as [x [Hx Hxc]]. apply scalar_eqb_eq in Hxc. now subst. }
  rewrite He. lia.
Qed.

Lemma hasnans_app {A : Type} (v w : list (option A)) :
  hasnans (v ++ w) = hasnans v || hasnans w.
Proof. unfold hasnans. apply existsb_app. Qed.

Lemma hasnans_blocks (m : nat) (cs : list scalar) :
  hasnans (List.concat (map (fun x => repeat (Some x) m) cs)) = false.
Proof.
  induction cs as [|x cs IH]; simpl; [reflexivity|].
  now rewrite hasnans_app, hasnans_repeat, IH.
Qed.

Lemma NoDup_map_fst_filter {A B : Type} (f : A * B -> bool) (l : list (A * B)) :
  NoDup (map fst l) -> NoDup (map fst (filter f l)).
Proof.
  induction l as [|p l IH]; simpl; intros Hnd; [constructor|].
  inversion Hnd as [|? ? Hni Hnd']; subst.
  destruct (f p); simpl; [|now apply IH].
  constructor; [|now apply IH].
  intros Hin. apply Hni. apply in_map_iff in Hin.
  destruct Hin as [q [Hq Hin]]. apply filter_In in Hin.
  apply in_map_iff. exists q. split; [assumption|apply Hin].
Qed.

Section BalancerGeneral.

Context {rng : Type} `{RandomStateLaws rng}.

Lemma mapM_exists {A B : Type} (P : A -> B -> Prop) (f : A -> M rng B) (l : list A) :
  (forall a, In a l -> exists b, P a b /\ forall global, f a global = (Ok b, global)) ->
  exists bs, Forall2 P l bs /\ forall global, mapM f l global = (Ok bs, global).
Proof.
  induction l as [|a l IH]; intros Hf.
  - exists []. split; [constructor|reflexivity].
  - destruct (Hf a (or_introl eq_refl)) as [b [Hb Hrun]].
    destruct IH as [bs [Hbs Hruns]]; [intros; apply Hf; now right|].
    exists (b :: bs). split; [now constructor|].
    intros global. simpl. unfold bind at 1. rewrite Hrun.
    unfold bind at 1. rewrite Hruns. reflexivity.
Qed.

(** Resampling the rows of one class to [m] rows. *)
Lemma resample_block (part : DataFrame) (names : list string) (rows m seed : nat)
    (c : scalar) :
  block part names rows (repeat (Some c) rows) ->
  0 < rows ->
  exists r,
    block r names m (repeat (Some c) m)
    /\ forall global, resample part m (Some seed) global = (Ok r, global).
Proof.
  intros Hpart Hrows.
  assert (Hshape : shape0 part = rows) by apply Hpart.
  destruct (resample_eval part m seed) as [indices [Hlen [Hrange Hrun]]]; [lia|].
  exists (DataFrame_gather indices part). split.
  - pose proof (block_gather part names rows _ indices Hpart) as Hb.
    rewrite gather_repeat in Hb by now rewrite <- Hshape.
    now rewrite Hlen in Hb.
  - intros global. rewrite Hrun. f_equal.
    apply DataFrame_take_ok; [apply Hpart|assumption].
Qed.

(** What balancing does, for every frame that has a labelled row: the
    majority class (the first label of maximal count) and every label
    whose count is not the maximum end up with exactly the majority
    count; every other label, that is every label tied with the
    majority class, ends up with no row at all. *)
Lemma balanced_data_counts (data : DataFrame) (s : Series) :
  rectangular data ->
  NoDup (columns data) ->
  getitem class_column data = Ok s ->
  dropna (items s) <> [] ->
  let present := dropna (items s) in
  let counts := value_counts s in
  let m := Series_max counts in
  exists majority balanced s',
    idxmax counts = Ok majority
    /\ count_scalar majority present = m
    /\ (forall c, count_scalar c present <= m)
    /\ (forall global, balanced_data data global = (Ok balanced, global))
    /\ rectangular balanced
    /\ columns balanced = columns data
    /\ getitem class_column balanced = Ok s'
    /\ hasnans (items s') = false
    /\ forall c,
        count_scalar c (dropna (items s'))
        = if scalar_eqb c majority then m
          else if (0 <? count_scalar c present)
                  && negb (count_scalar c present =? m)
               then m
               else 0.
Proof.
  intros Hrect Hnd Hg Hpresent present counts m.
  assert (Hcounts : counts <> []).
  { assert (Hsome : exists x, In x (dropna (items s))).
    { destruct (dropna (items s)) as [|x l]; [congruence|exists x; now left]. }
    destruct Hsome as [x Hx0].
    assert (Hx : In (x, count_scalar x (dropna (items s))) counts).
    { apply value_counts_In. now split. }
    intros Hc. now rewrite Hc in Hx. }
  destruct (idxmax_spec counts Hcounts) as [majority [Hidx Hmaj]].
  fold m in Hmaj.
  pose proof (proj1 (value_counts_In s majority m) Hmaj) as [Hmaj_in Hm].
  fold present in Hmaj_in, Hm.
  assert (Hle : forall c, count_scalar c present <= m).
  { intros c. destruct (in_dec (fun a b =>
        match Bool.bool_dec (scalar_eqb a b) true with
        | left e => left (proj1 (scalar_eqb_eq a b) e)
        | right n => right (fun e => n (proj2 (scalar_eqb_eq a b) e))
        end) c present) as [Hin|Hnin].
    - apply (Series_max_ge counts (c, count_scalar c present)).
      apply value_counts_In. now split.
    - rewrite count_scalar_zero by assumption. lia. }
  assert (Hmpos : 0 < m).
  { rewrite Hm. now apply count_scalar_pos. }
  set (minority_classes :=
         map fst (filter (fun p => negb (snd p =? m)) counts)).
  assert (Hmin_nd : NoDup minority_classes).
  { unfold minority_classes. apply NoDup_map_fst_filter.
    apply value_counts_NoDup. }
  assert (Hmin_in : forall c, In c minority_classes <->
            In c present /\ count_scalar c present <> m).
  { intros c. unfold minority_classes. rewrite in_map_iff. split.
    - intros [[c' n] [Hc Hin]]. simpl in Hc. subst c'.
      apply filter_In in Hin. destruct Hin as [Hin Hn]. simpl in Hn.
      apply value_counts_In in Hin. destruct Hin as [Hin ->].
      split; [assumption|]. apply negb_true_iff, Nat.eqb_neq in Hn. exact Hn.
    - intros [Hin Hn]. exists (c, count_scalar c present). split; [reflexivity|].
      apply filter_In. split; [apply value_counts_In; now split|].
      simpl. now apply negb_true_iff, Nat.eqb_neq. }
  pose proof (block_compress data s majority Hrect Hg) as Hmajority.
  fold present in Hmajority. rewrite <- Hm in Hmajority.
  destruct (mapM_exists
              (fun c r => block r (columns data) m (repeat (Some c) m))
              (fun minority_class =>
                 n_samples <- lift (loc majority counts) ;;
                 resample (DataFrame_compress (eq_mask s minority_class) data)
                   n_samples (Some 42))
              minority_classes) as [resampled [Hres Hrun_res]].
  { intros c Hc. apply Hmin_in in Hc. destruct Hc as [Hc_in Hc_n].
    destruct (resample_block
                (DataFrame_compress (eq_mask s c) data) (columns data)
                (count_scalar c present) m 42 c) as [r [Hr Hrun]].
    - now apply block_compress.
    - now apply count_scalar_pos.
    - exists r. split; [assumption|]. intros global.
      unfold bind, lift.
      rewrite (loc_spec counts majority m (value_counts_NoDup s) Hmaj).
      apply Hrun. }
  pose proof (block_fold_concat2 (columns data) m Hnd minority_classes resampled
                Hres _ _ _ Hmajority) as Hcombined.
  set (combined := fold_left concat2 resampled
                     (DataFrame_compress (eq_mask s majority) data)) in *.
  set (labels := repeat (Some majority) m
                 ++ List.concat (map (fun c => repeat (Some c) m) minority_classes))
    in *.
  destruct (sample_eval combined 42) as [p [Hp Hsample]].
  assert (Hshape : shape0 combined = m + length minority_classes * m)
    by apply Hcombined.
  assert (Hbound : Forall (fun i => i < shape0 combined) p)
    by now apply Permutation_seq_bound.
  pose proof (block_gather combined _ _ _ p Hcombined) as Hbalanced.
  destruct Hbalanced as [Hb_rect [Hb_names [Hb_rows [s' [Hb_get Hb_items]]]]].
  assert (Hlen_labels : length labels = shape0 combined).
  { destruct Hcombined as [Hc_rect [_ [_ [sc [Hc_get Hc_items]]]]].
    rewrite <- Hc_items, items_length. now apply (getitem_len class_column). }
  assert (Hperm : Permutation labels (gather p labels)).
  { apply gather_Permutation. now rewrite Hlen_labels. }
  exists majority, (DataFrame_gather p combined), s'.
  split; [exact Hidx|]. split; [now rewrite Hm|]. split; [exact Hle|].
  split; [|split; [exact Hb_rect|split; [exact Hb_names|split; [exact Hb_get|split]]]].
  - intros global. unfold balanced_data.
    run_lift Hg. fold counts. cbv zeta. run_lift Hidx. fold m.
    fold minority_classes. unfold bind at 1. rewrite Hrun_res.
    unfold bind at 1, lift at 1. unfold concat. fold combined.
    rewrite Hsample. now rewrite (DataFrame_take_ok p combined) by
      (assumption || apply Hcombined).
  - rewrite Hb_items. apply hasnans_false_In. intros Hin.
    apply (Permutation_in _ (Permutation_sym Hperm)) in Hin.
    apply hasnans_false_In in Hin; [exact Hin|].
    unfold labels. now rewrite hasnans_app, hasnans_repeat, hasnans_blocks.
  - intros c. rewrite Hb_items.
    rewrite <- (count_scalar_Permutation c _ _ (dropna_Permutation _ _ Hperm)).
    unfold labels. rewrite dropna_app, count_scalar_app, dropna_repeat,
      count_scalar_repeat, (count_scalar_blocks c m minority_classes Hmin_nd).
    destruct (scalar_eqb majority c) eqn:Emaj.
    + apply scalar_eqb_eq in Emaj. subst c. rewrite scalar_eqb_refl.
      assert (He : existsb (fun x => scalar_eqb x majority) minority_classes = false).
      { apply not_true_is_false. intros Hc. apply existsb_exists in Hc.
        destruct Hc as [x [Hx Hxc]]. apply scalar_eqb_eq in Hxc. subst x.
        apply Hmin_in in Hx. destruct Hx as [_ Hx]. now apply Hx. }
      rewrite He. lia.
    + assert (Hne : scalar_eqb c majority = false).
      { apply scalar_eqb_neq. intros ->. now rewrite scalar_eqb_refl in Emaj. }
      rewrite Hne. simpl.
      destruct (existsb (fun x => scalar_eqb x c) minority_classes) eqn:Ex.
      * apply existsb_exists in Ex. destruct Ex as [x [Hx Hxc]].
        apply scalar_eqb_eq in Hxc. subst x. apply Hmin_in in Hx.
        destruct Hx as [Hin Hn].
        pose proof (count_scalar_pos c present Hin) as Hpos.
        destruct (Nat.ltb_spec 0 (count_scalar c present)); [|lia].
        destruct (Nat.eqb_spec (count_scalar c present) m); [contradiction|].
        reflexivity.
      * destruct (Nat.ltb_spec 0 (count_scalar c present)) as [Hpos|Hz];
          [|reflexivity].
        destruct (Nat.eqb_spec (count_scalar c present) m) as [Heq|Hneq];
          [reflexivity|].
        exfalso. apply not_true_iff_false in Ex. apply Ex.
        apply existsb_exists. exists c. split; [|apply scalar_eqb_refl].
        apply Hmin_in. split; [|assumption].
        destruct (in_dec (fun a b =>
                    match Bool.bool_dec (scalar_eqb a b) true with
                    | left e => left (proj1 (scalar_eqb_eq a b) e)
                    | right n => right (fun e => n (proj2 (scalar_eqb_eq a b) e))
                    end) c present) as [Hin|Hnin]; [assumption|].
        rewrite count_scalar_zero in Hpos by assumption. lia.
Qed.

End BalancerGeneral.

Lemma same_type_trans (a b c : scalar) :
  same_type a b = true -> same_type a c = true -> same_type b c = true.
Proof. destruct a, b, c; simpl; congruence. Qed.

Lemma np_unique_same_type (y classes : list scalar) :
  np_unique y = Ok classes ->
  forall a b, In a y -> In b y -> same_type a b = true.
Proof.
  unfold np_unique. destruct y as [|first y']; [intros _ a b []|].
  destruct (forallb (same_type first) (first :: y')) eqn:E; [|discriminate].
  intros _ a b Ha Hb. rewrite forallb_forall in E.
  exact (same_type_trans first a b (E a Ha) (E b Hb)).
Qed.

Lemma np_unique_ok (y : list scalar) :
  (forall a b, In a y -> In b y -> same_type a b = true) ->
  exists classes, np_unique y = Ok classes.
Proof.
  intros Hsame. unfold np_unique. destruct y as [|first y']; [now exists []|].
  assert (E : forallb (same_type first) (first :: y') = true).
  { apply forallb_forall. intros x Hx. apply Hsame; [now left|assumption]. }
  rewrite E. eexists. reflexivity.
Qed.

Lemma count_scalar_In (c : scalar) (y : list scalar) :
  0 < count_scalar c y -> In c y.
Proof.
  induction y as [|v y IH]; simpl; [lia|].
  destruct (scalar_eqb v c) eqn:E.
  - apply scalar_eqb_eq in E. intros _. now left.
  - intros Hpos. right. now apply IH.
Qed.

Section BalancedOutput.

Context {rng : Type} `{RandomStateLaws rng}.

(** The frame that cell 4 returns is balanced over the labels it
    kept: each of them has the majority count of the input. *)
Lemma balanced_data_uniform (data : DataFrame) (s : Series) (classes0 : list scalar) :
  rectangular data ->
  NoDup (columns data) ->
  getitem class_column data = Ok s ->
  dropna (items s) <> [] ->
  np_unique (dropna (items s)) = Ok classes0 ->
  exists balanced classes,
    (forall global, balanced_data data global = (Ok balanced, global))
    /\ uniform balanced classes (Series_max (value_counts s)).
Proof.
  intros Hrect Hnd Hg Hpresent Hu0.
  destruct (balanced_data_counts data s Hrect Hnd Hg Hpresent)
    as [majority [balanced [s' [Hidx [Hm [Hle [Hrun [Hb_rect [_ [Hb_get
         [Hb_nan Hcount]]]]]]]]]]].
  set (present := dropna (items s)) in *.
  set (m := Series_max (value_counts s)) in *.
  set (labels := dropna (items s')) in *.
  assert (Hmpos : 0 < m).
  { rewrite <- Hm. apply count_scalar_pos.
    assert (Hin : In (majority, m) (value_counts s)).
    { unfold idxmax in Hidx.
      destruct (find (fun p => snd p =? Series_max (value_counts s)) (value_counts s))
        as [p|] eqn:E; [|discriminate].
      injection Hidx as <-. apply find_some in E. destruct E as [Hin He].
      apply Nat.eqb_eq in He. fold m in He. rewrite <- He. now destruct p. }
    now apply value_counts_In in Hin. }
  assert (Hkept : forall c, In c labels -> In c present /\ count_scalar c labels = m).
  { intros c Hc. pose proof (count_scalar_pos c labels Hc) as Hpos.
    specialize (Hcount c). fold labels present in Hcount.
    destruct (scalar_eqb c majority) eqn:Emaj.
    - apply scalar_eqb_eq in Emaj. subst c. split; [|assumption].
      apply count_scalar_In. lia.
    - destruct (Nat.ltb_spec 0 (count_scalar c present)) as [Hp|Hp];
        simpl in Hcount.
      + split; [now apply count_scalar_In|].
        destruct (negb (count_scalar c present =? m)); [assumption|lia].
      + lia. }
  assert (Hmaj_in : In majority labels).
  { apply count_scalar_In. specialize (Hcount majority).
    rewrite scalar_eqb_refl in Hcount. fold labels in Hcount. lia. }
  destruct (np_unique_ok labels) as [classes Hu].
  { intros a b Ha Hb.
    apply (np_unique_same_type present classes0 Hu0); now apply Hkept. }
  exists balanced, classes. split; [exact Hrun|].
  split; [exact Hb_rect|]. exists s', labels.
  split; [exact Hb_get|]. split.
  - unfold check_array_y. now rewrite Hb_nan.
  - split; [exact Hu|].
    destruct (np_unique_classes labels classes Hu) as [_ Hcl]. split.
    + intros Hnil. apply (Hcl majority) in Hmaj_in. now rewrite Hnil in Hmaj_in.
    + intros c Hc. apply Hkept. now apply Hcl.
Qed.

End BalancedOutput.

(** * Further properties of the code *)

(** ** Imputation and the missing counts *)

Lemma data_cleaned_cols (data : DataFrame) :
  NoDup (columns data) ->
  cols (data_cleaned data) = map imputed (cols data).
Proof.
  intros Hnd. unfold data_cleaned, fillna. simpl.
  apply map_ext_in. intros [name s] Hin.
  rewrite (lookup_mean_numeric_only data (name, s) Hnd Hin). simpl.
  destruct s; reflexivity.
Qed.

Lemma data_cleaned_columns (data : DataFrame) :
  columns (data_cleaned data) = columns data.
Proof.
  unfold columns, data_cleaned, fillna. simpl. rewrite map_map.
  apply map_ext. intros c. destruct (lookup (fst c) (mean_numeric_only data)); reflexivity.
Qed.

Lemma isnull_sum_clean {A : Type} (v : list (option A)) :
  hasnans v = false -> isnull_sum v = 0.
Proof.
  unfold hasnans, isnull_sum. induction v as [|[x|] v IH]; simpl; auto. discriminate.
Qed.

Lemma isnull_sum_all {A : Type} (v : list (option A)) :
  dropna v = [] -> isnull_sum v = length v.
Proof.
  unfold dropna, isnull_sum. induction v as [|[x|] v IH]; simpl; auto; try discriminate.
Qed.

(** X1.  The missing counts of cell 3, [isnull().sum()], taken after
    the imputation, for a frame with distinct column names: a numeric
    column that has a value has no missing entry left; a numeric column
    without any value is still missing in every row; a non-numeric
    column (the labels, for one) has as many missing entries as before,
    since no mean is computed for it. *)
Theorem missing_values_after_imputation (data : DataFrame) :
  NoDup (columns data) ->
  Forall2
    (fun c after =>
       fst after = fst c
       /\ snd after = match snd c with
                      | Float64 v => match nanmean v with
                                     | Some _ => 0
                                     | None => length v
                                     end
                      | Object v => isnull_sum v
                      end)
    (cols data) (missing_values (data_cleaned data)).
Proof.
  intros Hnd. unfold missing_values. rewrite (data_cleaned_cols data Hnd), map_map.
  apply Forall2_map_self. apply Forall_forall. intros [name [v|v]] _; simpl.
  - split; [reflexivity|]. unfold nanmean.
    destruct (dropna v) as [|x xs] eqn:E.
    + simpl. now apply isnull_sum_all.
    + apply isnull_sum_clean. apply fillna_values_no_nan.
  - split; reflexivity.
Qed.

Section MeanImputation.

Local Open Scope R_scope.

Lemma dropna_fillna_values (m : R) (v : list (option R)) :
  Rsum (dropna (fillna_values (Some m) v)) = Rsum (dropna v) + INR (isnull_sum v) * m
  /\ length (dropna (fillna_values (Some m) v)) = (length (dropna v) + isnull_sum v)%nat.
Proof.
  unfold isnull_sum. simpl. induction v as [|[x|] v [IHs IHl]].
  - simpl. split; [ring|reflexivity].
  - cbn [map dropna flat_map app filter isnan Rsum fold_right length] in *.
    fold (dropna (map (fun c : option R => match c with Some y => Some y | None => Some m end) v)).
    fold (dropna v). fold (Rsum (dropna v)).
    change (fold_right Rplus 0 ?l) with (Rsum l). rewrite IHs.
    split; [ring|]. simpl. now rewrite IHl.
  - cbn [map dropna flat_map app filter isnan Rsum fold_right length] in *.
    fold (dropna (map (fun c : option R => match c with Some y => Some y | None => Some m end) v)).
    fold (dropna v).
    change (fold_right Rplus 0 ?l) with (Rsum l). rewrite IHs.
    split; [rewrite S_INR; ring|]. simpl. rewrite IHl. lia.
Qed.

(** Filling the gaps of a column with its mean keeps the mean. *)
Lemma nanmean_fillna_values (v : list (option R)) :
  nanmean (fillna_values (nanmean v) v) = nanmean v.
Proof.
  destruct (nanmean v) as [m|] eqn:Em; [|simpl; exact Em].
  destruct (dropna_fillna_values m v) as [Hs Hl].
  unfold nanmean in *.
  destruct (dropna v) as [|x xs] eqn:E; [discriminate|].
  destruct (dropna (fillna_values (Some m) v)) as [|y ys] eqn:E';
    [simpl in Hl; lia|].
  assert (Em' : m = Rsum (x :: xs) / INR (length (x :: xs))) by congruence.
  clear Em. f_equal. rewrite Hs, Hl, plus_INR.
  pose proof (INR_length_pos x xs) as Hpos.
  pose proof (pos_INR (isnull_sum v)) as Hk.
  set (n := INR (length (x :: xs))) in *. set (k := INR (isnull_sum v)) in *.
  set (total := Rsum (x :: xs)) in *.
  rewrite Em'. field. split; lra.
Qed.

End MeanImputation.

Lemma mean_numeric_only_map (l : list (string * Series)) (n : nat) :
  mean_numeric_only {| shape0 := n; cols := map imputed l |}
  = mean_numeric_only {| shape0 := n; cols := l |}.
Proof.
  unfold mean_numeric_only. simpl.
  induction l as [|[name [v|v]] l IH]; simpl; [reflexivity| |assumption].
  now rewrite IH, nanmean_fillna_values.
Qed.

(** X2.  Mean imputation keeps the column means:
    [mean(numeric_only=True)] of the cleaned frame is that of the raw
    frame, for a frame with distinct column names. *)
Theorem imputation_preserves_column_means (data : DataFrame) :
  NoDup (columns data) ->
  mean_numeric_only (data_cleaned data) = mean_numeric_only data.
Proof.
  intros Hnd. pose proof (data_cleaned_cols data Hnd) as Hc.
  destruct (data_cleaned data) as [n l] eqn:E. simpl in Hc. subst l.
  rewrite mean_numeric_only_map. destruct data; reflexivity.
Qed.

Lemma imputed_imputed (c : string * Series) : imputed (imputed c) = imputed c.
Proof.
  destruct c as [name [v|v]]; unfold imputed; simpl; [|reflexivity].
  rewrite nanmean_fillna_values.
  destruct (nanmean v) as [m|]; [|reflexivity].
  now rewrite (fillna_values_clean (Some m) _ (fillna_values_no_nan m v)).
Qed.

(** X3.  Cleaning is idempotent: cleaning a cleaned frame returns it
    as it is (distinct column names). *)
Theorem imputation_is_idempotent (data : DataFrame) :
  NoDup (columns data) ->
  data_cleaned (data_cleaned data) = data_cleaned data.
Proof.
  intros Hnd.
  assert (Hnd' : NoDup (columns (data_cleaned data)))
    by now rewrite data_cleaned_columns.
  pose proof (data_cleaned_cols _ Hnd') as H2.
  pose proof (data_cleaned_cols _ Hnd) as H1.
  rewrite H1 in H2. rewrite map_map in H2.
  rewrite (map_ext _ _ imputed_imputed) in H2. rewrite <- H1 in H2.
  destruct (data_cleaned (data_cleaned data)) as [n2 l2] eqn:E2.
  destruct (data_cleaned data) as [n1 l1] eqn:E1.
  simpl in H2. subst l2. f_equal.
  unfold data_cleaned, fillna in E2. simpl in E2. now injection E2 as <- _.
Qed.

(** ** The balancer: failures, the distribution it prints, the rows it takes *)

Lemma value_counts_empty (s : Series) :
  dropna (items s) = [] -> value_counts s = [].
Proof. unfold value_counts. now intros ->. Qed.

Section BalancerErrors.

Context {rng : Type} `{RandomStateOps rng}.

(** X4.  Cell 4 on a frame without a [gas_label] column raises
    [KeyError]; on a frame whose label column holds no label at all (no
    row, or only missing labels) it raises [ValueError], from [idxmax]
    on the empty distribution.  The process-wide generator is left as
    it was. *)
Theorem balancing_fails_without_labels (data : DataFrame) :
  (lookup class_column (cols data) = None ->
   forall global : rng, balanced_data data global = (Raise KeyError, global))
  /\ (forall s, getitem class_column data = Ok s ->
      dropna (items s) = [] ->
      forall global : rng, balanced_data data global = (Raise ValueError, global)).
Proof.
  split.
  - intros Hl global. unfold balanced_data, bind, lift, getitem. now rewrite Hl.
  - intros s Hg Hnone global. unfold balanced_data.
    run_lift Hg. rewrite (value_counts_empty s Hnone). reflexivity.
Qed.

End BalancerErrors.

Lemma compress_gather {A : Type} (mask : list bool) (v : list (option A)) :
  compress mask v = gather (compress mask (seq 0 (length v))) v.
Proof.
  unfold gather. rewrite <- compress_map. now rewrite map_nth_seq.
Qed.

Lemma compress_seq_bound (mask : list bool) (n : nat) :
  Forall (fun i => i < n) (compress mask (seq 0 n)).
Proof.
  apply Forall_forall. intros i Hi.
  apply (subseq_In _ _ _ (compress_subseq mask (seq 0 n))) in Hi.
  apply in_seq in Hi. lia.
Qed.

Lemma DataFrame_compress_gather (mask : list bool) (df : DataFrame) :
  rectangular df ->
  DataFrame_compress mask df
  = DataFrame_gather (compress mask (seq 0 (shape0 df))) df.
Proof.
  intros Hrect. unfold DataFrame_compress, DataFrame_gather. f_equal.
  apply map_ext_in. intros c Hc. f_equal.
  unfold rectangular in Hrect. rewrite Forall_forall in Hrect.
  rewrite <- (Hrect c Hc).
  destruct (snd c) as [v|v]; simpl; now rewrite <- compress_gather.
Qed.

Lemma gather_gather {A : Type} (i j : list nat) (v : list (option A)) :
  Forall (fun k => k < length j) i ->
  gather i (gather j v) = gather (map (fun k => nth k j 0) i) v.
Proof.
  intros Hb. unfold gather. rewrite map_map. apply map_ext_in. intros k Hk.
  rewrite Forall_forall in Hb. specialize (Hb k Hk).
  rewrite (nth_indep _ None (nth 0 v None)) by now rewrite length_map.
  change (nth 0 v None) with ((fun a => nth a v None) 0).
  now rewrite map_nth.
Qed.

Lemma DataFrame_gather_gather (i j : list nat) (df : DataFrame) :
  Forall (fun k => k < length j) i ->
  DataFrame_gather i (DataFrame_gather j df)
  = DataFrame_gather (map (fun k => nth k j 0) i) df.
Proof.
  intros Hb. unfold DataFrame_gather. simpl. rewrite length_map. f_equal.
  rewrite map_map. apply map_ext. intros c. simpl. f_equal.
  destruct (snd c) as [v|v]; simpl; now rewrite gather_gather.
Qed.

Lemma nth_bound (j : list nat) (n k : nat) :
  Forall (fun a => a < n) j -> k < length j -> nth k j 0 < n.
Proof.
  intros Hj Hk. rewrite Forall_forall in Hj. apply Hj. now apply nth_In.
Qed.

Lemma lookup_NoDup {A : Type} (l : list (string * A)) (c : string * A) :
  NoDup (map fst l) -> In c l -> lookup (fst c) l = Some (snd c).
Proof.
  induction l as [|[n a] l IH]; simpl; intros Hnd Hin; [contradiction|].
  inversion Hnd as [|? ? Hni Hnd']; subst.
  destruct Hin as [<-|Hin]; simpl.
  - now rewrite String.eqb_refl.
  - destruct (String.eqb_spec n (fst c)) as [->|Hne]; [|now apply IH].
    exfalso. apply Hni. now apply in_map.
Qed.

Lemma Series_append_gather (i j : list nat) (s : Series) :
  Series_append (Series_gather i s) (Series_gather j s) = Series_gather (i ++ j) s.
Proof.
  destruct s as [v|v]; simpl; unfold gather; now rewrite map_app.
Qed.

Lemma concat2_gather (i j : list nat) (df : DataFrame) :
  NoDup (columns df) ->
  concat2 (DataFrame_gather i df) (DataFrame_gather j df)
  = DataFrame_gather (i ++ j) df.
Proof.
  intros Hnd. unfold concat2, DataFrame_gather. simpl. rewrite length_app. f_equal.
  assert (Hnone : filter
            (fun c => negb (existsb (String.eqb (fst c))
                              (columns {| shape0 := length i;
                                          cols := map (fun c0 => (fst c0, Series_gather i (snd c0)))
                                                    (cols df) |})))
            (map (fun c => (fst c, Series_gather j (snd c))) (cols df)) = []).
  { rewrite <- (filter_ext_in (fun _ => false)).
    - clear. induction (map _ (cols df)); simpl; auto.
    - intros c Hc. symmetry. apply negb_false_iff. apply existsb_exists.
      exists (fst c). split; [|apply String.eqb_refl].
      unfold columns. simpl. rewrite map_fst_map_snd.
      apply in_map_iff in Hc. destruct Hc as [c0 [<- Hc0]]. simpl.
      now apply in_map. }
  rewrite Hnone. simpl. rewrite app_nil_r, map_map. simpl.
  apply map_ext_in. intros c Hc. f_equal.
  rewrite (lookup_map_snd (Series_gather j)).
  rewrite (lookup_NoDup _ c Hnd Hc). simpl. apply Series_append_gather.
Qed.

Lemma fold_concat2_gather (data : DataFrame) (P : nat -> Prop) :
  NoDup (columns data) ->
  forall (rs : list DataFrame) (a : DataFrame) (ia : list nat),
  Forall (fun r => exists ir, rows_of data r ir /\ Forall P ir) rs ->
  rows_of data a ia ->
  exists rest, rows_of data (fold_left concat2 rs a) (ia ++ rest) /\ Forall P rest.
Proof.
  intros Hnd rs. induction rs as [|r rs IH]; intros a ia Hall Ha.
  - exists []. rewrite app_nil_r. now split.
  - inversion Hall as [|? ? [ir [[Hbr ->] Hpr]] Hall']; subst.
    destruct Ha as [Hba ->]. simpl. rewrite (concat2_gather ia ir data Hnd).
    destruct (IH (DataFrame_gather (ia ++ ir) data) (ia ++ ir) Hall')
      as [rest [Hrows Hrest]].
    + split; [|reflexivity]. apply Forall_app. now split.
    + exists (ir ++ rest). rewrite app_assoc. split; [assumption|].
      apply Forall_app. now split.
Qed.

Lemma Forall2_Forall_r {A B : Type} (P : A -> B -> Prop) (Q : B -> Prop)
    (l : list A) (l' : list B) :
  Forall2 P l l' -> (forall a b, In a l -> P a b -> Q b) -> Forall Q l'.
Proof.
  induction 1 as [|a b l l' Hab _ IH]; intros HPQ; constructor.
  - apply (HPQ a); [now left|assumption].
  - apply IH. intros a' b' Ha'. apply HPQ. now right.
Qed.

(** The positions a label mask selects hold that label. *)
Lemma eq_mask_positions (s : Series) (c : scalar) :
  Forall (fun i => nth i (items s) None = Some c)
    (compress (eq_mask s c) (seq 0 (length (items s)))).
Proof.
  unfold eq_mask.
  assert (Hgen : forall (pre v : list (option scalar)),
            Forall (fun i => nth i (pre ++ v) None = Some c)
              (compress (map (fun o => match o with
                                       | Some x => scalar_eqb x c
                                       | None => false
                                       end) v) (seq (length pre) (length v)))).
  { intros pre v. revert pre. induction v as [|o v IH]; intros pre; simpl;
      [constructor|].
    specialize (IH (pre ++ [o])). rewrite length_app in IH. simpl in IH.
    rewrite Nat.add_1_r, <- app_assoc in IH. simpl in IH.
    destruct o as [x|]; [|exact IH].
    destruct (scalar_eqb x c) eqn:E; [|exact IH].
    constructor; [|exact IH].
    rewrite app_nth2 by lia. rewrite Nat.sub_diag. simpl.
    apply scalar_eqb_eq in E. now subst. }
  exact (Hgen [] (items s)).
Qed.

(** And every position that holds the label is selected. *)
Lemma eq_mask_selects (s : Series) (c : scalar) (i : nat) :
  nth i (items s) None = Some c ->
  In i (compress (eq_mask s c) (seq 0 (length (items s)))).
Proof.
  unfold eq_mask.
  assert (Hgen : forall (v : list (option scalar)) (start : nat),
            nth i v None = Some c ->
            In (start + i)
              (compress (map (fun o => match o with
                                       | Some x => scalar_eqb x c
                                       | None => false
                                       end) v) (seq start (length v)))).
  { intros v. revert i. induction v as [|o v IH]; intros i start Hi.
    - destruct i; discriminate.
    - destruct i as [|i]; simpl in Hi.
      + subst o. simpl. rewrite scalar_eqb_refl, Nat.add_0_r. now left.
      + specialize (IH i (S start) Hi).
        replace (start + S i) with (S start + i) by lia. simpl.
        destruct o as [x|]; [|exact IH].
        destruct (scalar_eqb x c); [now right|exact IH]. }
  intros Hi. exact (Hgen (items s) 0 Hi).
Qed.

Lemma subseq_NoDup {A : Type} (l1 l2 : list A) :
  subseq l1 l2 -> NoDup l2 -> NoDup l1.
Proof.
  induction 1 as [l|x l1 l2 _ IH|x l1 l2 Hs IH]; intros Hnd.
  - constructor.
  - inversion Hnd; subst. now apply IH.
  - inversion Hnd as [|? ? Hni Hnd']; subst. constructor; [|now apply IH].
    intros Hin. apply Hni. now apply (subseq_In _ _ _ Hs).
Qed.

Lemma map_nth_Permutation (ic p : list nat) :
  Permutation (seq 0 (length ic)) p ->
  Permutation ic (map (fun k => nth k ic 0) p).
Proof.
  intros Hp. rewrite <- (map_nth_seq ic 0) at 1. now apply Permutation_map.
Qed.

Lemma count_occ_one (l : list nat) (i : nat) :
  NoDup l -> In i l -> count_occ Nat.eq_dec l i = 1.
Proof.
  intros Hnd Hin. exact (proj1 (NoDup_count_occ' Nat.eq_dec l) Hnd i Hin).
Qed.

Section BalancerRows.

Context {rng : Type} `{RandomStateLaws rng}.

(** The rows cell 4 takes: the balanced frame is the input at a list
    of positions of labelled rows, with each majority row once. *)
Lemma balanced_data_rows (data : DataFrame) (s : Series) :
  rectangular data ->
  NoDup (columns data) ->
  getitem class_column data = Ok s ->
  dropna (items s) <> [] ->
  exists majority indices,
    idxmax (value_counts s) = Ok majority
    /\ Forall (fun i => i < shape0 data) indices
    /\ Forall (fun i => nth i (items s) None <> None) indices
    /\ (forall i, nth i (items s) None = Some majority ->
        count_occ Nat.eq_dec indices i = 1)
    /\ forall global : rng,
        balanced_data data global = (Ok (DataFrame_gather indices data), global).
Proof.
  intros Hrect Hnd Hg Hpresent.
  set (counts := value_counts s). set (m := Series_max counts).
  assert (Hcounts : counts <> []).
  { destruct (dropna (items s)) as [|x l] eqn:E; [congruence|].
    assert (Hx : In (x, count_scalar x (dropna (items s))) counts).
    { apply value_counts_In. rewrite E. split; [now left|reflexivity]. }
    intros Hc. now rewrite Hc in Hx. }
  destruct (idxmax_spec counts Hcounts) as [majority [Hidx Hmaj]]. fold m in Hmaj.
  set (minority_classes := map fst (filter (fun p => negb (snd p =? m)) counts)).
  assert (Hlen_items : length (items s) = shape0 data).
  { rewrite items_length. now apply (getitem_len class_column). }
  pose (minor := fun i => exists c, In c minority_classes
                                    /\ nth i (items s) None = Some c).
  assert (Hclass : forall c,
            rows_of data (DataFrame_compress (eq_mask s c) data)
              (compress (eq_mask s c) (seq 0 (shape0 data)))).
  { intros c. split; [apply compress_seq_bound|now apply DataFrame_compress_gather]. }
  destruct (mapM_exists
              (fun c r => exists ir, rows_of data r ir /\ Forall minor ir)
              (fun minority_class =>
                 n_samples <- lift (loc majority counts) ;;
                 resample (DataFrame_compress (eq_mask s minority_class) data)
                   n_samples (Some 42))
              minority_classes) as [resampled [Hres Hrun_res]].
  { intros c Hc.
    assert (Hin : In c (dropna (items s))).
    { unfold minority_classes in Hc. apply in_map_iff in Hc.
      destruct Hc as [[c' n] [Hcc Hin]]. simpl in Hcc. subst c'.
      apply filter_In in Hin. destruct Hin as [Hin _].
      now apply value_counts_In in Hin. }
    destruct (Hclass c) as [Hb Heq].
    pose proof (eq_mask_positions s c) as Hlab. rewrite Hlen_items in Hlab.
    set (part := DataFrame_compress (eq_mask s c) data) in *.
    set (ic := compress (eq_mask s c) (seq 0 (shape0 data))) in *.
    assert (Hrows : 0 < shape0 part).
    { destruct (DataFrame_compress_spec data s c Hrect Hg) as [_ [_ [Hsh _]]].
      fold part in Hsh. rewrite Hsh. now apply count_scalar_pos. }
    destruct (resample_eval part m 42 Hrows) as [indices [Hlen [Hrange Hrun]]].
    exists (DataFrame_gather indices part). split.
    - assert (Hshape : shape0 part = length ic) by now rewrite Heq.
      rewrite Hshape in Hrange.
      exists (map (fun k => nth k ic 0) indices). split; [split|].
      + apply Forall_forall. intros i Hi. apply in_map_iff in Hi.
        destruct Hi as [k [<- Hk]]. rewrite Forall_forall in Hrange.
        apply (nth_bound ic _ k Hb). now apply Hrange.
      + rewrite Heq. now apply DataFrame_gather_gather.
      + apply Forall_forall. intros i Hi. apply in_map_iff in Hi.
        destruct Hi as [k [<- Hk]]. rewrite Forall_forall in Hrange, Hlab.
        exists c. split; [assumption|]. apply Hlab.
        apply nth_In. now apply Hrange.
    - intros global. unfold bind, lift.
      rewrite (loc_spec counts majority m (value_counts_NoDup s) Hmaj).
      rewrite Hrun. f_equal.
      apply DataFrame_take_ok; [|assumption].
      rewrite Heq. apply DataFrame_gather_rectangular. }
  set (ia := compress (eq_mask s majority) (seq 0 (shape0 data))).
  destruct (fold_concat2_gather data minor Hnd resampled _ ia
              (Forall2_Forall_r _ _ _ _ Hres (fun _ _ _ Hp => Hp))
              (Hclass majority)) as [rest [[Hbc Hceq] Hrest]].
  set (combined := fold_left concat2 resampled
                     (DataFrame_compress (eq_mask s majority) data)) in *.
  set (ic := ia ++ rest) in *.
  destruct (sample_eval combined 42) as [p [Hp Hsample]].
  assert (Hshape : shape0 combined = length ic) by now rewrite Hceq.
  assert (Hbound : Forall (fun i => i < length ic) p).
  { rewrite <- Hshape. now apply Permutation_seq_bound. }
  assert (Hperm : Permutation ic (map (fun k => nth k ic 0) p)).
  { apply map_nth_Permutation. now rewrite <- Hshape. }
  assert (Hmaj_lab : Forall (fun i => nth i (items s) None = Some majority) ia).
  { unfold ia. rewrite <- Hlen_items. apply eq_mask_positions. }
  exists majority, (map (fun k => nth k ic 0) p).
  split; [exact Hidx|]. split; [|split; [|split]].
  - apply Forall_forall. intros i Hi.
    apply (Permutation_in _ (Permutation_sym Hperm)) in Hi.
    rewrite Forall_forall in Hbc. now apply Hbc.
  - apply Forall_forall. intros i Hi.
    apply (Permutation_in _ (Permutation_sym Hperm)) in Hi.
    unfold ic in Hi. apply in_app_or in Hi. destruct Hi as [Hi|Hi].
    + rewrite Forall_forall in Hmaj_lab. rewrite (Hmaj_lab i Hi). discriminate.
    + rewrite Forall_forall in Hrest. destruct (Hrest i Hi) as [c [_ ->]].
      discriminate.
  - intros i Hi.
    rewrite <- (proj1 (Permutation_count_occ Nat.eq_dec _ _) Hperm i).
    unfold ic. rewrite count_occ_app.
    assert (Hnot : ~ In i rest).
    { intros Hin. rewrite Forall_forall in Hrest.
      destruct (Hrest i Hin) as [c [Hc Hlab]]. rewrite Hi in Hlab.
      injection Hlab as <-. unfold minority_classes in Hc.
      apply in_map_iff in Hc. destruct Hc as [[c' n] [Hcc Hin']].
      simpl in Hcc. subst c'. apply filter_In in Hin'. destruct Hin' as [Hin' Hn].
      simpl in Hn. apply negb_true_iff, Nat.eqb_neq in Hn.
      pose proof (value_counts_NoDup s) as Hnd_counts. fold counts in Hnd_counts.
      pose proof (loc_spec counts majority m Hnd_counts Hmaj) as H1.
      pose proof (loc_spec counts majority n Hnd_counts Hin') as H2.
      rewrite H1 in H2. injection H2 as H2. now apply Hn. }
    apply (count_occ_not_In Nat.eq_dec) in Hnot. rewrite Hnot, Nat.add_0_r.
    apply count_occ_one.
    + apply (subseq_NoDup _ (seq 0 (shape0 data))); [apply compress_subseq|].
      apply seq_NoDup.
    + unfold ia. rewrite <- Hlen_items. now apply eq_mask_selects.
  - intros global. unfold balanced_data.
    run_lift Hg. fold counts. cbv zeta. run_lift Hidx. fold m.
    fold minority_classes. unfold bind at 1. rewrite Hrun_res.
    unfold bind at 1, lift at 1. unfold concat. fold combined.
    rewrite Hsample. f_equal.
    rewrite DataFrame_take_ok.
    + rewrite Hceq. now rewrite DataFrame_gather_gather.
    + rewrite Hceq. apply DataFrame_gather_rectangular.
    + now rewrite Hshape.
Qed.

(** X6.  Balancing only copies rows: the balanced frame is the input
    taken at a list of row positions.  Each of these positions is a
    labelled row of the input (a row with a missing label is never
    taken), and each row of the majority class is taken exactly
    once. *)
Theorem balancing_only_copies_rows (data : DataFrame) (s : Series) :
  rectangular data ->
  NoDup (columns data) ->
  getitem class_column data = Ok s ->
  dropna (items s) <> [] ->
  exists majority indices,
    idxmax (value_counts s) = Ok majority
    /\ Forall (fun i => i < shape0 data) indices
    /\ Forall (fun i => nth i (items s) None <> None) indices
    /\ (forall i, nth i (items s) None = Some majority ->
        count_occ Nat.eq_dec indices i = 1)
    /\ forall global : rng,
        balanced_data data global = (Ok (DataFrame_gather indices data), global).
Proof.
  intros Hrect Hnd Hg Hpresent.
  destruct (balanced_data_rows data s Hrect Hnd Hg Hpresent)
    as [majority [indices Hrows]].
  exists majority, indices. exact Hrows.
Qed.

End BalancerRows.

Section BalancedDistribution.

Context {rng : Type} `{RandomStateLaws rng}.

(** X5.  The class distribution that cell 4 prints after balancing,
    for a rectangular frame with distinct column names and a labelled
    row: every count in it is the majority count of the input; its
    labels are the majority class (the first label of maximal count)
    and the labels whose count is not the maximum; the balanced frame
    has as many rows as labels kept times the majority count.  When no
    other label reaches the maximum, every label of the input is
    kept. *)
Theorem balanced_class_distribution_is_uniform (data : DataFrame) (s : Series) :
  rectangular data ->
  NoDup (columns data) ->
  getitem class_column data = Ok s ->
  dropna (items s) <> [] ->
  let present := dropna (items s) in
  let m := Series_max (value_counts s) in
  exists majority balanced distribution,
    idxmax (value_counts s) = Ok majority
    /\ (forall global : rng, balanced_data data global = (Ok balanced, global))
    /\ balanced_class_distribution balanced = Ok distribution
    /\ Forall (fun p => snd p = m) distribution
    /\ (forall c, In c (map fst distribution)
                  <-> c = majority
                      \/ (In c present /\ count_scalar c present <> m))
    /\ shape0 balanced = length distribution * m
    /\ ((forall c, In c present -> count_scalar c present = m -> c = majority) ->
        forall c, In c present -> In c (map fst distribution)).
Proof.
  intros Hrect Hnd Hg Hpresent present m.
  destruct (balanced_data_counts data s Hrect Hnd Hg Hpresent)
    as [majority [balanced [s' [Hidx [Hm [Hle [Hrun [Hb_rect [_ [Hb_get
         [Hb_nan Hcount]]]]]]]]]]].
  fold present in Hm, Hle, Hcount. fold m in Hm, Hle, Hcount.
  set (labels := dropna (items s')) in *.
  assert (Hmpos : 0 < m).
  { rewrite <- Hm. apply count_scalar_pos.
    destruct (idxmax_spec (value_counts s)) as [maj' [Hidx' Hin]].
    - intros Hc. rewrite Hc in Hidx. discriminate.
    - rewrite Hidx in Hidx'. injection Hidx' as <-.
      now apply value_counts_In in Hin. }
  assert (Hkept : forall c, In c labels
                            <-> c = majority
                                \/ (In c present /\ count_scalar c present <> m)).
  { intros c. specialize (Hcount c). split.
    - intros Hin. pose proof (count_scalar_pos c labels Hin) as Hpos.
      destruct (scalar_eqb c majority) eqn:Emaj;
        [left; now apply scalar_eqb_eq|right].
      destruct (Nat.ltb_spec 0 (count_scalar c present)) as [Hp|Hp];
        simpl in Hcount; [|lia].
      destruct (Nat.eqb_spec (count_scalar c present) m); simpl in Hcount; [lia|].
      split; [now apply count_scalar_In|assumption].
    - intros [->|[Hin Hne]]; apply count_scalar_In.
      + rewrite Hcount, scalar_eqb_refl. exact Hmpos.
      + rewrite Hcount. destruct (scalar_eqb c majority); [exact Hmpos|].
        pose proof (count_scalar_pos c present Hin) as Hpos.
        destruct (Nat.ltb_spec 0 (count_scalar c present)); [|lia].
        destruct (Nat.eqb_spec (count_scalar c present) m); [contradiction|].
        exact Hmpos. }
  assert (Hall : forall c, In c labels -> count_scalar c labels = m).
  { intros c Hin. pose proof (count_scalar_pos c labels Hin) as Hpos.
    specialize (Hcount c). destruct (scalar_eqb c majority); [assumption|].
    destruct ((0 <? count_scalar c present)
              && negb (count_scalar c present =? m)); [assumption|lia]. }
  exists majority, balanced, (value_counts s').
  split; [exact Hidx|]. split; [exact Hrun|].
  split; [unfold balanced_class_distribution; now rewrite Hb_get|].
  assert (Hdist : forall c, In c (map fst (value_counts s')) <-> In c labels).
  { intros c. rewrite in_map_iff. split.
    - intros [[c' n] [Hc Hin]]. simpl in Hc. subst c'.
      now apply value_counts_In in Hin.
    - intros Hin. exists (c, count_scalar c labels). split; [reflexivity|].
      apply value_counts_In. now split. }
  split; [|split; [|split]].
  - apply Forall_forall. intros [c n] Hin. apply value_counts_In in Hin.
    destruct Hin as [Hin ->]. simpl. now apply Hall.
  - intros c. now rewrite <- Hkept.
  - rewrite <- (getitem_len class_column _ _ Hb_rect Hb_get).
    rewrite <- items_length, <- (dropna_no_nan_length _ Hb_nan).
    fold labels.
    rewrite <- (class_counts_sum labels (map fst (value_counts s'))
                  (value_counts_NoDup s')).
    + rewrite <- (length_map fst (value_counts s')).
      apply list_sum_map_const. intros c Hc. apply Hall.
      apply in_map_iff in Hc. destruct Hc as [[c' n] [Hcc Hin]].
      simpl in Hcc. subst c'. now apply value_counts_In in Hin.
    + intros c Hc. now apply Hdist.
  - intros Honly c Hc. apply Hdist, Hkept.
    destruct (Nat.eq_dec (count_scalar c present) m) as [Heq|Hneq].
    + left. now apply Honly.
    + right. now split.
Qed.

End BalancedDistribution.

(** ** The draws of the balancer and the columns of the split *)

Section Draws.

Context {rng : Type} `{RandomStateLaws rng}.

(** X8.  The shuffle [sample(frac=1)] returns the rows of the frame
    along a permutation of all positions: every row exactly once. *)
Theorem shuffle_keeps_every_row_once (df : DataFrame) (seed : nat) :
  rectangular df ->
  exists p,
    Permutation (seq 0 (shape0 df)) p
    /\ forall global : rng,
        sample df (Some seed) global = (Ok (DataFrame_gather p df), global).
Proof.
  intros Hrect. destruct (sample_eval df seed) as [p [Hp Hrun]].
  exists p. split; [exact Hp|]. intros global. rewrite Hrun. f_equal.
  apply DataFrame_take_ok; [exact Hrect|]. now apply Permutation_seq_bound.
Qed.

(** X7.  [resample] with replacement, for [n_samples > 0]: on a frame
    with rows it returns the rows at [n_samples] positions of the
    frame; on a frame without rows it raises [ValueError]. *)
Theorem resample_draws_rows_of_its_input (df : DataFrame) (n_samples seed : nat) :
  rectangular df ->
  0 < n_samples ->
  (0 < shape0 df ->
   exists indices,
     length indices = n_samples
     /\ Forall (fun i => i < shape0 df) indices
     /\ forall global : rng,
         resample df n_samples (Some seed) global
         = (Ok (DataFrame_gather indices df), global))
  /\ (shape0 df = 0 ->
      forall global : rng,
        resample df n_samples (Some seed) global = (Raise ValueError, global)).
Proof.
  intros Hrect Hn. split.
  - intros Hrows. destruct (resample_eval df n_samples seed Hrows)
      as [indices [Hlen [Hrange Hrun]]].
    exists indices. split; [exact Hlen|]. split; [exact Hrange|].
    intros global. rewrite Hrun. f_equal. now apply DataFrame_take_ok.
  - intros Hz global. unfold resample, with_random_state. rewrite Hz. reflexivity.
Qed.

(** X10.  When the split of cell 5 returns, the label column is not
    among the features: the training and the test features both have
    the columns of the input other than [gas_label], in the input
    order, and each side has one label per row. *)
Theorem features_exclude_the_label_column
    (balanced : DataFrame) (s : Series) (parts : Split) (global global' : rng) :
  rectangular balanced ->
  getitem class_column balanced = Ok s ->
  split balanced global = (Ok parts, global') ->
  columns (X_train parts)
  = filter (fun n => negb (String.eqb n class_column)) (columns balanced)
  /\ columns (X_test parts) = columns (X_train parts)
  /\ ~ In class_column (columns (X_train parts))
  /\ length (y_train parts) = shape0 (X_train parts)
  /\ length (y_test parts) = shape0 (X_test parts).
Proof.
  intros Hrect Hg Hrun.
  destruct (split_inv _ _ _ _ _ Hrect Hg Hrun)
    as [labels [classes [Hy [Hu [Htrain [Hmin [Hk1 Hk2]]]]]]].
  destruct (split_ok _ _ _ _ (Str EmptyString) Hrect Hg Hy Hu Htrain Hmin Hk1 Hk2)
    as [train [test [Hok _]]].
  rewrite (Hok global) in Hrun. injection Hrun as <- _.
  cbn [X_train X_test y_train y_test DataFrame_gather shape0].
  assert (Hcols : forall idx,
            columns (DataFrame_gather idx (features class_column balanced))
            = filter (fun n => negb (String.eqb n class_column)) (columns balanced)).
  { intros idx. unfold columns, DataFrame_gather, features. simpl.
    rewrite map_fst_map_snd. clear.
    induction (cols balanced) as [|c l IH]; simpl; [reflexivity|].
    destruct (String.eqb (fst c) class_column); simpl; now rewrite IH. }
  fold (DataFrame_gather train (features class_column balanced)).
  fold (DataFrame_gather test (features class_column balanced)).
  rewrite !Hcols. split; [reflexivity|]. split; [reflexivity|].
  split; [|split; apply length_map].
  intros Hin. apply filter_In in Hin. destruct Hin as [_ Hneq].
  now rewrite String.eqb_refl in Hneq.
Qed.

End Draws.

(** ** The split on arbitrary and on balanced frames *)

Lemma drop_missing (name : string) (df : DataFrame) :
  lookup name (cols df) = None -> drop name df = Raise KeyError.
Proof.
  intros Hl. unfold drop.
  assert (He : existsb (String.eqb name) (columns df) = false).
  { apply not_true_is_false. intros Hc. apply existsb_exists in Hc.
    destruct Hc as [n [Hin Hn]]. apply String.eqb_eq in Hn. subst n.
    destruct (lookup_some name (cols df) Hin) as [a Ha]. congruence. }
  now rewrite He.
Qed.

Lemma ceil_div_fifth_small (n : nat) : n <= 1 -> n - ceil_div (1 * n) 5 = 0.
Proof.
  intros Hn. destruct n as [|[|n]]; [reflexivity|reflexivity|lia].
Qed.

Lemma ceil_div_fifth_large (n : nat) : 2 <= n -> 0 < n - ceil_div (1 * n) 5.
Proof.
  intros Hn. rewrite floor_four_fifths.
  apply Nat.div_str_pos. lia.
Qed.

Lemma np_unique_mixed (y : list scalar) (a b : scalar) :
  In a y -> In b y -> same_type a b = false -> np_unique y = Raise TypeError.
Proof.
  intros Ha Hb Hab. unfold np_unique. destruct y as [|first y']; [contradiction|].
  destruct (forallb (same_type first) (first :: y')) eqn:E; [|reflexivity].
  rewrite forallb_forall in E.
  rewrite (same_type_trans first a b (E a Ha) (E b Hb)) in Hab. discriminate.
Qed.

Section SplitErrors.

Context {rng : Type} `{RandomStateLaws rng}.

(** X9.  The failures of cell 5 on a frame that need not be
    balanced.  Without a [gas_label] column: [KeyError].  On a
    rectangular frame with the column: [ValueError] when the frame has
    fewer than two rows, and when a label is missing; with two rows or
    more and no label missing, [TypeError] when the labels mix strings
    and numbers; and [ValueError] when the labels are of one type and
    some label has a single row. *)
Theorem split_error_cases (frame : DataFrame) :
  (lookup class_column (cols frame) = None ->
   forall global : rng, split frame global = (Raise KeyError, global))
  /\ (forall s,
        rectangular frame ->
        getitem class_column frame = Ok s ->
        (shape0 frame <= 1 ->
         forall global : rng, split frame global = (Raise ValueError, global))
        /\ (hasnans (items s) = true ->
            forall global : rng, split frame global = (Raise ValueError, global))
        /\ (forall a b,
            2 <= shape0 frame ->
            hasnans (items s) = false ->
            In a (dropna (items s)) -> In b (dropna (items s)) ->
            same_type a b = false ->
            forall global : rng, split frame global = (Raise TypeError, global))
        /\ (forall classes c,
            hasnans (items s) = false ->
            np_unique (dropna (items s)) = Ok classes ->
            In c classes ->
            count_scalar c (dropna (items s)) < 2 ->
            forall global : rng, split frame global = (Raise ValueError, global))).
Proof.
  split.
  - intros Hl global. unfold split. unfold bind at 1, lift at 1.
    now rewrite (drop_missing _ _ Hl).
  - intros s Hrect Hg.
    assert (Hsmall : shape0 frame <= 1 ->
              forall global : rng, split frame global = (Raise ValueError, global)).
    { intros Hn global. rewrite (split_unfold _ _ _ Hrect Hg).
      rewrite _validate_shuffle_split_fifth.
      now rewrite (ceil_div_fifth_small _ Hn). }
    split; [exact Hsmall|]. split; [|split].
    + intros Hnan global.
      destruct (Nat.le_gt_cases (shape0 frame) 1) as [Hn|Hn]; [now apply Hsmall|].
      rewrite (split_unfold _ _ _ Hrect Hg).
      rewrite _validate_shuffle_split_fifth.
      pose proof (ceil_div_fifth_large (shape0 frame) Hn) as Hpos.
      destruct (Nat.eqb_spec (shape0 frame - ceil_div (1 * shape0 frame) 5) 0);
        [lia|].
      unfold bind at 1, lift at 1. cbn [fst snd].
      unfold bind at 1, lift at 1, check_array_y. now rewrite Hnan.
    + intros a b Hn Hnan Ha Hb Hab global.
      pose proof (np_unique_mixed _ a b Ha Hb Hab) as Hu.
      assert (Hy : check_array_y s = Ok (dropna (items s)))
        by (unfold check_array_y; now rewrite Hnan).
      assert (Hlen : length (dropna (items s)) = shape0 frame).
      { rewrite (check_array_y_length _ _ Hy).
        now apply (getitem_len class_column). }
      rewrite (split_unfold _ _ _ Hrect Hg).
      rewrite _validate_shuffle_split_fifth.
      pose proof (ceil_div_fifth_large (shape0 frame) Hn) as Hpos.
      pose proof (ceil_div_le (shape0 frame)) as Hle.
      destruct (Nat.eqb_spec (shape0 frame - ceil_div (1 * shape0 frame) 5) 0);
        [lia|].
      unfold bind at 1, lift at 1. cbn [fst snd]. run_lift Hy.
      unfold bind at 1.
      pose proof (StratifiedShuffleSplit_checks (dropna (items s))
                    (ceil_div (1 * shape0 frame) 5)
                    (shape0 frame - ceil_div (1 * shape0 frame) 5) 42 global)
        as Hchecks.
      rewrite Hu in Hchecks. rewrite Hchecks; [reflexivity|lia|lia|].
      apply ceil_div_pos. lia.
    + intros classes c Hnan Hu Hc Hlt global.
      assert (Hy : check_array_y s = Ok (dropna (items s)))
        by (unfold check_array_y; now rewrite Hnan).
      apply (split_raises frame s (dropna (items s)) classes global Hrect Hg Hy Hu).
      right. left. now exists c.
Qed.

End SplitErrors.

Lemma ceil_div_fifth_exact (j : nat) : ceil_div (1 * (5 * j)) 5 = j.
Proof.
  unfold ceil_div. symmetry. apply (Nat.div_unique _ 5 _ 4); lia.
Qed.

Section BalancedSplit.

Context {rng : Type} `{RandomStateLaws rng}.

(** X12.  On a balanced frame whose classes have [5 q] rows each,
    [q > 0], the split of cell 5 returns and is itself balanced: every
    class has exactly [4 q] training rows and [q] test rows. *)
Theorem balanced_split_is_balanced
    (balanced : DataFrame) (classes : list scalar) (q : nat) :
  uniform balanced classes (5 * q) ->
  0 < q ->
  exists parts,
    (forall global : rng, split balanced global = (Ok parts, global))
    /\ shape0 (X_train parts) = length classes * (4 * q)
    /\ shape0 (X_test parts) = length classes * q
    /\ forall c, In c classes ->
         count_scalar c (y_train parts) = 4 * q
         /\ count_scalar c (y_test parts) = q.
Proof.
  intros Huni Hq. pose proof (uniform_rows _ _ _ Huni) as Hn.
  destruct Huni as [Hrect [s [labels [Hg [Hy [Hu [Hne Hm]]]]]]].
  set (k := length classes) in *.
  assert (Hk : 1 <= k) by (unfold k; destruct classes; [congruence|simpl; lia]).
  assert (Htest : ceil_div (1 * shape0 balanced) 5 = k * q).
  { rewrite Hn. replace (k * (5 * q)) with (5 * (k * q)) by lia.
    apply ceil_div_fifth_exact. }
  destruct (split_ok balanced s labels classes (Str EmptyString) Hrect Hg Hy Hu)
    as [train [test [Hrun [Hperm [Hl1 [Hl2 Hprop]]]]]].
  - rewrite Htest, Hn. nia.
  - intros c Hc. rewrite (Hm c Hc). lia.
  - rewrite Htest, Hn. fold k. nia.
  - rewrite Htest. nia.
  - eexists. split; [exact Hrun|].
    cbn [X_train X_test y_train y_test DataFrame_gather shape0].
    rewrite Hl1, Hl2, Htest, Hn.
    split; [nia|]. split; [reflexivity|].
    intros c Hc. specialize (Hprop c). cbv zeta in Hprop.
    rewrite (Hm c Hc), Htest, Hn in Hprop.
    destruct Hprop as [Hsum [H1 [H2 [H3 H4]]]].
    set (tr := count_scalar c (map (fun i => nth i labels (Str EmptyString)) train)) in *.
    set (te := count_scalar c (map (fun i => nth i labels (Str EmptyString)) test)) in *.
    assert (Hkq : 0 < k * q) by nia.
    replace (k * (5 * q) - k * q) with (4 * (k * q)) in * by lia.
    replace (k * (5 * q)) with (5 * (k * q)) in * by lia.
    assert (Hte : te = q).
    { assert (q < te + 1) by nia. assert (te < q + 1) by nia. lia. }
    split; lia.
Qed.

End BalancedSplit.

Section AllocationProperty.

Context {rng : Type} `{RandomStateLaws rng}.

(** X11.  [_approximate_mode] allots [n_draws] rows to the classes:
    the allotments add up to [n_draws], no class gets more rows than it
    has, and each allotment is the exact share
    [count * n_draws / total] rounded down or up. *)
Theorem approximate_mode_allocation
    (class_counts : list nat) (n_draws : nat) (r : rng) :
  0 < list_sum class_counts ->
  n_draws <= list_sum class_counts ->
  exists res r',
    _approximate_mode class_counts n_draws r = (Ok res, r')
    /\ length res = length class_counts
    /\ list_sum res = n_draws
    /\ forall i, i < length class_counts ->
         nth i res 0 <= nth i class_counts 0
         /\ nth i class_counts 0 * n_draws < (nth i res 0 + 1) * list_sum class_counts
         /\ nth i res 0 * list_sum class_counts
            < nth i class_counts 0 * n_draws + list_sum class_counts.
Proof.
  intros Htotal Hdraws.
  destruct (approximate_mode_spec class_counts n_draws r Htotal Hdraws)
    as [res [r' [Hrun [Hlen [Hsum Hshare]]]]].
  exists res, r'. repeat (split; [assumption|]).
  intros i Hi. destruct (Hshare i Hi) as [Hlo Hhi]. split; [|now split].
  set (t := list_sum class_counts) in *.
  set (c := nth i class_counts 0) in *. set (x := nth i res 0) in *.
  assert (x * t < (c + 1) * t) by nia. nia.
Qed.

End AllocationProperty.

(** ** Cells 3 to 5 in sequence *)

Lemma fillna_values_length {A : Type} (m : option A) (v : list (option A)) :
  length (fillna_values m v) = length v.
Proof. destruct m; simpl; [apply length_map|reflexivity]. Qed.

Lemma data_cleaned_rectangular (data : DataFrame) :
  rectangular data -> rectangular (data_cleaned data).
Proof.
  unfold rectangular, data_cleaned, fillna. simpl. rewrite !Forall_forall.
  intros Hrect c Hc. apply in_map_iff in Hc. destruct Hc as [c0 [<- Hc0]].
  specialize (Hrect c0 Hc0).
  destruct (lookup (fst c0) (mean_numeric_only data)) as [m|]; [|exact Hrect].
  simpl. destruct (snd c0); simpl in *; now rewrite fillna_values_length.
Qed.

(** Imputation leaves a non-numeric column as it is. *)
Lemma data_cleaned_object (data : DataFrame) (name : string) (v : list (option scalar)) :
  NoDup (columns data) ->
  getitem name data = Ok (Object v) ->
  getitem name (data_cleaned data) = Ok (Object v).
Proof.
  intros Hnd Hg. apply getitem_inv in Hg. unfold getitem.
  rewrite (data_cleaned_cols data Hnd).
  change (map imputed (cols data))
    with (map (fun c => (fst c, (fun s => match s with
                                          | Float64 w => Float64 (fillna_values (nanmean w) w)
                                          | Object w => Object w
                                          end) (snd c))) (cols data)).
  rewrite lookup_map_snd, Hg. reflexivity.
Qed.

Lemma Series_max_empty_labels (s : Series) :
  0 < Series_max (value_counts s) -> dropna (items s) <> [].
Proof.
  intros Hpos Hnone. rewrite (value_counts_empty s Hnone) in Hpos.
  unfold Series_max in Hpos. simpl in Hpos. lia.
Qed.

Section Prepare.

Context {rng : Type} `{RandomStateLaws rng}.

(** X13.  Cells 3 to 5 in sequence.  On a rectangular frame with
    distinct column names whose label column is non-numeric, with
    labels of one type and a most frequent label that occurs five times
    or more, cleaning, balancing and splitting all return: the balanced
    frame has the majority count for each class it keeps, and the split
    gives [ceil(n / 5)] test rows and the other rows to training. *)
Theorem prepare_returns_with_five_majority_rows
    (data : DataFrame) (v : list (option scalar)) (classes0 : list scalar) :
  rectangular data ->
  NoDup (columns data) ->
  getitem class_column data = Ok (Object v) ->
  np_unique (dropna v) = Ok classes0 ->
  let m := Series_max (value_counts (Object v)) in
  5 <= m ->
  exists balanced parts classes,
    (forall global : rng, prepare data global = (Ok (balanced, parts), global))
    /\ uniform balanced classes m
    /\ shape0 balanced = length classes * m
    /\ shape0 (X_test parts) = ceil_div (1 * shape0 balanced) 5
    /\ shape0 (X_train parts) = shape0 balanced - ceil_div (1 * shape0 balanced) 5.
Proof.
  intros Hrect Hnd Hg Hu0 m Hm5.
  pose proof (data_cleaned_rectangular data Hrect) as Hrect'.
  assert (Hnd' : NoDup (columns (data_cleaned data)))
    by now rewrite data_cleaned_columns.
  pose proof (data_cleaned_object data class_column v Hnd Hg) as Hg'.
  assert (Hpresent : dropna (items (Object v)) <> []).
  { apply Series_max_empty_labels. fold m. lia. }
  destruct (balanced_data_uniform (data_cleaned data) (Object v) classes0
              Hrect' Hnd' Hg' Hpresent Hu0) as [balanced [classes [Hrun Huni]]].
  fold m in Huni.
  pose proof (uniform_rows _ _ _ Huni) as Hn.
  destruct Huni as [Hb_rect [s [labels [Hb_g [Hy [Hu [Hne Hcount]]]]]]].
  set (k := length classes) in *.
  assert (Hk : 1 <= k) by (unfold k; destruct classes; [congruence|simpl; lia]).
  assert (Hup : ceil_div (1 * (k * m)) 5 <= k * (m - 1)).
  { unfold ceil_div. apply Nat.lt_succ_r.
    apply Nat.Div0.div_lt_upper_bound. nia. }
  assert (Hlow : k <= ceil_div (1 * (k * m)) 5).
  { unfold ceil_div. apply Nat.div_le_lower_bound; nia. }
  destruct (split_ok balanced s labels classes (Str EmptyString) Hb_rect Hb_g Hy Hu)
    as [train [test [Hsplit [_ [Hl1 [Hl2 _]]]]]].
  - rewrite Hn. nia.
  - intros c Hc. rewrite (Hcount c Hc). lia.
  - rewrite Hn. fold k. nia.
  - rewrite Hn. exact Hlow.
  - eexists balanced, _, classes. split; [|split; [|split; [exact Hn|split]]].
    + intros global. unfold prepare. unfold bind at 1. rewrite Hrun.
      unfold bind at 1. rewrite Hsplit. reflexivity.
    + split; [exact Hb_rect|]. exists s, labels. repeat split; assumption.
    + cbn [X_test DataFrame_gather shape0]. exact Hl2.
    + cbn [X_train DataFrame_gather shape0]. exact Hl1.
Qed.

End Prepare.

(** ** Oversampled rows and the split *)

(** A label that occurs once occurs at one position. *)
Lemma lone_label_position (v : list (option scalar)) (c : scalar) (a b : nat) :
  count_scalar c (dropna v) = 1 ->
  nth a v None = Some c -> nth b v None = Some c -> a = b.
Proof.
  revert a b. induction v as [|o v IH]; intros a b Hcount Ha Hb.
  - destruct a; discriminate.
  - assert (Hzero : count_scalar c (dropna v) = 0 ->
              forall k, nth k v None <> Some c).
    { intros Hz k Hk.
      assert (Hin : In c (dropna v)).
      { unfold dropna. apply in_flat_map. exists (Some c). split; [|now left].
        rewrite <- Hk. apply nth_In.
        destruct (Nat.lt_ge_cases k (length v)) as [Hlt|Hge]; [exact Hlt|].
        rewrite nth_overflow in Hk by assumption. discriminate. }
      apply count_scalar_pos in Hin. lia. }
    destruct o as [x|].
    + change (dropna (Some x :: v)) with (x :: dropna v) in Hcount.
      simpl in Hcount. destruct (scalar_eqb x c) eqn:E.
      * assert (Hz : count_scalar c (dropna v) = 0) by lia.
        destruct a as [|a], b as [|b]; try reflexivity; simpl in Ha, Hb.
        -- exfalso. exact (Hzero Hz b Hb).
        -- exfalso. exact (Hzero Hz a Ha).
        -- exfalso. exact (Hzero Hz a Ha).
      * apply scalar_eqb_neq in E.
        destruct a as [|a], b as [|b]; simpl in Ha, Hb; try congruence.
        f_equal. apply IH; assumption.
    + change (dropna (None :: v)) with (dropna v) in Hcount.
      destruct a as [|a], b as [|b]; simpl in Ha, Hb; try discriminate.
      f_equal. apply IH; assumption.
Qed.

(** Without missing entries, the present values are the entries. *)
Lemma nth_dropna {A : Type} (l : list (option A)) (j : nat) (d : A) :
  hasnans l = false -> j < length l -> nth j l None = Some (nth j (dropna l) d).
Proof.
  revert j. unfold hasnans, dropna. induction l as [|[x|] l IH]; intros j Hn Hj;
    simpl in *; try lia; try discriminate.
  destruct j as [|j]; [reflexivity|]. apply IH; [assumption|lia].
Qed.

Lemma count_scalar_exists (c : scalar) (l : list nat) (f : nat -> scalar) :
  0 < count_scalar c (map f l) -> exists i, In i l /\ f i = c.
Proof.
  intros Hpos. apply count_scalar_In in Hpos. apply in_map_iff in Hpos.
  destruct Hpos as [i [Hi Hin]]. now exists i.
Qed.

Section Leakage.

Context {rng : Type} `{RandomStateLaws rng}.

(** X25.  Balancing before splitting puts copies of one row on both
    sides of the split.  On a rectangular frame with distinct column
    names and a non-numeric label column, with labels of one type, a
    most frequent label that occurs five times or more and a label that
    has a single row [r]: cells 3 to 5 return, the balanced frame is
    the cleaned frame taken at a list of row positions, the training
    and the test subset are the balanced frame at two disjoint lists of
    positions, and there are a training position and a test position
    that both hold a copy of row [r]. *)
Theorem oversampled_row_reaches_train_and_test
    (data : DataFrame) (v : list (option scalar)) (classes0 : list scalar)
    (c : scalar) (r : nat) :
  rectangular data ->
  NoDup (columns data) ->
  getitem class_column data = Ok (Object v) ->
  np_unique (dropna v) = Ok classes0 ->
  5 <= Series_max (value_counts (Object v)) ->
  nth r v None = Some c ->
  count_scalar c (dropna v) = 1 ->
  exists balanced parts indices train test,
    (forall global : rng, prepare data global = (Ok (balanced, parts), global))
    /\ balanced = DataFrame_gather indices (data_cleaned data)
    /\ X_train parts = DataFrame_gather train (features class_column balanced)
    /\ X_test parts = DataFrame_gather test (features class_column balanced)
    /\ Permutation (train ++ test) (seq 0 (shape0 balanced))
    /\ exists i j,
         In i train /\ In j test
         /\ nth i indices 0 = r /\ nth j indices 0 = r.
Proof.
  intros Hrect Hnd Hg Hu0 Hm5 Hr Hlone.
  set (m := Series_max (value_counts (Object v))) in *.
  set (cleaned := data_cleaned data).
  pose proof (data_cleaned_rectangular data Hrect) as Hrect'.
  assert (Hnd' : NoDup (columns cleaned))
    by (unfold cleaned; now rewrite data_cleaned_columns).
  pose proof (data_cleaned_object data class_column v Hnd Hg) as Hg'.
  fold cleaned in Hrect', Hg'.
  assert (Hpresent : dropna (items (Object v)) <> []).
  { apply Series_max_empty_labels. fold m. lia. }
  (* the three views of the balanced frame *)
  destruct (balanced_data_rows cleaned (Object v) Hrect' Hnd' Hg' Hpresent)
    as [majority [indices [Hidx [Hbound [Hlabelled [_ Hrun_rows]]]]]].
  destruct (balanced_data_counts cleaned (Object v) Hrect' Hnd' Hg' Hpresent)
    as [majority' [balanced1 [s1 [Hidx' [Hmaj [_ [Hrun1 [_ [_ [Hget1
         [_ Hcount]]]]]]]]]]].
  destruct (balanced_data_uniform cleaned (Object v) classes0
              Hrect' Hnd' Hg' Hpresent Hu0) as [balanced [classes [Hrun Huni]]].
  fold m in Huni, Hmaj, Hcount.
  assert (Hb : balanced = DataFrame_gather indices cleaned).
  { pose proof (Hrun (RandomState 0)) as H1. rewrite Hrun_rows in H1.
    now injection H1 as <-. }
  assert (Hb1 : balanced1 = balanced).
  { pose proof (Hrun (RandomState 0)) as H1. rewrite Hrun1 in H1.
    now injection H1. }
  subst balanced1.
  pose proof (uniform_rows _ _ _ Huni) as Hn.
  destruct Huni as [Hb_rect [s' [labels [Hb_g [Hy [Hu [Hne Hclasses]]]]]]].
  rewrite Hb_g in Hget1. injection Hget1 as <-.
  assert (Hlabels : labels = dropna (items s')).
  { unfold check_array_y in Hy. destruct (hasnans (items s')); [discriminate|].
    now injection Hy. }
  assert (Hnonan : hasnans (items s') = false).
  { unfold check_array_y in Hy. now destruct (hasnans (items s')). }
  assert (Hitems : items s' = gather indices v).
  { assert (Hblock : block cleaned (columns cleaned) (shape0 cleaned) v).
    { split; [exact Hrect'|]. split; [reflexivity|]. split; [reflexivity|].
      now exists (Object v). }
    destruct (block_gather _ _ _ _ indices Hblock)
      as [_ [_ [_ [s2 [Hg2 Hitems2]]]]].
    rewrite <- Hb, Hb_g in Hg2. injection Hg2 as <-. exact Hitems2. }
  (* the lone label is a minority class and is kept with [m] rows *)
  rewrite Hidx in Hidx'. injection Hidx' as <-.
  assert (Hc_count : count_scalar c labels = m).
  { rewrite Hlabels, (Hcount c).
    change (items (Object v)) with v. rewrite Hlone.
    destruct (scalar_eqb c majority); [reflexivity|].
    destruct (Nat.eqb_spec 1 m); [lia|]. reflexivity. }
  assert (Hc_in : In c classes).
  { destruct (np_unique_classes labels classes Hu) as [_ Hcl]. apply Hcl.
    apply count_scalar_In. lia. }
  set (k := length classes) in *.
  assert (Hk : 1 <= k) by (unfold k; destruct classes; [congruence|simpl; lia]).
  set (n := shape0 balanced) in *.
  assert (Hup : ceil_div (1 * n) 5 <= k * (m - 1)).
  { rewrite Hn. unfold ceil_div. apply Nat.lt_succ_r.
    apply Nat.Div0.div_lt_upper_bound. nia. }
  assert (Hlow : k <= ceil_div (1 * n) 5).
  { rewrite Hn. unfold ceil_div. apply Nat.div_le_lower_bound; nia. }
  assert (Hfifth : n <= 5 * ceil_div (1 * n) 5).
  { unfold ceil_div. rewrite Nat.mul_1_l.
    pose proof (Nat.div_mod (n + (5 - 1)) 5 ltac:(lia)) as Hdm.
    pose proof (Nat.mod_upper_bound (n + (5 - 1)) 5 ltac:(lia)) as Hmod. lia. }
  destruct (split_ok balanced s' labels classes c Hb_rect Hb_g Hy Hu)
    as [train [test [Hsplit [Hperm [Hl1 [Hl2 Hprop]]]]]].
  - fold n. rewrite Hn in *. nia.
  - intros c' Hc'. rewrite (Hclasses c' Hc'). lia.
  - fold n k. rewrite Hn in *. nia.
  - fold n k. exact Hlow.
  - fold n in Hperm, Hl1, Hl2, Hprop.
    specialize (Hprop c). cbv zeta in Hprop. rewrite Hc_count in Hprop.
    destruct Hprop as [Hsum [Htr [_ [Hte _]]]].
    assert (Hlen_labels : length labels = n).
    { rewrite (check_array_y_length _ _ Hy).
      now apply (getitem_len class_column). }
    exists balanced,
      {| X_train := DataFrame_gather train (features class_column balanced);
         X_test := DataFrame_gather test (features class_column balanced);
         y_train := map (fun i => nth i labels c) train;
         y_test := map (fun i => nth i labels c) test |},
      indices, train, test.
    split; [|split; [exact Hb|split; [reflexivity|split; [reflexivity|
             split; [exact Hperm|]]]]].
    + intros global. unfold prepare. unfold bind at 1. fold cleaned.
      rewrite Hrun. unfold bind at 1. rewrite Hsplit. reflexivity.
    + assert (Hrow : forall p, p < n -> nth p labels c = c ->
                nth p indices 0 = r).
      { intros p Hp Hpc.
        assert (Hlen_items : length (items s') = n)
          by (rewrite <- Hlen_labels, Hlabels;
              symmetry; now apply dropna_no_nan_length).
        pose proof (nth_dropna (items s') p c Hnonan ltac:(lia)) as Hnth.
        rewrite <- Hlabels, Hpc, Hitems in Hnth.
        unfold gather in Hnth.
        assert (Hlen_idx : length indices = n).
        { rewrite <- Hlen_items, Hitems. unfold gather. now rewrite length_map. }
        rewrite (nth_indep _ None ((fun i => nth i v None) 0)) in Hnth
          by (rewrite length_map; lia).
        rewrite (map_nth (fun i => nth i v None)) in Hnth.
        exact (lone_label_position v c _ _ Hlone Hnth Hr). }
      assert (Hbound_all : Forall (fun i => i < n) (train ++ test))
        by now apply Permutation_seq_bound, Permutation_sym.
      apply Forall_app in Hbound_all. destruct Hbound_all as [Hb_tr Hb_te].
      rewrite Forall_forall in Hb_tr, Hb_te.
      set (in_train := count_scalar c (map (fun i => nth i labels c) train)) in *.
      set (in_test := count_scalar c (map (fun i => nth i labels c) test)) in *.
      assert (Hin_test : 0 < in_test) by nia.
      assert (Hin_train : 0 < in_train) by nia.
      destruct (count_scalar_exists c train _ Hin_train) as [i [Hi Hic]].
      destruct (count_scalar_exists c test _ Hin_test) as [j [Hj Hjc]].
      exists i, j. split; [exact Hi|]. split; [exact Hj|]. split.
      * apply Hrow; [now apply Hb_tr|exact Hic].
      * apply Hrow; [now apply Hb_te|exact Hjc].
Qed.

End Leakage.

(** ** Standardization as a map *)

Section Scaling.

Local Open Scope R_scope.

(** The scale of a training column that has a value is a positive
    number. *)
Lemma scale_positive (c : list (option R)) :
  dropna c <> [] ->
  exists m sc,
    nanmean c = Some m
    /\ column_scale c = Some sc
    /\ 0 < sc.
Proof.
  intros Hc.
  destruct (nanvar c) as [x|] eqn:Ev;
    [|unfold nanvar in Ev; rewrite (nanmean_present c Hc) in Ev; discriminate].
  rewrite (nanmean_present c Hc). eexists.
  unfold column_scale, _handle_zeros_in_scale.
  destruct (constant_mask c) eqn:Hmask.
  - exists 1. repeat split; lra.
  - exists (sqrt x). unfold nanstd. rewrite Ev. repeat split.
    apply sqrt_lt_R0. exact (constant_mask_false c x Ev Hmask).
Qed.

Lemma standardize_affine (m sc : R) (v : list (option R)) :
  sc <> 0 ->
  standardize (Some m) (Some sc) v = map (option_map (fun x => (x - m) / sc)) v.
Proof.
  intros Hsc. unfold standardize. apply map_ext. intros [x|]; simpl; [|reflexivity].
  destruct (Req_EM_T sc 0); [contradiction|reflexivity].
Qed.

Lemma standardize_nan_mean (sc : option R) (v : list (option R)) :
  standardize None sc v = map (fun _ => None) v.
Proof.
  unfold standardize. apply map_ext. intros [x|]; reflexivity.
Qed.

Lemma nanmean_none (c : list (option R)) : dropna c = [] -> nanmean c = None.
Proof. unfold nanmean. now intros ->. Qed.

Lemma dropna_nil_all_none {A : Type} (c : list (option A)) (x : option A) :
  dropna c = [] -> In x c -> x = None.
Proof.
  unfold dropna. induction c as [|[y|] c IH]; simpl; intros Hd Hin;
    [contradiction|discriminate|].
  destruct Hin as [<-|Hin]; [reflexivity|now apply IH].
Qed.

Lemma dropna_In {A : Type} (c : list (option A)) (x : A) :
  In (Some x) c -> dropna c <> [].
Proof.
  intros Hin Hd. pose proof (dropna_nil_all_none c (Some x) Hd Hin). discriminate.
Qed.

(** X14.  Scaling introduces no NaN.  An entry of the scaled
    training matrix is missing exactly when it was missing before; an
    entry of the scaled test matrix is missing exactly when it was
    missing before or the training column has no value at all. *)
Theorem standardization_keeps_missing_entries
    (X_train X_test : DataFrame) (a b : ndarray) :
  check_array X_train = Ok a ->
  check_array X_test = Ok b ->
  length (array_columns b) = length (array_columns a) ->
  exists scaler X_train_scaled X_test_scaled,
    scaled X_train X_test = Ok (scaler, X_train_scaled, X_test_scaled)
    /\ Forall2 (Forall2 (fun x x' => x' = None <-> x = None))
         (array_columns a) (array_columns X_train_scaled)
    /\ Forall2 (fun tc d' =>
                  Forall2 (fun x x' => x' = None <-> x = None \/ dropna (fst tc) = [])
                    (snd tc) d')
         (combine (array_columns a) (array_columns b))
         (array_columns X_test_scaled).
Proof.
  intros Ha Hb Hlen. do 3 eexists. split; [exact (scaled_ok _ _ _ _ Ha Hb Hlen)|].
  simpl. split.
  - apply Forall2_map_self. apply Forall_forall. intros c _.
    apply Forall2_map_self. apply Forall_forall. intros [x|] Hx.
    + destruct (scale_positive c (dropna_In c x Hx)) as [m [sc [Hm [Hsc Hpos]]]].
      rewrite Hm, Hsc. simpl. destruct (Req_EM_T sc 0); [lra|].
      split; discriminate.
    + simpl. split; reflexivity.
  - apply Forall2_map_self. apply Forall_forall. intros [c d] _.
    apply Forall2_map_self. apply Forall_forall. intros [x|] Hx; simpl.
    + destruct (dropna c) as [|y ys] eqn:E.
      * rewrite (nanmean_none c E). simpl. split; [now right|reflexivity].
      * destruct (scale_positive c) as [m [sc [Hm [Hsc Hpos]]]];
          [rewrite E; discriminate|].
        rewrite Hm, Hsc. simpl. destruct (Req_EM_T sc 0); [lra|].
        split; [discriminate|]. intros [Hc|Hc]; discriminate.
    + split; [now left|reflexivity].
Qed.

(** X15.  Scaling is an increasing affine map on each feature: for a
    training column with a value there are a mean [m] and a scale
    [sc > 0] such that every present entry [x], of the training and of
    the test column, becomes [(x - m) / sc]; so the order of the values
    of a feature is kept. *)
Theorem standardization_preserves_order
    (X_train X_test : DataFrame) (a b : ndarray) :
  check_array X_train = Ok a ->
  check_array X_test = Ok b ->
  length (array_columns b) = length (array_columns a) ->
  exists scaler X_train_scaled X_test_scaled,
    scaled X_train X_test = Ok (scaler, X_train_scaled, X_test_scaled)
    /\ Forall2 (fun tc c' =>
                  dropna (fst tc) <> [] ->
                  exists m sc,
                    0 < sc
                    /\ fst c' = map (option_map (fun x => (x - m) / sc)) (fst tc)
                    /\ snd c' = map (option_map (fun x => (x - m) / sc)) (snd tc)
                    /\ forall x y, x <= y <-> (x - m) / sc <= (y - m) / sc)
         (combine (array_columns a) (array_columns b))
         (combine (array_columns X_train_scaled) (array_columns X_test_scaled)).
Proof.
  intros Ha Hb Hlen. do 3 eexists. split; [exact (scaled_ok _ _ _ _ Ha Hb Hlen)|].
  simpl.
  assert (Hshape : forall (ca cb : list (list (option R))),
            length cb = length ca ->
            combine
              (map (fun c => standardize (nanmean c)
                               (column_scale c) c) ca)
              (map (fun tc => standardize (nanmean (fst tc))
                                (column_scale (fst tc)) (snd tc))
                 (combine ca cb))
            = map (fun tc =>
                     (standardize (nanmean (fst tc))
                        (column_scale (fst tc)) (fst tc),
                      standardize (nanmean (fst tc))
                        (column_scale (fst tc)) (snd tc)))
                (combine ca cb)).
  { clear. induction ca as [|c ca IH]; intros [|d cb] Hl; simpl in *;
      try discriminate; [reflexivity|].
    injection Hl as Hl. now rewrite IH. }
  rewrite (Hshape _ _ Hlen).
  apply Forall2_map_self. apply Forall_forall. intros [c d] _. simpl.
  intros Hc.
  destruct (scale_positive c Hc) as [m [sc [Hm [Hsc Hpos]]]].
  rewrite Hm, Hsc, !standardize_affine by lra.
  exists m, sc. split; [exact Hpos|]. split; [reflexivity|]. split; [reflexivity|].
  assert (Hinv : 0 < / sc) by now apply Rinv_0_lt_compat.
  intros x y. unfold Rdiv. split; intros Hxy.
  - apply Rmult_le_compat_r; lra.
  - apply (Rmult_le_reg_r (/ sc)); [assumption|lra].
Qed.

Lemma map_id_in {A : Type} (f : A -> A) (l : list A) :
  (forall x, In x l -> f x = x) -> map f l = l.
Proof.
  intros Hf. rewrite <- (map_id l) at 2. now apply map_ext_in.
Qed.

(** Scaling a scaled training column again changes nothing, its mean
    being 0 and its scale 1 already, when the column is not one that the
    scaler takes for constant without its being constant. *)
Lemma standardize_twice (c : list (option R)) :
  (constant_mask c = true -> nanvar c = Some 0) ->
  let c' := standardize (nanmean c) (column_scale c) c in
  standardize (nanmean c') (column_scale c') c' = c'
  /\ (dropna c <> [] ->
      nanmean c' = Some 0 /\ column_scale c' = Some 1).
Proof.
  intros Hexact. cbv zeta.
  set (c' := standardize (nanmean c) (column_scale c) c).
  destruct (dropna c) as [|y ys] eqn:E.
  - split; [|congruence].
    assert (Hc' : c' = map (fun _ => None) c).
    { unfold c'. rewrite (nanmean_none c E). apply standardize_nan_mean. }
    assert (Hd : dropna c' = []).
    { rewrite Hc'. clear. unfold dropna. induction c; simpl; auto. }
    rewrite (nanmean_none c' Hd), standardize_nan_mean, Hc', map_map.
    reflexivity.
  - assert (Hne : dropna c <> []) by (rewrite E; discriminate).
    destruct (standardized_column_statistics c Hne) as [Hmean Hstd].
    fold c' in Hmean, Hstd.
    assert (Hscale : column_scale c' = Some 1).
    { unfold nanstd in Hstd. destruct (constant_mask c) eqn:Hmask.
      - rewrite (Hexact eq_refl) in Hstd.
        destruct (nanvar c') as [x|] eqn:Ev; [|discriminate].
        pose proof (nanvar_nonneg c' x Ev) as Hx.
        simpl in Hstd. injection Hstd as Hstd.
        rewrite sqrt_0 in Hstd. apply column_scale_zero_variance.
        rewrite Ev. f_equal. now apply sqrt_eq_0.
      - destruct (nanvar c') as [x|] eqn:Ev; [|discriminate].
        simpl in Hstd. injection Hstd as Hstd. unfold column_scale, _handle_zeros_in_scale.
        destruct (constant_mask c'); [reflexivity|].
        unfold nanstd. rewrite Ev. simpl. now rewrite Hstd. }
    split; [|intros _; now split].
    rewrite Hmean, Hscale, standardize_affine by lra.
    apply map_id_in. intros [x|] _; simpl; [|reflexivity]. f_equal. field.
Qed.

(** X16.  Scaling twice is scaling once, when every column that the
    scaler takes for constant is constant (its variance is zero, not
    only within the rounding bound of [_is_constant_feature]): fitting
    a scaler on the scaled training matrix then finds mean 0 and scale
    1 for every column that has a value, and transforms the matrix into
    itself.  A column of positive variance within the rounding bound is
    only centred by the first pass, so a second pass can still divide
    it by its standard deviation. *)
Theorem standardization_is_idempotent
    (X_train X_test again : DataFrame) (a : ndarray) (scaler : StandardScaler)
    (X_train_scaled X_test_scaled : ndarray) :
  check_array X_train = Ok a ->
  Forall (fun c => constant_mask c = true -> nanvar c = Some 0) (array_columns a) ->
  scaled X_train X_test = Ok (scaler, X_train_scaled, X_test_scaled) ->
  check_array again = Ok X_train_scaled ->
  exists scaler',
    scaled again again = Ok (scaler', X_train_scaled, X_train_scaled)
    /\ Forall2 (fun c ms => dropna c <> [] -> ms = (Some 0, Some 1))
         (array_columns a) (combine (mean_ scaler') (scale_ scaler')).
Proof.
  intros Ha Hexact Hrun Hagain. rewrite Forall_forall in Hexact.
  assert (Htr : array_columns X_train_scaled
                = map (fun c => standardize (nanmean c) (column_scale c) c)
                    (array_columns a)).
  { unfold scaled, fit, transform in Hrun. rewrite Ha in Hrun. simpl in Hrun.
    rewrite Nat.eqb_refl in Hrun. simpl in Hrun.
    destruct (check_array X_test) as [b|]; simpl in Hrun; [|discriminate].
    destruct (length (array_columns b) =? length (array_columns a));
      simpl in Hrun; [|discriminate].
    injection Hrun as _ <- _. simpl.
    now rewrite transform_columns, combine_self, map_map. }
  rewrite (scaled_ok again again _ _ Hagain Hagain eq_refl).
  eexists. split.
  - f_equal. f_equal; [f_equal|]; destruct X_train_scaled as [n cs]; simpl in *;
      f_equal.
    + subst cs. rewrite map_map. apply map_ext_in. intros c Hc.
      apply (standardize_twice c (Hexact c Hc)).
    + subst cs. rewrite combine_self, !map_map. simpl. apply map_ext_in.
      intros c Hc. apply (standardize_twice c (Hexact c Hc)).
  - simpl. rewrite Htr. clear - Hexact.
    induction (array_columns a) as [|c cs IH]; simpl; constructor.
    + intros Hc. destruct (standardize_twice c (Hexact c (or_introl eq_refl)))
        as [_ Hstat].
      destruct (Hstat Hc) as [-> ->]. reflexivity.
    + apply IH. intros c' Hc'. apply Hexact. now right.
Qed.

End Scaling.

(** ** The correlation matrix *)

Section Correlation.

Local Open Scope R_scope.

Lemma pairwise_complete_swap (x y : list (option R)) :
  pairwise_complete y x = map (fun p => (snd p, fst p)) (pairwise_complete x y).
Proof.
  unfold pairwise_complete. revert y.
  induction x as [|a x IH]; intros [|b y]; simpl; try reflexivity.
  rewrite IH. destruct a, b; reflexivity.
Qed.

(** The correlation of two columns does not depend on their order. *)
Lemma pearson_sym (x y : list (option R)) : pearson y x = pearson x y.
Proof.
  unfold pearson. cbv zeta. rewrite pairwise_complete_swap.
  destruct (pairwise_complete x y) as [|p l] eqn:E; [reflexivity|].
  remember (map (fun q : R * R => (snd q, fst q)) (p :: l)) as sobs eqn:Hs.
  destruct sobs as [|q sl]; [discriminate|]. cbv iota. rewrite Hs.
  set (obs := p :: l).
  rewrite !map_map, !length_map. cbn [fst snd].
  set (mx := Rsum (map fst obs) / INR (length obs)).
  set (my := Rsum (map snd obs) / INR (length obs)).
  change (map (fun q : R * R => snd q) obs) with (map snd obs).
  change (map (fun q : R * R => fst q) obs) with (map fst obs).
  fold mx my.
  rewrite (Rmult_comm
             (Rsum (map (fun q : R * R => (snd q - my) * (snd q - my)) obs))).
  rewrite (map_ext (fun q : R * R => (snd q - my) * (fst q - mx))
             (fun q => (fst q - mx) * (snd q - my)))
    by (intros; apply Rmult_comm).
  reflexivity.
Qed.

(** Cauchy-Schwarz for finite sums. *)
Lemma Rsum_cauchy_schwarz {A : Type} (f g : A -> R) (l : list A) :
  Rsum (map (fun a => f a * g a) l) * Rsum (map (fun a => f a * g a) l)
  <= Rsum (map (fun a => f a * f a) l) * Rsum (map (fun a => g a * g a) l).
Proof.
  induction l as [|a l IH].
  - simpl. lra.
  - pose proof (Rsum_squares_nonneg f l) as HA.
    pose proof (Rsum_squares_nonneg g l) as HB.
    change (Rsum (map (fun a => f a * g a) (a :: l)))
      with (f a * g a + Rsum (map (fun a => f a * g a) l)).
    change (Rsum (map (fun a => f a * f a) (a :: l)))
      with (f a * f a + Rsum (map (fun a => f a * f a) l)).
    change (Rsum (map (fun a => g a * g a) (a :: l)))
      with (g a * g a + Rsum (map (fun a => g a * g a) l)).
    set (C := Rsum (map (fun a => f a * g a) l)) in *.
    set (SA := Rsum (map (fun a => f a * f a) l)) in *.
    set (SB := Rsum (map (fun a => g a * g a) l)) in *.
    set (u := f a). set (v := g a).
    assert (Hcross : 2 * (u * v * C) <= u * u * SB + v * v * SA).
    { destruct HA as [HApos|HAz].
      - assert (H1 : 0 <= (u * C - v * SA) * (u * C - v * SA))
          by apply Rle_0_sqr.
        assert (H2 : 0 <= u * u * (SA * SB - C * C)).
        { apply Rmult_le_pos; [apply Rle_0_sqr|lra]. }
        assert (H3 : 0 <= SA * (u * u * SB + v * v * SA - 2 * (u * v * C))).
        { replace (SA * (u * u * SB + v * v * SA - 2 * (u * v * C)))
            with ((u * C - v * SA) * (u * C - v * SA)
                  + u * u * (SA * SB - C * C)) by ring.
          lra. }
        assert (H4 : 0 <= u * u * SB + v * v * SA - 2 * (u * v * C)).
        { apply (Rmult_le_reg_l SA); [exact HApos|]. now rewrite Rmult_0_r. }
        lra.
      - assert (HC : C = 0).
        { assert (Hsq : C * C <= 0) by (rewrite <- HAz in IH; lra).
          destruct (Req_dec C 0) as [Hz|Hnz]; [exact Hz|].
          exfalso. pose proof (Rsqr_pos_lt C Hnz) as Hpos.
          unfold Rsqr in Hpos. lra. }
        rewrite HC, <- HAz.
        pose proof (Rle_0_sqr u) as Hu. unfold Rsqr in Hu.
        assert (0 <= u * u * SB) by (apply Rmult_le_pos; assumption).
        lra. }
    replace ((u * v + C) * (u * v + C))
      with (u * v * (u * v) + 2 * (u * v * C) + C * C) by ring.
    replace ((u * u + SA) * (v * v + SB))
      with (u * v * (u * v) + (u * u * SB + v * v * SA) + SA * SB) by ring.
    lra.
Qed.

Lemma pearson_bounds (x y : list (option R)) (r : R) :
  pearson x y = Some r -> -1 <= r <= 1.
Proof.
  unfold pearson. cbv zeta.
  destruct (pairwise_complete x y) as [|p l] eqn:E; [discriminate|].
  set (obs := p :: l).
  set (mx := Rsum (map fst obs) / INR (length obs)).
  set (my := Rsum (map snd obs) / INR (length obs)).
  set (SA := Rsum (map (fun q : R * R => (fst q - mx) * (fst q - mx)) obs)).
  set (SB := Rsum (map (fun q : R * R => (snd q - my) * (snd q - my)) obs)).
  set (C := Rsum (map (fun q : R * R => (fst q - mx) * (snd q - my)) obs)).
  destruct (Req_EM_T (sqrt (SA * SB)) 0) as [|Hnz]; [discriminate|].
  intros [= <-].
  pose proof (Rsum_cauchy_schwarz (fun q : R * R => fst q - mx)
                (fun q => snd q - my) obs) as Hcs.
  cbv beta in Hcs. fold SA SB C in Hcs.
  pose proof (Rsum_squares_nonneg (fun q : R * R => fst q - mx) obs) as HA.
  pose proof (Rsum_squares_nonneg (fun q : R * R => snd q - my) obs) as HB.
  cbv beta in HA, HB. fold SA in HA. fold SB in HB.
  assert (Hprod : 0 <= SA * SB) by (apply Rmult_le_pos; assumption).
  pose proof (sqrt_pos (SA * SB)) as Hd0.
  pose proof (sqrt_sqrt (SA * SB) Hprod) as Hdd.
  set (D := sqrt (SA * SB)) in *.
  assert (Hd : 0 < D) by lra.
  assert (Hinv : 0 < / D) by now apply Rinv_0_lt_compat.
  assert (Hle : -D <= C <= D).
  { assert (Habs : Rabs C <= Rabs D).
    { apply Rsqr_le_abs_0. unfold Rsqr. lra. }
    rewrite (Rabs_pos_eq D) in Habs by lra.
    split.
    - pose proof (Rle_abs (- C)) as Hn. rewrite Rabs_Ropp in Hn. lra.
    - pose proof (Rle_abs C). lra. }
  assert (H1 : D * / D = 1) by (apply Rinv_r; lra).
  unfold Rdiv. split.
  - replace (-1) with (- D * / D) by lra.
    apply Rmult_le_compat_r; lra.
  - rewrite <- H1. apply Rmult_le_compat_r; lra.
Qed.

End Correlation.

Lemma nth_map_any {A B : Type} (f : A -> B) (l : list A) (i : nat) (d : A) (e : B) :
  (i < length l)%nat -> nth i (map f l) e = f (nth i l d).
Proof.
  intros Hi. rewrite (nth_indep _ e (f d)) by now rewrite length_map.
  apply map_nth.
Qed.

(** X17.  The correlation matrix of cell 6 has one row and one
    column per numeric column of the frame, it is symmetric, and its
    diagonal entry is 1 for a column that is not constant and NaN for a
    constant one. *)
Theorem correlation_matrix_is_symmetric (df : DataFrame) :
  let num := numeric_columns df in
  let k := length num in
  map fst (corr df) = map fst num
  /\ Forall (fun c => length (snd c) = k) (corr df)
  /\ (forall i j, i < k -> j < k ->
      nth i (snd (nth j (corr df) (EmptyString, []))) None
      = nth j (snd (nth i (corr df) (EmptyString, []))) None)
  /\ (forall i, i < k ->
      nth i (snd (nth i (corr df) (EmptyString, []))) None
      = if nonconstant (snd (nth i num (EmptyString, []))) then Some 1%R else None).
Proof.
  intros num k. unfold corr. fold num.
  assert (Hentry : forall i j, i < k -> j < k ->
            nth i (snd (nth j
                          (map (fun cj => (fst cj,
                                           map (fun ci => pearson (snd ci) (snd cj)) num))
                             num) (EmptyString, []))) None
            = pearson (snd (nth i num (EmptyString, [])))
                (snd (nth j num (EmptyString, [])))).
  { intros i j Hi Hj.
    rewrite (nth_map_any _ num j (EmptyString, []) _ Hj). simpl.
    now rewrite (nth_map_any _ num i (EmptyString, []) _ Hi). }
  split; [|split; [|split]].
  - rewrite map_map. reflexivity.
  - apply Forall_forall. intros c Hc. apply in_map_iff in Hc.
    destruct Hc as [cj [<- _]]. simpl. apply length_map.
  - intros i j Hi Hj. rewrite (Hentry i j Hi Hj), (Hentry j i Hj Hi).
    apply pearson_sym.
  - intros i Hi. rewrite (Hentry i i Hi Hi).
    destruct (nonconstant (snd (nth i num (EmptyString, [])))) eqn:Hnc.
    + now apply pearson_self.
    + now apply pearson_constant.
Qed.

(** X18.  Every entry of the correlation matrix that is a number
    lies between -1 and 1 (so the final clip of pandas changes
    nothing). *)
Theorem correlations_lie_between_minus_one_and_one (df : DataFrame) :
  Forall (fun c =>
            Forall (fun e => forall r, e = Some r -> (-1 <= r <= 1)%R) (snd c))
    (corr df).
Proof.
  apply Forall_forall. intros c Hc. unfold corr in Hc. apply in_map_iff in Hc.
  destruct Hc as [cj [<- _]]. simpl.
  apply Forall_forall. intros e He. apply in_map_iff in He.
  destruct He as [ci [<- _]]. intros r Hr. exact (pearson_bounds _ _ r Hr).
Qed.

(** ** The parameter grid and the search *)

Lemma insert_item_Permutation (p : string * list R) (l : list (string * list R)) :
  Permutation (p :: l) (insert_item p l).
Proof.
  induction l as [|q l IH]; simpl; [reflexivity|].
  destruct (String.ltb (fst q) (fst p)); [|reflexivity].
  apply Permutation_trans with (q :: p :: l); [apply perm_swap|].
  now constructor.
Qed.

Lemma sorted_items_Permutation (param_grid : list (string * list R)) :
  Permutation param_grid (sorted_items param_grid).
Proof.
  unfold sorted_items. induction param_grid as [|p l IH]; simpl; [apply perm_nil|].
  apply Permutation_trans with (p :: fold_right insert_item [] l);
    [now constructor|apply insert_item_Permutation].
Qed.

Lemma fold_mul_Permutation (l l' : list nat) :
  Permutation l l' -> fold_right Nat.mul 1 l = fold_right Nat.mul 1 l'.
Proof.
  induction 1; simpl; lia.
Qed.

Lemma length_flat_map_const {A B : Type} (f : A -> list B) (n : nat) (l : list A) :
  (forall a, length (f a) = n) -> length (flat_map f l) = length l * n.
Proof.
  intros Hf. induction l as [|a l IH]; simpl; [reflexivity|].
  now rewrite length_app, Hf, IH.
Qed.

Lemma product_length (items : list (string * list R)) :
  length (product items)
  = fold_right Nat.mul 1 (map (fun kv => length (snd kv)) items).
Proof.
  induction items as [|kv items IH]; simpl; [reflexivity|].
  rewrite (length_flat_map_const _ (length (product items)))
    by (intros; apply length_map).
  now rewrite IH.
Qed.

Lemma product_keys (items : list (string * list R)) (p : params) :
  In p (product items) -> map fst p = map fst items.
Proof.
  revert p. induction items as [|kv items IH]; simpl; intros p Hp.
  - destruct Hp as [<-|[]]. reflexivity.
  - apply in_flat_map in Hp. destruct Hp as [v [_ Hp]].
    apply in_map_iff in Hp. destruct Hp as [p' [<- Hp']]. simpl.
    now rewrite (IH p' Hp').
Qed.

Lemma nonempty_values (param_grid : list (string * list R)) :
  (forall kv, In kv param_grid -> snd kv <> []) ->
  existsb (fun kv => match snd kv with [] => true | _ => false end) param_grid = false.
Proof.
  intros Hne. apply not_true_is_false. intros Hc. apply existsb_exists in Hc.
  destruct Hc as [kv [Hin Hkv]]. specialize (Hne kv Hin).
  destruct (snd kv); [congruence|discriminate].
Qed.

(** With candidate values for every parameter the grid is not empty. *)
Lemma ParameterGrid_product (param_grid : list (string * list R)) :
  length (product (sorted_items param_grid))
  = fold_right Nat.mul 1 (map (fun kv => length (snd kv)) param_grid)
  /\ ((forall kv, In kv param_grid -> snd kv <> []) ->
      0 < length (product (sorted_items param_grid))).
Proof.
  assert (Hlen : length (product (sorted_items param_grid))
                 = fold_right Nat.mul 1 (map (fun kv => length (snd kv)) param_grid)).
  { rewrite product_length. symmetry. apply fold_mul_Permutation.
    apply Permutation_map. apply sorted_items_Permutation. }
  split; [exact Hlen|]. intros Hne.
  rewrite Hlen. clear Hlen. induction param_grid as [|kv l IH]; simpl; [lia|].
  assert (Hkv : snd kv <> []) by (apply Hne; now left).
  assert (0 < length (snd kv)) by (destruct (snd kv); [congruence|simpl; lia]).
  assert (0 < fold_right Nat.mul 1 (map (fun kv => length (snd kv)) l))
    by (apply IH; intros; apply Hne; now right).
  nia.
Qed.

(** X19.  [ParameterGrid]: a parameter without candidate values is a
    [ValueError]; otherwise the grid has one combination per choice of
    a value for each parameter, their number is the product of the
    numbers of candidate values, and every combination lists the
    parameters in sorted order, each with one of its candidate
    values. *)
Theorem ParameterGrid_enumerates_the_product (param_grid : list (string * list R)) :
  ((exists kv, In kv param_grid /\ snd kv = []) ->
   ParameterGrid param_grid = Raise ValueError)
  /\ ((forall kv, In kv param_grid -> snd kv <> []) ->
      exists candidates,
        ParameterGrid param_grid = Ok candidates
        /\ length candidates
           = fold_right Nat.mul 1 (map (fun kv => length (snd kv)) param_grid)
        /\ 0 < length candidates
        /\ forall p, In p candidates ->
             map fst p = map fst (sorted_items param_grid)
             /\ forall k v, In (k, v) p -> exists vs, In (k, vs) param_grid /\ In v vs).
Proof.
  split.
  - intros [kv [Hin Hnil]]. unfold ParameterGrid.
    assert (He : existsb (fun kv => match snd kv with [] => true | _ => false end)
                   param_grid = true).
    { apply existsb_exists. exists kv. split; [assumption|]. now rewrite Hnil. }
    now rewrite He.
  - intros Hne. unfold ParameterGrid. rewrite (nonempty_values _ Hne).
    eexists. split; [reflexivity|].
    destruct (ParameterGrid_product param_grid) as [Hlen Hpos].
    split; [exact Hlen|]. split; [apply (Hpos Hne)|].
    intros p Hp. split; [now apply product_keys|].
    intros k v Hkv. destruct (product_member _ _ Hp k v Hkv) as [vs [Hvs Hv]].
    exists vs. split; [now apply sorted_items_In|assumption].
Qed.

Lemma argmin_constant (l : list nat) (c : nat) :
  Forall (fun x => x = c) l -> argmin l = 0.
Proof.
  intros Hall. destruct l as [|x l]; [reflexivity|].
  destruct (argmin_spec (x :: l)) as [Hlt [_ Hfirst]]; [discriminate|].
  destruct (argmin (x :: l)) as [|i] eqn:E; [reflexivity|].
  specialize (Hfirst 0 ltac:(lia)).
  rewrite Forall_forall in Hall.
  assert (H1 : nth (S i) (x :: l) 0 = c) by (apply Hall; now apply nth_In).
  assert (H2 : nth 0 (x :: l) 0 = c) by (apply Hall; now left).
  lia.
Qed.

Lemma rank_test_score_length (means : list (option R)) :
  length (rank_test_score means) = length means.
Proof.
  unfold rank_test_score, rankdata_desc. destruct (nanmin means);
    now rewrite !length_map.
Qed.

Lemma nanmin_all_nan (means : list (option R)) :
  Forall (fun m => m = None) means -> nanmin means = None.
Proof.
  intros Hall. unfold nanmin.
  replace (dropna means) with (@nil R); [reflexivity|].
  unfold dropna. induction Hall as [|m l Hm _ IH]; simpl; [reflexivity|].
  now rewrite Hm.
Qed.

Section SearchOutcomes.

Variable fit_and_score : params -> nat -> option R.

(** X21.  The search over a grid with candidate values for every
    parameter returns exactly when the fit succeeds for some
    combination on some fold; when every fit fails it raises
    [ValueError].  When it returns, the score is the mean score of the
    returned combination; and when every combination fails on some
    fold, the first combination of the grid is returned with a NaN
    score. *)
Theorem grid_search_returns_iff_some_fit_succeeds
    (param_grid : list (string * list R)) :
  (forall kv, In kv param_grid -> snd kv <> []) ->
  let candidates := product (sorted_items param_grid) in
  ((exists p k, In p candidates /\ k < n_splits /\ fit_and_score p k <> None) ->
   exists r,
     GridSearchCV_fit fit_and_score param_grid = Ok r
     /\ nth_error candidates (best_index_ r) = Some (best_params_ r)
     /\ best_score_ r = cv_mean fit_and_score (best_params_ r)
     /\ ((forall p, In p candidates -> cv_mean fit_and_score p = None) ->
         best_index_ r = 0 /\ best_score_ r = None))
  /\ ((forall p k, In p candidates -> k < n_splits -> fit_and_score p k = None) ->
      GridSearchCV_fit fit_and_score param_grid = Raise ValueError).
Proof.
  intros Hne candidates.
  assert (Hmeans : map np_mean
                     (map (fun p => map (fit_and_score p) (seq 0 n_splits)) candidates)
                   = map (cv_mean fit_and_score) candidates).
  { now rewrite map_map. }
  assert (Hcand : candidates <> []).
  { pose proof (proj2 (ParameterGrid_product param_grid) Hne) as Hpos.
    fold candidates in Hpos. intros Hc. rewrite Hc in Hpos. simpl in Hpos. lia. }
  split.
  - intros [p0 [k0 [Hp0 [Hk0 Hfit]]]].
    unfold GridSearchCV_fit, ParameterGrid. rewrite (nonempty_values _ Hne).
    cbn [result_bind]. fold candidates. cbv zeta.
    assert (Hsome : forallb (forallb isnan)
                      (map (fun p => map (fit_and_score p) (seq 0 n_splits)) candidates)
                    = false).
    { apply not_true_is_false. intros Hall. rewrite forallb_forall in Hall.
      specialize (Hall (map (fit_and_score p0) (seq 0 n_splits))).
      rewrite forallb_forall in Hall.
      assert (Hnan : isnan (fit_and_score p0 k0) = true).
      { apply Hall; [apply in_map_iff; now exists p0|].
        apply in_map_iff. exists k0. split; [reflexivity|]. apply in_seq. lia. }
      destruct (fit_and_score p0 k0); [discriminate|]. now apply Hfit. }
    rewrite Hsome, Hmeans.
    set (ranks := rank_test_score (map (cv_mean fit_and_score) candidates)).
    assert (Hlen : length ranks = length candidates).
    { unfold ranks. now rewrite rank_test_score_length, length_map. }
    destruct (argmin_spec ranks) as [Hlt _].
    { intros Hc. rewrite Hc in Hlen. destruct candidates; [congruence|discriminate]. }
    rewrite Hlen in Hlt.
    destruct (nth_error candidates (argmin ranks)) as [p|] eqn:Ep;
      [|apply nth_error_None in Ep; lia].
    rewrite nth_error_map, Ep. simpl.
    eexists. split; [reflexivity|]. simpl. split; [exact Ep|].
    split; [reflexivity|].
    intros Hnone.
    assert (Hall : Forall (fun m => m = None) (map (cv_mean fit_and_score) candidates)).
    { apply Forall_forall. intros m Hm. apply in_map_iff in Hm.
      destruct Hm as [q [<- Hq]]. now apply Hnone. }
    assert (Hz : argmin ranks = 0).
    { apply (argmin_constant ranks 1). unfold ranks, rank_test_score.
      rewrite (nanmin_all_nan _ Hall). apply Forall_forall. intros x Hx.
      apply in_map_iff in Hx. now destruct Hx as [m [<- _]]. }
    split; [exact Hz|]. apply Hnone. now apply (nth_error_In _ _ Ep).
  - intros Hfail. unfold GridSearchCV_fit, ParameterGrid.
    rewrite (nonempty_values _ Hne). cbn [result_bind]. fold candidates. cbv zeta.
    assert (Hall : forallb (forallb isnan)
                     (map (fun p => map (fit_and_score p) (seq 0 n_splits)) candidates)
                   = true).
    { apply forallb_forall. intros row Hrow. apply in_map_iff in Hrow.
      destruct Hrow as [p [<- Hp]]. apply forallb_forall. intros x Hx.
      apply in_map_iff in Hx. destruct Hx as [k [<- Hk]]. apply in_seq in Hk.
      rewrite (Hfail p k Hp); [reflexivity|lia]. }
    now rewrite Hall.
Qed.

End SearchOutcomes.

(** ** The order of the parameters *)

Lemma ascii_compare_Lt_trans (a b c : Ascii.ascii) :
  Ascii.compare a b = Lt -> Ascii.compare b c = Lt -> Ascii.compare a c = Lt.
Proof.
  unfold Ascii.compare. rewrite !BinNat.N.compare_lt_iff. apply BinNat.N.lt_trans.
Qed.

Lemma string_compare_Lt_trans (s1 s2 s3 : string) :
  String.compare s1 s2 = Lt -> String.compare s2 s3 = Lt ->
  String.compare s1 s3 = Lt.
Proof.
  revert s2 s3. induction s1 as [|c1 s1 IH]; intros [|c2 s2] [|c3 s3]; simpl;
    try discriminate; try reflexivity.
  destruct (Ascii.compare c1 c2) eqn:E12; try discriminate;
    destruct (Ascii.compare c2 c3) eqn:E23; try discriminate; intros H12 H23.
  - apply Ascii.compare_eq_iff in E12, E23. subst.
    assert (Hrefl : Ascii.compare c3 c3 = Eq)
      by (unfold Ascii.compare; apply BinNat.N.compare_refl).
    rewrite Hrefl. now apply (IH s2).
  - apply Ascii.compare_eq_iff in E12. subst. now rewrite E23.
  - apply Ascii.compare_eq_iff in E23. subst. now rewrite E12.
  - now rewrite (ascii_compare_Lt_trans _ _ _ E12 E23).
Qed.

Lemma string_ltb_trans (s1 s2 s3 : string) :
  String.ltb s1 s2 = true -> String.ltb s2 s3 = true -> String.ltb s1 s3 = true.
Proof.
  unfold String.ltb. intros H12 H23.
  destruct (String.compare s1 s2) eqn:E12; try discriminate.
  destruct (String.compare s2 s3) eqn:E23; try discriminate.
  now rewrite (string_compare_Lt_trans _ _ _ E12 E23).
Qed.

Lemma string_ltb_irrefl (s : string) : String.ltb s s = false.
Proof.
  unfold String.ltb. pose proof (String.compare_antisym s s) as H.
  destruct (String.compare s s); simpl in H; try discriminate; reflexivity.
Qed.

Lemma string_ltb_total (s1 s2 : string) :
  s1 <> s2 -> String.ltb s1 s2 = false -> String.ltb s2 s1 = true.
Proof.
  unfold String.ltb. intros Hne H12. rewrite (String.compare_antisym s2 s1).
  destruct (String.compare s1 s2) eqn:E; simpl; try discriminate; [|reflexivity].
  apply String.compare_eq_iff in E. contradiction.
Qed.

Lemma insert_item_sorted (p : string * list R) (l : list (string * list R)) :
  ~ In (fst p) (map fst l) ->
  StronglySorted key_lt l -> StronglySorted key_lt (insert_item p l).
Proof.
  intros Hni Hs. induction Hs as [|q l Hs IH Hall]; simpl.
  - constructor; constructor.
  - assert (Hne : fst q <> fst p) by (intros Heq; apply Hni; now left).
    destruct (String.ltb (fst q) (fst p)) eqn:E.
    + constructor.
      * apply IH. intros Hin. apply Hni. now right.
      * apply Forall_forall. intros x Hx. apply insert_item_In in Hx.
        destruct Hx as [->|Hx]; [exact E|].
        rewrite Forall_forall in Hall. now apply Hall.
    + assert (Hpq : key_lt p q).
      { apply string_ltb_total; [assumption|exact E]. }
      constructor; [now constructor|].
      constructor; [exact Hpq|].
      apply Forall_forall. intros x Hx. rewrite Forall_forall in Hall.
      exact (string_ltb_trans _ _ _ Hpq (Hall x Hx)).
Qed.

Lemma sorted_items_sorted (param_grid : list (string * list R)) :
  NoDup (map fst param_grid) -> StronglySorted key_lt (sorted_items param_grid).
Proof.
  unfold sorted_items. induction param_grid as [|p l IH]; simpl; intros Hnd.
  - constructor.
  - inversion Hnd as [|? ? Hni Hnd']; subst.
    apply insert_item_sorted; [|now apply IH].
    intros Hin. apply Hni. apply in_map_iff in Hin.
    destruct Hin as [x [Hx Hin]]. apply in_map_iff. exists x.
    split; [assumption|]. now apply (sorted_items_In x l).
Qed.

Lemma sorted_unique (l1 l2 : list (string * list R)) :
  StronglySorted key_lt l1 -> StronglySorted key_lt l2 ->
  Permutation l1 l2 -> l1 = l2.
Proof.
  intros Hs1. revert l2. induction Hs1 as [|a t1 Hs1 IH Ha]; intros l2 Hs2 Hp.
  - apply Permutation_nil in Hp. now subst.
  - destruct Hs2 as [|b t2 Hs2 Hb].
    + apply Permutation_sym, Permutation_nil in Hp. discriminate.
    + assert (Hab : a = b).
      { assert (Hin_a : In a (b :: t2))
          by (apply (Permutation_in _ Hp); now left).
        assert (Hin_b : In b (a :: t1))
          by (apply (Permutation_in _ (Permutation_sym Hp)); now left).
        destruct Hin_a as [Heq|Hin_a]; [now subst|].
        destruct Hin_b as [Heq|Hin_b]; [now subst|].
        rewrite Forall_forall in Ha, Hb.
        pose proof (string_ltb_trans _ _ _ (Ha b Hin_b) (Hb a Hin_a)) as Hc.
        rewrite string_ltb_irrefl in Hc. discriminate. }
      subst b. f_equal. apply IH; [assumption|].
      now apply Permutation_cons_inv in Hp.
Qed.

(** X20.  The order in which the parameters are written in the grid
    does not matter: two grids with the same (distinct) keys and values
    give the same list of combinations, in the same order. *)
Theorem ParameterGrid_ignores_the_order_of_the_keys
    (param_grid param_grid' : list (string * list R)) :
  NoDup (map fst param_grid) ->
  Permutation param_grid param_grid' ->
  ParameterGrid param_grid' = ParameterGrid param_grid.
Proof.
  intros Hnd Hp.
  assert (Hnd' : NoDup (map fst param_grid')).
  { apply (Permutation_NoDup (Permutation_map fst Hp) Hnd). }
  assert (Hs : sorted_items param_grid' = sorted_items param_grid).
  { apply sorted_unique; try now apply sorted_items_sorted.
    apply Permutation_trans with param_grid'.
    - apply Permutation_sym, sorted_items_Permutation.
    - apply Permutation_trans with param_grid;
        [now apply Permutation_sym|apply sorted_items_Permutation]. }
  assert (He : forall f : string * list R -> bool,
            existsb f param_grid' = existsb f param_grid).
  { intros f. apply eq_true_iff_eq. rewrite !existsb_exists.
    split; intros [x [Hx Hf]]; exists x; (split; [|assumption]).
    - now apply (Permutation_in _ (Permutation_sym Hp)).
    - now apply (Permutation_in _ Hp). }
  unfold ParameterGrid. now rewrite Hs, He.
Qed.

(** ** The metrics of the evaluation *)

Lemma _check_targets_length (y_true y_pred : list scalar) (t : target_type) :
  _check_targets y_true y_pred = Ok t -> length y_true = length y_pred.
Proof.
  unfold _check_targets.
  destruct (Nat.eqb_spec (length y_true) (length y_pred)); [auto|discriminate].
Qed.

(** Labels that are all strings pass the checks of the metrics. *)
Lemma np_unique_strings (y : list scalar) :
  Forall (fun a => is_number a = false) y ->
  exists classes, np_unique y = Ok classes.
Proof.
  intros Hall. apply np_unique_ok. intros a b Ha Hb.
  rewrite Forall_forall in Hall.
  pose proof (Hall a Ha) as H1. pose proof (Hall b Hb) as H2.
  destruct a, b; simpl in *; congruence.
Qed.

Lemma type_of_target_strings (y : list scalar) :
  Forall (fun a => is_number a = false) y ->
  type_of_target y = Ok binary \/ type_of_target y = Ok multiclass.
Proof.
  intros Hall. destruct y as [|first y']; [now left|].
  unfold type_of_target.
  assert (Hfirst : is_number first = false) by now inversion Hall.
  assert (Hnum : forallb is_number (first :: y') = false)
    by (simpl; now rewrite Hfirst).
  rewrite Hnum, Hfirst.
  destruct (np_unique_strings (first :: y') Hall) as [classes ->].
  simpl. unfold class_count_type. destruct (2 <? length classes); auto.
Qed.

Lemma _check_targets_strings (y_true y_pred : list scalar) :
  length y_true = length y_pred ->
  Forall (fun a => is_number a = false) y_true ->
  Forall (fun a => is_number a = false) y_pred ->
  exists t, _check_targets y_true y_pred = Ok t.
Proof.
  intros Hlen Ht Hp. unfold _check_targets. rewrite Hlen, Nat.eqb_refl. simpl.
  assert (Hu : exists u, np_unique (y_true ++ y_pred) = Ok u).
  { apply np_unique_strings. apply Forall_app. now split. }
  destruct Hu as [u Hu].
  destruct (type_of_target_strings y_true Ht) as [-> | ->],
           (type_of_target_strings y_pred Hp) as [-> | ->]; simpl;
    rewrite ?Hu; eexists; reflexivity.
Qed.

Section Accuracy.

Local Open Scope R_scope.

Lemma Rsum_indicator {A : Type} (f : A -> bool) (l : list A) :
  Rsum (dropna (map (fun a => Some (if f a then 1 else 0)) l))
  = INR (length (filter f l)).
Proof.
  induction l as [|a l IH]; [reflexivity|].
  change (Rsum (dropna (map (fun a => Some (if f a then 1 else 0)) (a :: l))))
    with ((if f a then 1 else 0)
          + Rsum (dropna (map (fun a => Some (if f a then 1 else 0)) l))).
  rewrite IH. simpl filter. destruct (f a); [|lra].
  change (length (a :: filter f l)) with (S (length (filter f l))).
  rewrite S_INR. lra.
Qed.

Lemma np_mean_indicator {A : Type} (f : A -> bool) (l : list A) :
  l <> [] ->
  np_mean (map (fun a => Some (if f a then 1 else 0)) l)
  = Some (INR (length (filter f l)) / INR (length l)).
Proof.
  intros Hne. unfold np_mean.
  assert (Hnan : existsb isnan (map (fun a => Some (if f a then 1 else 0)) l) = false).
  { clear. induction l; simpl; auto. }
  rewrite Hnan. destruct l as [|a l]; [congruence|].
  change (map (fun a0 => Some (if f a0 then 1 else 0)) (a :: l))
    with (Some (if f a then 1 else 0)
          :: map (fun a0 => Some (if f a0 then 1 else 0)) l) at 1.
  cbv iota. now rewrite Rsum_indicator, length_map.
Qed.

Lemma filter_all_length {A : Type} (f : A -> bool) (l : list A) :
  length (filter f l) = length l -> forall a, In a l -> f a = true.
Proof.
  induction l as [|b l IH]; simpl; intros Hlen a Hin; [contradiction|].
  pose proof (filter_length_le f l) as Hle.
  destruct (f b) eqn:E; simpl in Hlen; [|lia].
  destruct Hin as [<-|Hin]; [exact E|]. apply IH; [lia|assumption].
Qed.

Lemma combine_all_equal (a b : list scalar) :
  length a = length b ->
  (forall tp, In tp (combine a b) -> scalar_eqb (fst tp) (snd tp) = true) ->
  b = a.
Proof.
  revert b. induction a as [|x a IH]; intros [|y b] Hlen Hall; try discriminate;
    [reflexivity|].
  simpl in Hlen. injection Hlen as Hlen.
  assert (Hxy : scalar_eqb x y = true) by (apply (Hall (x, y)); now left).
  apply scalar_eqb_eq in Hxy. subst y. f_equal.
  apply IH; [assumption|]. intros tp Htp. apply Hall. now right.
Qed.

Lemma matches_self (a : list scalar) : matches a a = length a.
Proof.
  unfold matches. induction a as [|x a IH]; simpl; [reflexivity|].
  rewrite scalar_eqb_refl. simpl. now rewrite IH.
Qed.

(** The value of the accuracy, when it is a number. *)
Lemma accuracy_score_value (y_true y_pred : list scalar) (a : R) :
  accuracy_score y_true y_pred = Ok (Some a) ->
  length y_true = length y_pred
  /\ (0 < length y_true)%nat
  /\ a = INR (matches y_true y_pred) / INR (length y_true).
Proof.
  intros Hacc. unfold accuracy_score in Hacc.
  destruct (_check_targets y_true y_pred) as [t|e] eqn:Hc; [|discriminate].
  pose proof (_check_targets_length _ _ _ Hc) as Hlen.
  simpl in Hacc. injection Hacc as Hacc.
  assert (Hcomb : length (combine y_true y_pred) = length y_true).
  { rewrite length_combine. lia. }
  destruct (combine y_true y_pred) as [|tp0 rest] eqn:Ecomb.
  { simpl in Hacc. discriminate. }
  rewrite <- Ecomb in *.
  rewrite np_mean_indicator in Hacc by (rewrite Ecomb; discriminate).
  injection Hacc as Hacc. fold (matches y_true y_pred) in Hacc.
  rewrite Hcomb in Hacc.
  split; [exact Hlen|]. split; [|now symmetry].
  rewrite <- Hcomb, Ecomb. simpl. lia.
Qed.

(** On string labels of equal, non-zero length the accuracy is a
    number. *)
Lemma accuracy_score_returns (y_true y_pred : list scalar) :
  length y_true = length y_pred ->
  y_true <> [] ->
  Forall (fun c => is_number c = false) y_true ->
  Forall (fun c => is_number c = false) y_pred ->
  exists a, accuracy_score y_true y_pred = Ok (Some a).
Proof.
  intros Hlen Hne Ht Hp. unfold accuracy_score.
  destruct (_check_targets_strings y_true y_pred Hlen Ht Hp) as [t ->]. simpl.
  rewrite np_mean_indicator; [eexists; reflexivity|].
  destruct y_true as [|x xs]; [congruence|].
  destruct y_pred as [|y ys]; [discriminate|]. discriminate.
Qed.

(** X22.  [accuracy_score]: arrays of different lengths are a
    [ValueError]; on string labels of equal, non-zero length it returns
    a number; and whenever it returns a number, that is the number of
    matching positions over the number of samples, it lies between 0
    and 1, it is 1 exactly when the prediction is the truth, and 0
    exactly when no position matches. *)
Theorem accuracy_score_is_the_share_of_matches (y_true y_pred : list scalar) :
  (length y_true <> length y_pred ->
   accuracy_score y_true y_pred = Raise ValueError)
  /\ (length y_true = length y_pred ->
      y_true <> [] ->
      Forall (fun c => is_number c = false) y_true ->
      Forall (fun c => is_number c = false) y_pred ->
      exists a, accuracy_score y_true y_pred = Ok (Some a))
  /\ (forall a,
        accuracy_score y_true y_pred = Ok (Some a) ->
        a = INR (matches y_true y_pred) / INR (length y_true)
        /\ 0 <= a <= 1
        /\ (a = 1 <-> y_pred = y_true)
        /\ (a = 0 <-> matches y_true y_pred = 0%nat)).
Proof.
  split; [|split].
  - intros Hlen. unfold accuracy_score, _check_targets.
    destruct (Nat.eqb_spec (length y_true) (length y_pred)); [contradiction|].
    reflexivity.
  - apply accuracy_score_returns.
  - intros a Hacc.
    destruct (accuracy_score_value y_true y_pred a Hacc) as [Hlen [Hpos Ha]].
    assert (Hcomb : length (combine y_true y_pred) = length y_true).
    { rewrite length_combine. lia. }
    assert (Hle : (matches y_true y_pred <= length y_true)%nat).
    { unfold matches. rewrite <- Hcomb. apply filter_length_le. }
    assert (Hn : 0 < INR (length y_true)) by now apply lt_0_INR.
    assert (Hm : 0 <= INR (matches y_true y_pred)) by apply pos_INR.
    assert (Hmn : INR (matches y_true y_pred) <= INR (length y_true))
      by now apply le_INR.
    assert (Hinv : 0 < / INR (length y_true)) by now apply Rinv_0_lt_compat.
    split; [exact Ha|].
    subst a. unfold Rdiv. split; [split|split].
    + apply Rmult_le_pos; lra.
    + rewrite <- (Rinv_r (INR (length y_true))) by lra.
      apply Rmult_le_compat_r; lra.
    + split.
      * intros H1.
        assert (Heq : INR (matches y_true y_pred) = INR (length y_true)).
        { apply (Rmult_eq_reg_r (/ INR (length y_true))); [|lra].
          rewrite H1. symmetry. apply Rinv_r. lra. }
        apply INR_eq in Heq. unfold matches in Heq. rewrite <- Hcomb in Heq.
        apply combine_all_equal; [assumption|].
        now apply filter_all_length.
      * intros ->. rewrite matches_self. apply Rinv_r. lra.
    + split.
      * intros H0. apply INR_eq. simpl.
        apply (Rmult_eq_reg_r (/ INR (length y_true))); lra.
      * intros ->. simpl. lra.
Qed.

End Accuracy.

Lemma count_scalar_length_filter (c : scalar) (y : list scalar) :
  count_scalar c y = length (filter (fun v => scalar_eqb v c) y).
Proof.
  induction y as [|v y IH]; simpl; [reflexivity|].
  destruct (scalar_eqb v c); simpl; now rewrite IH.
Qed.

(** Summing, over distinct labels, the entries that carry the label
    under [key] and pass a test counts each entry at most once. *)
Lemma sum_over_labels {A : Type} (labels : list scalar) (key : A -> scalar)
    (F : scalar -> A -> bool) (l : list A) :
  NoDup labels ->
  (forall a, In a l -> In (key a) labels) ->
  list_sum (map (fun c => length (filter (fun a => scalar_eqb (key a) c && F c a) l))
              labels)
  = length (filter (fun a => F (key a) a) l).
Proof.
  intros Hnd Hin. induction l as [|a l IH].
  - simpl. clear. induction labels; simpl; auto.
  - assert (Hone : forall ls, NoDup ls ->
              list_sum (map (fun c => if scalar_eqb (key a) c && F c a then 1 else 0) ls)
              = if existsb (scalar_eqb (key a)) ls
                then (if F (key a) a then 1 else 0) else 0).
    { clear. intros ls Hnd. induction Hnd as [|c ls Hni Hnd IH]; [reflexivity|].
      simpl. rewrite IH. destruct (scalar_eqb (key a) c) eqn:E; simpl.
      - apply scalar_eqb_eq in E. subst c.
        assert (He : existsb (scalar_eqb (key a)) ls = false).
        { apply not_true_is_false. intros Hc. apply existsb_exists in Hc.
          destruct Hc as [x [Hx Hxe]]. apply scalar_eqb_eq in Hxe. now subst. }
        rewrite He. destruct (F (key a) a); reflexivity.
      - reflexivity. }
    assert (Hsplit : forall ls,
              list_sum (map (fun c => length (filter (fun a0 => scalar_eqb (key a0) c && F c a0)
                                                (a :: l))) ls)
              = list_sum (map (fun c => if scalar_eqb (key a) c && F c a then 1 else 0) ls)
                + list_sum (map (fun c => length (filter (fun a0 => scalar_eqb (key a0) c
                                                                    && F c a0) l)) ls)).
    { clear. induction ls as [|c ls IH]; [reflexivity|].
      assert (Hcons : forall x xs, list_sum (x :: xs) = x + list_sum xs)
        by reflexivity.
      cbn [map]. rewrite !Hcons, IH. cbn [filter].
      destruct (scalar_eqb (key a) c && F c a); cbn [length]; lia. }
    rewrite Hsplit, (Hone labels Hnd), IH by (intros; apply Hin; now right).
    assert (He : existsb (scalar_eqb (key a)) labels = true).
    { apply existsb_exists. exists (key a). split; [|apply scalar_eqb_refl].
      apply Hin. now left. }
    rewrite He. simpl. destruct (F (key a) a); reflexivity.
Qed.

Lemma map_nth_seq_map {A B : Type} (f : A -> B) (l : list A) (d : A) :
  map (fun i => f (nth i l d)) (seq 0 (length l)) = map f l.
Proof.
  rewrite <- (map_map (fun i => nth i l d) f). now rewrite map_nth_seq.
Qed.

Lemma combine_fst_In {A B : Type} (l : list A) (l' : list B) (p : A * B) :
  In p (combine l l') -> In (fst p) l /\ In (snd p) l'.
Proof.
  destruct p as [a b]. intros Hin. split;
    [now apply in_combine_l in Hin|now apply in_combine_r in Hin].
Qed.

Lemma confusion_matrix_inv (y_true y_pred : list scalar) (cm : list (list nat)) :
  confusion_matrix y_true y_pred = Ok cm ->
  length y_true = length y_pred
  /\ exists labels,
       np_unique (y_true ++ y_pred) = Ok labels
       /\ cm = map (fun t => map (confusion_count y_true y_pred t) labels) labels.
Proof.
  unfold confusion_matrix. intros Hcm.
  destruct (_check_targets y_true y_pred) as [t|e] eqn:Hc; [|discriminate].
  split; [exact (_check_targets_length _ _ _ Hc)|].
  simpl in Hcm. unfold unique_labels in Hcm.
  destruct (np_unique (y_true ++ y_pred)) as [labels|e]; [|discriminate].
  simpl in Hcm. injection Hcm as <-. now exists labels.
Qed.

Lemma confusion_count_row (y_true y_pred labels : list scalar) (t : scalar) :
  length y_true = length y_pred ->
  np_unique (y_true ++ y_pred) = Ok labels ->
  list_sum (map (confusion_count y_true y_pred t) labels) = count_scalar t y_true.
Proof.
  intros Hlen Hu. destruct (np_unique_classes _ _ Hu) as [Hnd Hcl].
  unfold confusion_count. set (pairs := combine y_true y_pred).
  rewrite (map_ext _ (fun p => length (filter (fun tp => scalar_eqb (snd tp) p
                                                         && scalar_eqb (fst tp) t)
                                         pairs)))
    by (intros p; f_equal; apply filter_ext; intros tp; apply andb_comm).
  rewrite (sum_over_labels labels snd (fun _ tp => scalar_eqb (fst tp) t) pairs Hnd).
  - rewrite count_scalar_length_filter.
    rewrite <- (map_fst_combine y_true y_pred Hlen). fold pairs.
    clear. induction pairs as [|tp l IH]; simpl; [reflexivity|].
    destruct (scalar_eqb (fst tp) t); simpl; now rewrite IH.
  - intros tp Htp. apply Hcl, in_or_app. right.
    now apply (combine_fst_In _ _ _ Htp).
Qed.

Lemma confusion_count_column (y_true y_pred labels : list scalar) (p : scalar) :
  length y_true = length y_pred ->
  np_unique (y_true ++ y_pred) = Ok labels ->
  list_sum (map (fun t => confusion_count y_true y_pred t p) labels)
  = count_scalar p y_pred.
Proof.
  intros Hlen Hu. destruct (np_unique_classes _ _ Hu) as [Hnd Hcl].
  unfold confusion_count. set (pairs := combine y_true y_pred).
  rewrite (sum_over_labels labels fst (fun _ tp => scalar_eqb (snd tp) p) pairs Hnd).
  - rewrite count_scalar_length_filter.
    rewrite <- (map_snd_combine y_true y_pred Hlen). fold pairs.
    clear. induction pairs as [|tp l IH]; simpl; [reflexivity|].
    destruct (scalar_eqb (snd tp) p); simpl; now rewrite IH.
  - intros tp Htp. apply Hcl, in_or_app. left.
    now apply (combine_fst_In _ _ _ Htp).
Qed.

Lemma confusion_matrix_total (y_true y_pred : list scalar) (cm : list (list nat)) :
  confusion_matrix y_true y_pred = Ok cm ->
  list_sum (map list_sum cm) = length y_true.
Proof.
  intros Hcm. destruct (confusion_matrix_inv _ _ _ Hcm) as [Hlen [labels [Hu ->]]].
  destruct (np_unique_classes _ _ Hu) as [Hnd Hcl].
  rewrite map_map.
  rewrite (map_ext _ (fun t => count_scalar t y_true))
    by (intros; now apply confusion_count_row).
  apply class_counts_sum; [assumption|].
  intros c Hc. apply Hcl, in_or_app. now left.
Qed.

Lemma nth_confusion (y_true y_pred labels : list scalar) (d : scalar) (i j : nat) :
  i < length labels -> j < length labels ->
  nth j (nth i (map (fun t => map (confusion_count y_true y_pred t) labels) labels) [])
    0
  = confusion_count y_true y_pred (nth i labels d) (nth j labels d).
Proof.
  intros Hi Hj.
  rewrite (nth_indep _ [] ((fun t => map (confusion_count y_true y_pred t) labels) d))
    by now rewrite length_map.
  rewrite (map_nth (fun t => map (confusion_count y_true y_pred t) labels)).
  rewrite (nth_indep _ 0 (confusion_count y_true y_pred (nth i labels d) d))
    by now rewrite length_map.
  now rewrite (map_nth (confusion_count y_true y_pred (nth i labels d))).
Qed.

(** X23.  [confusion_matrix]: the matrix is square, with one row and
    one column per distinct label of the two arrays, in sorted order;
    entry [i, j] counts the samples of true label [i] predicted as
    [j]; row [i] adds up to the number of samples whose true label is
    label [i], column [j] to the number of samples predicted as label
    [j], and all entries together to the number of samples. *)
Theorem confusion_matrix_marginals
    (y_true y_pred : list scalar) (cm : list (list nat)) (d : scalar) :
  confusion_matrix y_true y_pred = Ok cm ->
  exists labels,
    np_unique (y_true ++ y_pred) = Ok labels
    /\ length cm = length labels
    /\ Forall (fun row => length row = length labels) cm
    /\ (forall i j, i < length labels -> j < length labels ->
        nth j (nth i cm []) 0
        = length (filter (fun tp => scalar_eqb (fst tp) (nth i labels d)
                                    && scalar_eqb (snd tp) (nth j labels d))
                    (combine y_true y_pred)))
    /\ (forall i, i < length labels ->
        list_sum (nth i cm []) = count_scalar (nth i labels d) y_true)
    /\ (forall j, j < length labels ->
        list_sum (column j cm) = count_scalar (nth j labels d) y_pred)
    /\ list_sum (map list_sum cm) = length y_true.
Proof.
  intros Hcm. pose proof (confusion_matrix_total _ _ _ Hcm) as Htotal.
  destruct (confusion_matrix_inv _ _ _ Hcm) as [Hlen [labels [Hu Heq]]].
  exists labels. split; [exact Hu|]. subst cm.
  split; [apply length_map|]. split; [|split; [|split; [|split]]].
  - apply Forall_forall. intros row Hrow. apply in_map_iff in Hrow.
    destruct Hrow as [t [<- _]]. apply length_map.
  - intros i j Hi Hj. now rewrite (nth_confusion _ _ _ d).
  - intros i Hi.
    rewrite (nth_indep _ [] ((fun t => map (confusion_count y_true y_pred t) labels) d))
      by now rewrite length_map.
    rewrite (map_nth (fun t => map (confusion_count y_true y_pred t) labels)).
    now apply confusion_count_row.
  - intros j Hj. unfold column. rewrite map_map.
    rewrite (map_ext_in _ (fun t => confusion_count y_true y_pred t (nth j labels d))).
    + now apply confusion_count_column.
    + intros t _.
      rewrite (nth_indep _ 0 (confusion_count y_true y_pred t d))
        by now rewrite length_map.
      now rewrite (map_nth (confusion_count y_true y_pred t)).
  - exact Htotal.
Qed.

Section Trace.

Local Open Scope R_scope.

(** X24.  The two metrics of cell 8 agree: the diagonal of the
    confusion matrix adds up to the number of matching positions, and
    the accuracy is that sum over the sum of all entries. *)
Theorem accuracy_is_the_trace_of_the_confusion_matrix
    (y_true y_pred : list scalar) (cm : list (list nat)) (a : R) :
  confusion_matrix y_true y_pred = Ok cm ->
  accuracy_score y_true y_pred = Ok (Some a) ->
  trace cm = matches y_true y_pred
  /\ a = INR (trace cm) / INR (list_sum (map list_sum cm)).
Proof.
  intros Hcm Hacc.
  pose proof (confusion_matrix_total _ _ _ Hcm) as Htotal.
  destruct (accuracy_score_value y_true y_pred a Hacc) as [_ [_ Ha]].
  assert (Htrace : trace cm = matches y_true y_pred).
  { destruct (confusion_matrix_inv _ _ _ Hcm) as [Hlen [labels [Hu ->]]].
    destruct (np_unique_classes _ _ Hu) as [Hnd Hcl].
    unfold trace. rewrite length_map.
    rewrite (map_ext_in _ (fun i => (fun c => confusion_count y_true y_pred c c)
                                      (nth i labels (Str EmptyString)))).
    - rewrite (map_nth_seq_map (fun c => confusion_count y_true y_pred c c)).
      unfold confusion_count.
      rewrite (sum_over_labels labels fst (fun c tp => scalar_eqb (snd tp) c)
                 (combine y_true y_pred) Hnd).
      + unfold matches. f_equal. apply filter_ext. intros tp.
        destruct (scalar_eqb (snd tp) (fst tp)) eqn:E.
        * apply scalar_eqb_eq in E. rewrite E. symmetry. apply scalar_eqb_refl.
        * symmetry. apply scalar_eqb_neq. apply scalar_eqb_neq in E. congruence.
      + intros tp Htp. apply Hcl, in_or_app. left.
        now apply (combine_fst_In _ _ _ Htp).
    - intros i Hi. apply in_seq in Hi.
      apply (nth_confusion _ _ _ (Str EmptyString)); lia. }
  split; [exact Htrace|]. now rewrite Htrace, Htotal.
Qed.

End Trace.

(** * Worked instances

    Each theorem above that has hypotheses is applied here to a
    concrete input on which the hypotheses are checked by evaluation. *)

Lemma data_cleaned_imputes_column_means_witness :
  NoDup (columns gappy_frame)
  /\ shape0 (data_cleaned gappy_frame) = 3.
Proof.
  assert (Hnd : NoDup (columns gappy_frame)).
  { unfold columns. simpl. repeat constructor; simpl; intuition discriminate. }
  split; [exact Hnd|].
  apply (data_cleaned_imputes_column_means gappy_frame Hnd).
  intros name v [Hc|[Hc|[]]]; inversion Hc; subst; simpl; discriminate.
Defined.

Lemma relevant_features_are_the_nonconstant_columns_witness :
  exists train_frame,
    DataFrame_of two_features ["x"%string; "y"%string] = Ok train_frame
    /\ relevant_features (corr train_frame)
       = compress (map nonconstant (array_columns two_features))
           ["x"%string; "y"%string].
Proof.
  eexists. split; [reflexivity|].
  apply (relevant_features_are_the_nonconstant_columns two_features
           ["x"%string; "y"%string] _ eq_refl).
Defined.

Lemma grid_search_returns_the_first_best_combination_witness :
  exists r s,
    grid_search_linear (fun _ _ => Some 1%R) = Ok r
    /\ best_score_ r = Some s.
Proof.
  destruct (proj2 (grid_search_returns_the_first_best_combination
                     (fun _ _ => Some 1%R) param_grid_linear))
    as [r [s [Hr [Hs _]]]].
  - exists [("C"%string, (1 / 10)%R)]. split; [simpl; now left|].
    unfold cv_mean, np_mean. simpl. discriminate.
  - exists r, s. now split.
Defined.

Lemma split_sizes_partition_proportions_witness :
  exists parts,
    fst (split (rng := nat) ten_rows 0) = Ok parts
    /\ shape0 (X_train parts) = 8
    /\ shape0 (X_test parts) = 2.
Proof.
  destruct (split (rng := nat) ten_rows 0) as [[parts|e] g] eqn:E.
  - exists parts. split; [reflexivity|].
    assert (Hrect : rectangular ten_rows).
    { unfold rectangular. simpl. repeat constructor. }
    destruct (proj1 (split_sizes_partition_proportions ten_rows _
                       (Str EmptyString) Hrect eq_refl) parts 0 g E)
      as [train [test [_ [_ [_ [_ [_ [Hte [Htr _]]]]]]]]].
    split; [exact Htr|exact Hte].
  - exfalso. vm_compute in E. discriminate E.
Defined.

Lemma standardizer_is_fit_on_the_training_subset_witness :
  exists scaler X_train_scaled X_test_scaled,
    scaled spread_frame shifted_frame = Ok (scaler, X_train_scaled, X_test_scaled)
    /\ mean_ scaler = map nanmean [[Some 0%R; Some 2%R]].
Proof.
  destruct (standardizer_is_fit_on_the_training_subset spread_frame shifted_frame
              {| n_rows := 2; array_columns := [[Some 0%R; Some 2%R]] |}
              {| n_rows := 1; array_columns := [[Some 3%R]] |}
              eq_refl eq_refl eq_refl)
    as [scaler [tr [te [Hrun [Hmean _]]]]].
  exists scaler, tr, te. now split.
Defined.

Lemma constant_feature_is_scaled_without_nan_witness :
  exists scaler X_train_scaled X_test_scaled,
    scaled constant_frame shifted_frame = Ok (scaler, X_train_scaled, X_test_scaled).
Proof.
  destruct (constant_feature_is_scaled_without_nan constant_frame shifted_frame
              {| n_rows := 2; array_columns := [[Some 3%R; Some 3%R]] |}
              {| n_rows := 1; array_columns := [[Some 3%R]] |}
              eq_refl eq_refl eq_refl)
    as [scaler [tr [te [Hrun _]]]].
  exists scaler, tr, te. exact Hrun.
Defined.

Lemma select_features_subsequence_of_training_columns_witness :
  exists sel,
    select_features ["x"%string; "y"%string] two_features two_features = Ok sel
    /\ subseq (selected sel) ["x"%string; "y"%string].
Proof.
  destruct (select_features_subsequence_of_training_columns
              ["x"%string; "y"%string] two_features two_features eq_refl eq_refl)
    as [sel [Hrun [Hsub _]]].
  exists sel. now split.
Defined.

Lemma ten_rows_uniform : uniform ten_rows [Str "a"; Str "b"] 5.
Proof.
  split.
  - unfold rectangular. simpl. repeat constructor.
  - eexists. eexists. split; [reflexivity|]. split; [reflexivity|].
    split; [reflexivity|]. split; [discriminate|].
    intros c [<-|[<-|[]]]; reflexivity.
Defined.


Lemma balancing_drops_a_tied_majority_class_witness :
  exists balanced,
    balanced_data (rng := nat) tied_frame 0 = (Ok balanced, 0)
    /\ shape0 balanced = 4.
Proof.
  destruct (balancing_drops_a_tied_majority_class (rng := nat) 0)
    as [labels [balanced [labels' [_ [_ [_ [Hrun [Hrows _]]]]]]]].
  exists balanced. now split.
Defined.

Lemma gappy_frame_columns : NoDup (columns gappy_frame).
Proof. unfold columns. simpl. repeat constructor; simpl; intuition discriminate. Qed.

Lemma ten_rows_columns : NoDup (columns ten_rows).
Proof. unfold columns. simpl. repeat constructor; simpl; intuition discriminate. Qed.

Lemma tied_frame_columns : NoDup (columns tied_frame).
Proof. unfold columns. simpl. repeat constructor; simpl; intuition discriminate. Qed.

Lemma ten_rows_rectangular : rectangular ten_rows.
Proof. unfold rectangular. simpl. repeat constructor. Qed.

Lemma tied_frame_rectangular : rectangular tied_frame.
Proof. unfold rectangular. simpl. repeat constructor. Qed.

Lemma spread_frame_rectangular : rectangular spread_frame.
Proof. unfold rectangular. simpl. repeat constructor. Qed.

(** The column [0, 2] is not taken for constant: its variance 1 is
    above the bound [2 eps + (2 eps)^2]. *)
Lemma spread_column_mask : constant_mask [Some 0%R; Some 2%R] = false.
Proof.
  destruct spread_column_variance as [Hm Hv].
  apply not_true_is_false. intros Hc.
  apply (constant_mask_spec _ _ _ Hm Hv) in Hc. simpl in Hc.
  pose proof eps_pos as He0. pose proof eps_small as He4.
  set (e := eps) in *. nra.
Qed.

Lemma scaled_spread_frame :
  exists scaler X_test_scaled,
    scaled spread_frame spread_frame
    = Ok (scaler, {| n_rows := 2; array_columns := [[Some (-1)%R; Some 1%R]] |},
          X_test_scaled).
Proof.
  assert (Ha : check_array spread_frame
               = Ok {| n_rows := 2; array_columns := [[Some 0%R; Some 2%R]] |})
    by reflexivity.
  rewrite (scaled_ok _ _ _ _ Ha Ha eq_refl).
  cbn [array_columns map combine fst snd n_rows].
  destruct spread_column_scale as [Hm Hsc]. rewrite Hm, Hsc.
  assert (Hc : standardize (Some 1%R) (Some 1%R) [Some 0%R; Some 2%R]
               = [Some (-1)%R; Some 1%R]).
  { unfold standardize. simpl. destruct (Req_EM_T 1 0); [lra|].
    repeat f_equal; field. }
  rewrite Hc. do 2 eexists. reflexivity.
Qed.

Lemma missing_values_after_imputation_witness :
  NoDup (columns gappy_frame)
  /\ length (missing_values (data_cleaned gappy_frame)) = 2.
Proof.
  split; [exact gappy_frame_columns|].
  rewrite <- (Forall2_length
                (missing_values_after_imputation gappy_frame gappy_frame_columns)).
  reflexivity.
Defined.

Lemma imputation_preserves_column_means_witness :
  mean_numeric_only (data_cleaned gappy_frame) = mean_numeric_only gappy_frame.
Proof.
  exact (imputation_preserves_column_means gappy_frame gappy_frame_columns).
Defined.

Lemma imputation_is_idempotent_witness :
  data_cleaned (data_cleaned gappy_frame) = data_cleaned gappy_frame.
Proof.
  exact (imputation_is_idempotent gappy_frame gappy_frame_columns).
Defined.

Lemma balancing_fails_without_labels_witness :
  balanced_data (rng := nat) spread_frame 0 = (Raise KeyError, 0).
Proof.
  exact (proj1 (balancing_fails_without_labels (rng := nat) spread_frame) eq_refl 0).
Defined.

Lemma balanced_class_distribution_is_uniform_witness :
  exists balanced distribution,
    (forall global : nat, balanced_data ten_rows global = (Ok balanced, global))
    /\ balanced_class_distribution balanced = Ok distribution
    /\ shape0 balanced = length distribution * 5.
Proof.
  destruct (balanced_class_distribution_is_uniform (rng := nat) ten_rows _
              ten_rows_rectangular ten_rows_columns eq_refl)
    as [majority [balanced [distribution [_ [Hrun [Hd [_ [_ [Hrows _]]]]]]]]].
  - simpl. discriminate.
  - exists balanced, distribution. split; [exact Hrun|]. split; [exact Hd|].
    exact Hrows.
Defined.

Lemma balancing_only_copies_rows_witness :
  exists indices,
    Forall (fun i => i < 5) indices
    /\ forall global : nat,
        balanced_data tied_frame global
        = (Ok (DataFrame_gather indices tied_frame), global).
Proof.
  destruct (balancing_only_copies_rows (rng := nat) tied_frame _
              tied_frame_rectangular tied_frame_columns eq_refl)
    as [majority [indices [_ [Hb [_ [_ Hrun]]]]]].
  - simpl. discriminate.
  - exists indices. split; [exact Hb|exact Hrun].
Defined.

Lemma resample_draws_rows_of_its_input_witness :
  exists indices,
    length indices = 3
    /\ forall global : nat,
        resample spread_frame 3 (Some 42) global
        = (Ok (DataFrame_gather indices spread_frame), global).
Proof.
  destruct (proj1 (resample_draws_rows_of_its_input (rng := nat) spread_frame 3 42
                     spread_frame_rectangular ltac:(lia)))
    as [indices [Hlen [_ Hrun]]].
  - simpl. lia.
  - exists indices. split; [exact Hlen|exact Hrun].
Defined.

Lemma shuffle_keeps_every_row_once_witness :
  exists p,
    Permutation [0; 1] p
    /\ forall global : nat,
        sample spread_frame (Some 42) global
        = (Ok (DataFrame_gather p spread_frame), global).
Proof.
  exact (shuffle_keeps_every_row_once (rng := nat) spread_frame 42
           spread_frame_rectangular).
Defined.

Lemma split_error_cases_witness :
  split (rng := nat) spread_frame 0 = (Raise KeyError, 0)
  /\ split (rng := nat) tied_frame 0 = (Raise ValueError, 0).
Proof.
  split.
  - exact (proj1 (split_error_cases (rng := nat) spread_frame) eq_refl 0).
  - destruct (proj2 (split_error_cases (rng := nat) tied_frame) _
                tied_frame_rectangular eq_refl) as [_ [_ [_ Hlone]]].
    apply (Hlone [Str "a"; Str "b"; Str "c"] (Str "c")).
    + reflexivity.
    + reflexivity.
    + simpl. auto.
    + simpl. lia.
Defined.

Lemma features_exclude_the_label_column_witness :
  exists parts,
    fst (split (rng := nat) ten_rows 0) = Ok parts
    /\ ~ In class_column (columns (X_train parts)).
Proof.
  destruct (split (rng := nat) ten_rows 0) as [[parts|e] g] eqn:E.
  - exists parts. split; [reflexivity|].
    apply (features_exclude_the_label_column (rng := nat) ten_rows _ parts 0 g
             ten_rows_rectangular eq_refl E).
  - exfalso. vm_compute in E. discriminate E.
Defined.

Lemma approximate_mode_allocation_witness :
  exists res r',
    _approximate_mode (rng := nat) [5; 5] 8 0 = (Ok res, r')
    /\ list_sum res = 8.
Proof.
  destruct (approximate_mode_allocation (rng := nat) [5; 5] 8 0)
    as [res [r' [Hrun [_ [Hsum _]]]]].
  - simpl. lia.
  - simpl. lia.
  - exists res, r'. split; [exact Hrun|exact Hsum].
Defined.

Lemma balanced_split_is_balanced_witness :
  exists parts,
    (forall global : nat, split ten_rows global = (Ok parts, global))
    /\ shape0 (X_train parts) = 8
    /\ shape0 (X_test parts) = 2.
Proof.
  destruct (balanced_split_is_balanced (rng := nat) ten_rows [Str "a"; Str "b"] 1
              ten_rows_uniform ltac:(lia)) as [parts [Hrun [Htr [Hte _]]]].
  exists parts. split; [exact Hrun|]. split; [exact Htr|exact Hte].
Defined.

Lemma prepare_returns_with_five_majority_rows_witness :
  exists balanced parts,
    forall global : nat, prepare ten_rows global = (Ok (balanced, parts), global).
Proof.
  destruct (prepare_returns_with_five_majority_rows (rng := nat) ten_rows _
              [Str "a"; Str "b"] ten_rows_rectangular ten_rows_columns
              eq_refl eq_refl)
    as [balanced [parts [classes [Hrun _]]]].
  - vm_compute. apply le_n.
  - exists balanced, parts. exact Hrun.
Defined.

Lemma standardization_keeps_missing_entries_witness :
  exists scaler X_train_scaled X_test_scaled,
    scaled spread_frame shifted_frame = Ok (scaler, X_train_scaled, X_test_scaled).
Proof.
  destruct (standardization_keeps_missing_entries spread_frame shifted_frame
              {| n_rows := 2; array_columns := [[Some 0%R; Some 2%R]] |}
              {| n_rows := 1; array_columns := [[Some 3%R]] |}
              eq_refl eq_refl eq_refl)
    as [scaler [tr [te [Hrun _]]]].
  exists scaler, tr, te. exact Hrun.
Defined.

Lemma standardization_preserves_order_witness :
  exists scaler X_train_scaled X_test_scaled,
    scaled spread_frame shifted_frame = Ok (scaler, X_train_scaled, X_test_scaled).
Proof.
  destruct (standardization_preserves_order spread_frame shifted_frame
              {| n_rows := 2; array_columns := [[Some 0%R; Some 2%R]] |}
              {| n_rows := 1; array_columns := [[Some 3%R]] |}
              eq_refl eq_refl eq_refl)
    as [scaler [tr [te [Hrun _]]]].
  exists scaler, tr, te. exact Hrun.
Defined.

Lemma standardization_is_idempotent_witness :
  Forall (fun c => constant_mask c = true -> nanvar c = Some 0%R)
    [[Some 0%R; Some 2%R]]
  /\ exists scaler',
      scaled standard_frame standard_frame
      = Ok (scaler', {| n_rows := 2; array_columns := [[Some (-1)%R; Some 1%R]] |},
            {| n_rows := 2; array_columns := [[Some (-1)%R; Some 1%R]] |}).
Proof.
  assert (Hexact : Forall (fun c => constant_mask c = true -> nanvar c = Some 0%R)
                     [[Some 0%R; Some 2%R]]).
  { constructor; [|constructor]. rewrite spread_column_mask. discriminate. }
  split; [exact Hexact|].
  destruct scaled_spread_frame as [scaler [te Hrun]].
  destruct (standardization_is_idempotent spread_frame spread_frame
              standard_frame
              {| n_rows := 2; array_columns := [[Some 0%R; Some 2%R]] |}
              scaler _ te eq_refl Hexact Hrun eq_refl) as [scaler' [Hagain _]].
  exists scaler'. exact Hagain.
Defined.

Lemma ParameterGrid_enumerates_the_product_witness :
  exists candidates,
    ParameterGrid param_grid_linear = Ok candidates
    /\ length candidates = 4.
Proof.
  destruct (proj2 (ParameterGrid_enumerates_the_product param_grid_linear))
    as [candidates [Hrun [Hlen _]]].
  - intros kv [<-|[]]. discriminate.
  - exists candidates. split; [exact Hrun|exact Hlen].
Defined.

Lemma ParameterGrid_ignores_the_order_of_the_keys_witness :
  ParameterGrid [("gamma"%string, [1; 1 / 10; 1 / 100; 1 / 1000]%R);
                 ("C"%string, [1 / 10; 1; 10; 100]%R)]
  = ParameterGrid param_grid_rbf.
Proof.
  apply ParameterGrid_ignores_the_order_of_the_keys.
  - simpl. repeat constructor; simpl; intuition discriminate.
  - apply perm_swap.
Defined.

Lemma grid_search_returns_iff_some_fit_succeeds_witness :
  exists r, GridSearchCV_fit (fun _ _ => Some 1%R) param_grid_linear = Ok r.
Proof.
  destruct (proj1 (grid_search_returns_iff_some_fit_succeeds
                     (fun _ _ => Some 1%R) param_grid_linear
                     ltac:(intros kv [<-|[]]; discriminate)))
    as [r [Hrun _]].
  - exists [("C"%string, (1 / 10)%R)], 0. split; [simpl; now left|].
    split; [unfold n_splits; lia|discriminate].
  - exists r. exact Hrun.
Defined.

Lemma accuracy_score_is_the_share_of_matches_witness :
  exists a,
    accuracy_score [Str "a"; Str "b"] [Str "a"; Str "a"] = Ok (Some a)
    /\ (0 <= a <= 1)%R.
Proof.
  destruct (accuracy_score_is_the_share_of_matches
              [Str "a"; Str "b"] [Str "a"; Str "a"]) as [_ [Hret Hval]].
  destruct Hret as [a Ha].
  - reflexivity.
  - discriminate.
  - repeat constructor.
  - repeat constructor.
  - exists a. split; [exact Ha|]. apply (Hval a Ha).
Defined.

Lemma confusion_matrix_marginals_witness :
  exists labels,
    np_unique ([Str "a"; Str "b"] ++ [Str "a"; Str "a"]) = Ok labels
    /\ length [[1; 0]; [1; 0]] = length labels.
Proof.
  destruct (confusion_matrix_marginals [Str "a"; Str "b"] [Str "a"; Str "a"]
              [[1; 0]; [1; 0]] (Str "a") eq_refl) as [labels [Hu [Hlen _]]].
  exists labels. split; [exact Hu|exact Hlen].
Defined.

Lemma accuracy_is_the_trace_of_the_confusion_matrix_witness :
  trace [[1; 0]; [1; 0]] = matches [Str "a"; Str "b"] [Str "a"; Str "a"].
Proof.
  destruct (accuracy_score_returns [Str "a"; Str "b"] [Str "a"; Str "a"])
    as [a Ha].
  - reflexivity.
  - discriminate.
  - repeat constructor.
  - repeat constructor.
  - apply (accuracy_is_the_trace_of_the_confusion_matrix
             [Str "a"; Str "b"] [Str "a"; Str "a"] [[1; 0]; [1; 0]] a eq_refl Ha).
Defined.

Lemma oversampled_row_reaches_train_and_test_witness :
  exists indices train test i j,
    In i train /\ In j test /\ nth i indices 0 = 5 /\ nth j indices 0 = 5.
Proof.
  assert (Hrect : rectangular lone_frame).
  { unfold rectangular. simpl. repeat constructor. }
  assert (Hnd : NoDup (columns lone_frame)).
  { unfold columns. simpl. repeat constructor; simpl; intuition discriminate. }
  destruct (oversampled_row_reaches_train_and_test (rng := nat) lone_frame _
              [Str "a"; Str "c"] (Str "c") 5 Hrect Hnd eq_refl eq_refl)
    as [balanced [parts [indices [train [test [_ [_ [_ [_ [_ [i [j Hij]]]]]]]]]]]].
  - vm_compute. apply le_n.
  - reflexivity.
  - reflexivity.
  - exists indices, train, test, i, j. exact Hij.
Defined.
